(** * Resumable crawler engine of the Europass harvesting pipeline

    A shallow embedding of the three crawlers of the repository:

    - [Bulk]    : src/00save2.js          (paginated search, one NDJSON file
                                           per country and EQF level);
    - [Levels]  : src/unnamed/part_000    (paginated search per EQF level,
                                           persisted URI index);
    - [Details] : src/02fetchCountries.js (one detail document per URI);
    - [Limiter] : the token bucket shared by [Bulk] and [Details];
    - [Spec]    : the documented behaviours that are compared with the code;
    - [Scenario]: concrete servers, disks and checkpoint documents.

    JavaScript values are modelled by [Js.value]; effects (network, files,
    timers, the clock) are threaded through an explicit world, and a thrown
    exception is a constructor of the result type, so that "returns a
    failure value" and "throws" stay distinguishable. *)

From stdpp Require Import gmap strings list fin_maps pretty.
From Stdlib Require Import ZArith Lia Sorting.Sorted.

Open Scope Z_scope.
Set Warnings "-clear-no-such-hyp".

(* ===================================================================== *)
(** ** JavaScript values                                                  *)
(* ===================================================================== *)

Module Js.

(** What [JSON.parse] produces, plus [undefined] (the result of reading a
    property that is not there).  Numbers are restricted to integers: the
    code only counts, compares with zero and uses them as set members.
    The fields of an object are listed in property enumeration order. *)
#[local] Unset Elimination Schemes.
Inductive value : Type :=
| VUndefined
| VNull
| VBool (b : bool)
| VNum (n : Z)
| VStr (s : string)
| VArr (elems : list value)
| VObj (fields : list (string * value)).
#[local] Set Elimination Schemes.

(** Own-property lookup in a field list. *)
Fixpoint assoc (k : string) (fields : list (string * value)) : value :=
  match fields with
  | [] => VUndefined
  | (k', v) :: rest => if String.eqb k k' then v else assoc k rest
  end.

(** [v?.k] for the property names used by the crawlers (none of them is a
    built-in property of arrays, strings, numbers or booleans). *)
Definition prop (v : value) (k : string) : value :=
  match v with
  | VObj fields => assoc k fields
  | _ => VUndefined
  end.

(** [v == null], the test behind [??] and [?.]. *)
Definition nullish (v : value) : bool :=
  match v with
  | VUndefined | VNull => true
  | _ => false
  end.

(** [a ?? b]. *)
Definition coalesce (a b : value) : value := if nullish a then b else a.

(** [!!v]. *)
Definition truthy (v : value) : bool :=
  match v with
  | VUndefined | VNull => false
  | VBool b => b
  | VNum n => negb (n =? 0)
  | VStr s => negb (String.eqb s "")
  | VArr _ | VObj _ => true
  end.

(** [Array.isArray(v)]. *)
Definition isArray (v : value) : bool :=
  match v with VArr _ => true | _ => false end.

(** [typeof v === "object"] (true of [null] as well). *)
Definition typeof_object (v : value) : bool :=
  match v with VNull | VArr _ | VObj _ => true | _ => false end.

(** The key under which a JavaScript [Set] finds a member again.
    Primitives are compared by value (SameValueZero); an array or an object
    is held by reference, and every parsed response allocates its arrays and
    objects afresh, so such a member is never found by a later lookup: it has
    no key. *)
Inductive prim : Type :=
| PUndefined
| PNull
| PBool (b : bool)
| PNum (n : Z)
| PStr (s : string).

#[global] Instance prim_eq_dec : EqDecision prim.
Proof. solve_decision. Defined.

Definition key_of (v : value) : option prim :=
  match v with
  | VUndefined => Some PUndefined
  | VNull => Some PNull
  | VBool b => Some (PBool b)
  | VNum n => Some (PNum n)
  | VStr s => Some (PStr s)
  | VArr _ | VObj _ => None
  end.

(** A [Set]: its members in insertion order. *)
Abbreviation jsset := (list value).

Definition keys (s : jsset) : list prim := omap key_of s.

(** [set.has(v)]. *)
Definition set_has (s : jsset) (v : value) : bool :=
  match key_of v with
  | Some p => bool_decide (p ∈ keys s)
  | None => false
  end.

(** [set.add(v)]. *)
Definition set_add (s : jsset) (v : value) : jsset :=
  if set_has s v then s else s ++ [v].

(** [new Set(arr)]. *)
Definition new_Set (arr : list value) : jsset := foldl set_add [] arr.

(** [set.size]. *)
Definition set_size (s : jsset) : Z := Z.of_nat (length s).

End Js.

(* ===================================================================== *)
(** ** Effects: exceptions, the world, files, the network, timers         *)
(* ===================================================================== *)

Module Eff.
Import Js.

(** A JavaScript [Error]: its message and, for file-system errors, its
    [code] (["EPERM"], ["ENOENT"], ...). *)
Record error : Type := Error { code : option string; message : string }.

(** How an [async] function ends.  [Diverged] is the embedding's own: the
    fuel of a [while (true)] loop ran out. *)
Inductive outcome (A : Type) : Type :=
| Returned (a : A)
| Thrown (e : error)
| Diverged.
Arguments Returned {A} a.
Arguments Thrown {A} e.
Arguments Diverged {A}.

(** An HTTP response as the crawlers read it: [parsed] is what [JSON.parse]
    makes of [text] ([None]: it throws), [jsonType] whether the
    content-type header mentions json. *)
Record response : Type := Response {
  status : Z;
  statusText : string;
  text : string;
  parsed : option value;
  jsonType : bool
}.

(** [res.ok]. *)
Definition ok (r : response) : bool := (200 <=? status r) && (status r <=? 299).

(** What one call of [fetch] does: reject (network failure, abort on
    timeout) or resolve with a response. *)
Inductive fetch_outcome : Type :=
| Rejects (e : error)
| Responds (r : response).

(** A JSON document file: a document of type [D], or the torn remains of a
    write that failed half-way (not parseable). *)
Inductive content (D : Type) : Type :=
| Doc (d : D)
| Torn.
Arguments Doc {D} d.
Arguments Torn {D}.

(** What the run leaves for an observer outside it. *)
Inductive event (D : Type) : Type :=
| EvAcquire                                   (* rateLimit() passed *)
| EvFetch (url : string)                      (* fetch(url) issued *)
| EvSleep (ms : Z)                            (* await sleep(ms) *)
| EvWarn (msg : string)                       (* console.warn *)
| EvError (msg : string)                      (* console.error *)
| EvWrite (path : string) (c : content D)     (* writeFile on a document *)
| EvRename (src dst : string) (c : content D) (* rename succeeded *)
| EvUnlink (path : string).
Arguments EvAcquire {D}.
Arguments EvFetch {D} url.
Arguments EvSleep {D} ms.
Arguments EvWarn {D} msg.
Arguments EvError {D} msg.
Arguments EvWrite {D} path c.
Arguments EvRename {D} src dst c.
Arguments EvUnlink {D} path.

(** The sleeps of a log, in order. *)
Definition sleeps {D} (l : list (event D)) : list Z :=
  omap (fun e => match e with EvSleep ms => Some ms | _ => None end) l.

(** The contents that successful renames put at [target], in order: the
    history of what a reader of that file could find there. *)
Definition renamed_onto {D} (target : string) (l : list (event D))
  : list (content D) :=
  omap (fun e => match e with
                 | EvRename _ dst c => if String.eqb dst target then Some c else None
                 | _ => None
                 end) l.

(** The paths that [writeFile] wrote in place, in order. *)
Definition written_paths {D} (l : list (event D)) : list string :=
  omap (fun e => match e with EvWrite path _ => Some path | _ => None end) l.

(** The world a crawler runs in.  [H] is the crawler's own heap (its mutable
    in-memory objects), [D] the type of its JSON documents.

    - [docs]    : JSON document files (checkpoints, indexes, temp files);
    - [ndjson]  : record files, one record per line;
    - [faults]  : the file system's answer to the n-th file operation
                  ([None]: it succeeds, [Some c]: it fails with code [c]);
    - [net]     : the network's answer to the n-th request, by URL;
    - [jitter]  : the n-th draw of [Math.random() * 150], in ms;
    - [tmptag]  : the n-th fresh temp-file suffix (pid, time, random). *)
Record world (H D : Type) : Type := World {
  heap : H;
  docs : gmap string (content D);
  ndjson : gmap string (list value);
  ios : nat;
  faults : nat -> option string;
  reqs : nat;
  net : nat -> string -> fetch_outcome;
  jitter : nat -> Z;
  tmptag : nat -> string;
  clock : Z;
  log : list (event D)
}.
Arguments World {H D}.
Arguments heap {H D}.
Arguments docs {H D}.
Arguments ndjson {H D}.
Arguments ios {H D}.
Arguments faults {H D}.
Arguments reqs {H D}.
Arguments net {H D}.
Arguments jitter {H D}.
Arguments tmptag {H D}.
Arguments clock {H D}.
Arguments log {H D}.

Section Monad.
Context {H D : Type}.
Abbreviation W := (world H D).

Definition M (A : Type) : Type := W -> outcome A * W.

Definition ret {A} (a : A) : M A := fun w => (Returned a, w).

Definition bind {A B} (c : M A) (k : A -> M B) : M B :=
  fun w =>
    match c w with
    | (Returned a, w') => k a w'
    | (Thrown e, w') => (Thrown e, w')
    | (Diverged, w') => (Diverged, w')
    end.

Definition throw {A} (e : error) : M A := fun w => (Thrown e, w).

(** [try { c } catch (err) { h err }]. *)
Definition try_catch {A} (c : M A) (h : error -> M A) : M A :=
  fun w =>
    match c w with
    | (Thrown e, w') => h e w'
    | r => r
    end.

Definition diverge {A} : M A := fun w => (Diverged, w).

(** [try { c } finally { f }]. *)
Definition try_finally {A} (c : M A) (f : M unit) : M A :=
  fun w =>
    match c w with
    | (Diverged, w') => (Diverged, w')
    | (r, w') =>
        match f w' with
        | (Returned _, w'') => (r, w'')
        | (Thrown e, w'') => (Thrown e, w'')
        | (Diverged, w'') => (Diverged, w'')
        end
    end.

Definition get_heap : M H := fun w => (Returned (heap w), w).

Definition set_heap (h : H) : M unit :=
  fun w => (Returned tt,
            World h (docs w) (ndjson w) (ios w) (faults w) (reqs w) (net w)
                  (jitter w) (tmptag w) (clock w) (log w)).

Definition with_docs (d : gmap string (content D)) (w : W) : W :=
  World (heap w) d (ndjson w) (ios w) (faults w) (reqs w) (net w)
        (jitter w) (tmptag w) (clock w) (log w).

Definition with_ndjson (n : gmap string (list value)) (w : W) : W :=
  World (heap w) (docs w) n (ios w) (faults w) (reqs w) (net w)
        (jitter w) (tmptag w) (clock w) (log w).

Definition emit_w (e : event D) (w : W) : W :=
  World (heap w) (docs w) (ndjson w) (ios w) (faults w) (reqs w) (net w)
        (jitter w) (tmptag w) (clock w) (log w ++ [e]).

Definition emit (e : event D) : M unit := fun w => (Returned tt, emit_w e w).

(** [console.warn], [console.error]. *)
Definition warn (msg : string) : M unit := emit (EvWarn msg).
Definition console_error (msg : string) : M unit := emit (EvError msg).

(** [Date.now()]. *)
Definition now : M Z := fun w => (Returned (clock w), w).

(** [await sleep(ms)]: the clock moves on. *)
Definition sleep (ms : Z) : M unit :=
  fun w => (Returned tt,
            World (heap w) (docs w) (ndjson w) (ios w) (faults w) (reqs w)
                  (net w) (jitter w) (tmptag w) (clock w + Z.max 0 ms)
                  (log w ++ [EvSleep ms])).

(** One file operation: the file system is asked whether it fails. *)
Definition io_fault : M (option string) :=
  fun w => (Returned (faults w (ios w)),
            World (heap w) (docs w) (ndjson w) (S (ios w)) (faults w) (reqs w)
                  (net w) (jitter w) (tmptag w) (clock w) (log w)).

Definition fs_error (c op : string) : error :=
  Error (Some c) (c +:+ ": " +:+ op).

End Monad.

Declare Scope eff_scope.
Delimit Scope eff_scope with eff.
Notation "'let*' x ':=' c 'in' k" := (bind c (fun x => k))
  (at level 10, x pattern, c at level 100, k at level 200) : eff_scope.
Notation "c ';;' k" := (bind c (fun _ => k))
  (at level 100, k at level 200, right associativity) : eff_scope.

#[local] Open Scope string_scope.
#[local] Open Scope eff_scope.

Section Ops.
Context {H D : Type}.
Abbreviation W := (world H D).
Abbreviation M := (M (H:=H) (D:=D)).

(** *** Document files *)

Definition put_doc (path : string) (c : content D) : M unit :=
  fun w => (Returned tt, with_docs (<[path := c]> (docs w)) w).

(** [fs.writeFile(path, JSON.stringify(d))] and [fs.writeFileSync]: the file
    is opened for writing (truncated) and filled; a write that fails leaves
    it torn. *)
Definition writeFile (path : string) (d : D) : M unit :=
  let* f := io_fault in
  match f with
  | Some c =>
      put_doc path Torn ;; emit (EvWrite path Torn) ;;
      throw (fs_error c ("write " +:+ path))
  | None => put_doc path (Doc d) ;; emit (EvWrite path (Doc d))
  end.

(** [fs.rename(src, dst)]: all or nothing. *)
Definition rename (src dst : string) : M unit :=
  let* f := io_fault in
  match f with
  | Some c => throw (fs_error c ("rename " +:+ src))
  | None =>
      fun w =>
        match docs w !! src with
        | None => (Thrown (fs_error "ENOENT" ("rename " +:+ src)), w)
        | Some c =>
            (Returned tt,
             emit_w (EvRename src dst c)
                    (with_docs (<[dst := c]> (delete src (docs w))) w))
        end
  end.

(** [fs.unlink(path)]. *)
Definition unlink (path : string) : M unit :=
  let* f := io_fault in
  match f with
  | Some c => throw (fs_error c ("unlink " +:+ path))
  | None =>
      fun w =>
        match docs w !! path with
        | None => (Thrown (fs_error "ENOENT" ("unlink " +:+ path)), w)
        | Some _ =>
            (Returned tt, emit_w (EvUnlink path) (with_docs (delete path (docs w)) w))
        end
  end.

(** [JSON.parse(fs.readFile(path))]: throws when the file is missing or does
    not parse. *)
Definition readDoc (path : string) : M D :=
  let* f := io_fault in
  match f with
  | Some c => throw (fs_error c ("open " +:+ path))
  | None =>
      fun w =>
        match docs w !! path with
        | Some (Doc d) => (Returned d, w)
        | Some Torn => (Thrown (Error None "Unexpected end of JSON input"), w)
        | None => (Thrown (fs_error "ENOENT" ("open " +:+ path)), w)
        end
  end.

(** *** Record files (NDJSON).  A failed operation leaves the file as it
    was. *)

Definition put_lines (path : string) (l : list value) : M unit :=
  fun w => (Returned tt, with_ndjson (<[path := l]> (ndjson w)) w).

(** [fs.mkdir(dir, { recursive: true })]. *)
Definition mkdir (dir : string) : M unit :=
  let* f := io_fault in
  match f with
  | Some c => throw (fs_error c ("mkdir " +:+ dir))
  | None => ret tt
  end.

(** [fs.access(path)]. *)
Definition access (path : string) : M unit :=
  let* f := io_fault in
  match f with
  | Some c => throw (fs_error c ("access " +:+ path))
  | None =>
      fun w =>
        match ndjson w !! path with
        | Some _ => (Returned tt, w)
        | None => (Thrown (fs_error "ENOENT" ("access " +:+ path)), w)
        end
  end.

(** [fs.readFile(path)] of a record file, as its lines. *)
Definition readLines (path : string) : M (list value) :=
  let* f := io_fault in
  match f with
  | Some c => throw (fs_error c ("open " +:+ path))
  | None =>
      fun w =>
        match ndjson w !! path with
        | Some l => (Returned l, w)
        | None => (Thrown (fs_error "ENOENT" ("open " +:+ path)), w)
        end
  end.

(** [fs.writeFile(path, lines)]. *)
Definition writeLines (path : string) (l : list value) : M unit :=
  let* f := io_fault in
  match f with
  | Some c => throw (fs_error c ("write " +:+ path))
  | None => put_lines path l
  end.

(** [fs.appendFile(path, data)]: the file is created when missing. *)
Definition appendLines (path : string) (l : list value) : M unit :=
  let* f := io_fault in
  match f with
  | Some c => throw (fs_error c ("append " +:+ path))
  | None =>
      fun w => put_lines path (default [] (ndjson w !! path) ++ l) w
  end.

(** [fs.unlink(path)] of a record file. *)
Definition unlinkLines (path : string) : M unit :=
  let* f := io_fault in
  match f with
  | Some c => throw (fs_error c ("unlink " +:+ path))
  | None =>
      fun w =>
        match ndjson w !! path with
        | None => (Thrown (fs_error "ENOENT" ("unlink " +:+ path)), w)
        | Some _ => (Returned tt, with_ndjson (delete path (ndjson w)) w)
        end
  end.

(** *** The network *)

(** [rateLimit()], seen from the caller: it returns once a token was taken
    (module [Limiter] has the bucket and its timing). *)
Definition rateLimit : M unit := emit EvAcquire.

(** [Math.random() * 150], drawn once before each request. *)
Definition draw_jitter : M Z := fun w => (Returned (jitter w (reqs w)), w).

(** [fetch(url, ...)] under its abort timer: a request that outlives the
    timer rejects like any network failure. *)
Definition fetch (url : string) : M response :=
  fun w =>
    let w' := World (heap w) (docs w) (ndjson w) (ios w) (faults w)
                    (S (reqs w)) (net w) (jitter w) (tmptag w) (clock w)
                    (log w ++ [EvFetch url]) in
    match net w (reqs w) url with
    | Rejects e => (Thrown e, w')
    | Responds r => (Returned r, w')
    end.

(** The n-th fresh temp-file suffix ([process.pid], [Date.now()],
    [Math.random()]), one per file operation. *)
Definition fresh_tag : M string := fun w => (Returned (tmptag w (ios w)), w).

End Ops.

End Eff.

(* ===================================================================== *)
(** ** The bulk fetcher (src/00save2.js)                                  *)
(* ===================================================================== *)

Module Bulk.
Import Js Eff.
#[local] Open Scope string_scope.
#[local] Open Scope eff_scope.

Definition BASE_URL : string :=
  "https://europa.eu/europass/eportfolio/api/qdr/europass/qdr-search/search".
Definition PAGE_SIZE : Z := 10.
Definition MAX_RETRIES : nat := 3.
Definition SAVE_TO_DISK : bool := true.
Definition TYPE : string := "qualification".
Definition OUT_DIR : string := "files".
Definition META_PATH : string := "europass_meta.json".
Definition MAX_PAGES_PER_LEVEL : Z := 10000.
Definition eqfLevel : list Z := [1; 2; 3; 4; 5; 6; 7; 8].

(** One checkpoint entry, [meta[country][level]]. *)
Record entry : Type := Entry {
  from : Z;
  completed : bool;
  file : string;
  lastUpdated : option Z;
  totalPages : Z;
  totalItems : Z
}.

(** The checkpoint document: country, then level. *)
Abbreviation meta := (gmap string (gmap Z entry)).

(** The bulk fetcher's world: its heap is the in-memory [meta] object that
    [fetchAllFor] receives and mutates in place, its documents are
    checkpoint documents. *)
Abbreviation world := (Eff.world meta meta).
Abbreviation M := (Eff.M (H:=meta) (D:=meta)).

(** [path.join(OUT_DIR, `${country}_eqf${level}.ndjson`)]. *)
Definition level_file (country : string) (level : Z) : string :=
  OUT_DIR +:+ "/" +:+ country +:+ "_eqf" +:+ pretty level +:+ ".ndjson".

Definition fresh_entry (country : string) (level : Z) : entry :=
  Entry 0 false (level_file country level) None 0 0.

(** [getMeta(meta, country, level)]: the entry, created when it is missing,
    and the object as the call leaves it. *)
Definition getMeta (m : meta) (country : string) (level : Z) : entry * meta :=
  let m1 := match m !! country with
            | Some _ => m
            | None => <[country := ∅]> m
            end in
  let levels := default ∅ (m1 !! country) in
  match levels !! level with
  | Some e => (e, m1)
  | None =>
      let e := fresh_entry country level in
      (e, <[country := <[level := e]> levels]> m1)
  end.

(** [markUpdated(entry, { from, pageItems })], at time [t]. *)
Definition markUpdated (e : entry) (from' pageItems t : Z) : entry :=
  Entry from' (completed e) (file e) (Some t)
        (totalPages e + 1) (totalItems e + pageItems).

(** [markComplete(entry)], at time [t]. *)
Definition markComplete (e : entry) (t : Z) : entry :=
  Entry (from e) true (file e) (Some t) (totalPages e) (totalItems e).

(** In the source [entry] is a reference into [meta]: reading a field reads
    the heap, assigning one updates it. *)
Definition read_entry (country : string) (level : Z) : M entry :=
  let* m := get_heap in
  ret (getMeta m country level).1.

Definition modify_entry (country : string) (level : Z) (f : entry -> entry)
  : M unit :=
  let* m := get_heap in
  let '(e, m1) := getMeta m country level in
  set_heap (<[country := <[level := f e]> (default ∅ (m1 !! country))]> m1).

Definition getMetaM (country : string) (level : Z) : M entry :=
  let* m := get_heap in
  let '(e, m1) := getMeta m country level in
  set_heap m1 ;; ret e.

Definition buildUrl (country : string) (level from' : Z) : string :=
  BASE_URL +:+ "?keywords=&size=" +:+ pretty PAGE_SIZE +:+ "&from=" +:+ pretty from'
  +:+ "&sortType=publication%20date&language=en&type=" +:+ TYPE
  +:+ "&location=http://publications.europa.eu/resource/authority/country/"
  +:+ country
  +:+ "&eqfLevel=http://data.europa.eu/snb/eqf/" +:+ pretty level
  +:+ "&version=1.8".

(** The loop at the end of [extractItems]: the first property value that is
    a non-empty array whose first element has type object. *)
Fixpoint first_object_array (vals : list value) : list value :=
  match vals with
  | [] => []
  | VArr (x :: xs) :: rest =>
      if typeof_object x then x :: xs else first_object_array rest
  | _ :: rest => first_object_array rest
  end.

Definition array_elems (v : value) : list value :=
  match v with VArr l => l | _ => [] end.

(** [extractItems(json)]. *)
Definition extractItems (json : value) : list value :=
  if negb (truthy json) || negb (typeof_object json) then []
  else
    let candidates :=
      filter (fun v => isArray v = true)
        [ prop json "items";
          prop json "results";
          prop (prop json "hits") "hits";
          prop (prop json "data") "items";
          prop (prop json "data") "results";
          if isArray json then json else VNull ] in
    match candidates with
    | c :: _ => array_elems c
    | [] =>
        match json with
        | VObj fields => first_object_array (map snd fields)
        | _ => []
        end
    end.

(** [getItemId(it)]. *)
Definition getItemId (it : value) : value :=
  coalesce (coalesce (coalesce (coalesce (coalesce
    (prop it "id") (prop it "uuid")) (prop it "identifier"))
    (prop it "escoIdentifier")) (prop it "uri")) VNull.

(** The de-duplication of one page in [fetchAllFor]:
    [items.filter((_, i) => { const id = pageIds[i]; ... })] with its updates
    of [seen]; the kept items and the set as the filter leaves it. *)
Fixpoint dedup (seen : jsset) (items : list value)
  : list value * jsset :=
  match items with
  | [] => ([], seen)
  | it :: rest =>
      let id := getItemId it in
      if negb (truthy id) then
        let '(kept, seen') := dedup seen rest in (it :: kept, seen')
      else if set_has seen id then dedup seen rest
      else
        let '(kept, seen') := dedup (set_add seen id) rest in (it :: kept, seen')
  end.

(** *** The retry executor *)

Definition newline : string := String (Ascii.ascii_of_nat 10) EmptyString.

(** The error thrown for a 5xx or 429 response. *)
Definition retryable_error (r : response) : error :=
  Error None ("HTTP " +:+ pretty (status r) +:+ " " +:+ statusText r).

(** The error thrown for any other response that is not ok; it carries the
    first 500 characters of the body. *)
Definition other_error (r : response) : error :=
  Error None ("HTTP " +:+ pretty (status r) +:+ ": " +:+ statusText r
              +:+ newline +:+ String.substring 0 500 (text r)).

(** The [try] block of one iteration of [fetchWithRetry]. *)
Definition attempt_once (url : string) : M response :=
  rateLimit ;;
  let* j := draw_jitter in
  (if (j =? 0)%Z then ret tt else sleep j) ;;
  let* res := fetch url in
  if negb (ok res) then
    if (status res >=? 500) || (status res =? 429)%Z
    then throw (retryable_error res)
    else throw (other_error res)
  else ret res.

(** [for (let attempt = 0; attempt <= retries; attempt++)]: [remaining] is
    [retries - attempt], so the source's test [attempt < retries] is
    [remaining <> 0]. *)
Fixpoint retry_loop (url : string) (delayMs : Z) (attempt remaining : nat)
  : M response :=
  try_catch (attempt_once url)
    (fun err =>
       match remaining with
       | S r =>
           sleep (delayMs * 2 ^ Z.of_nat attempt) ;;
           retry_loop url delayMs (S attempt) r
       | O => throw err
       end).

(** [fetchWithRetry(url, init, retries = MAX_RETRIES, delayMs = 800)]. *)
Definition fetchWithRetry (url : string) (retries : nat) (delayMs : Z)
  : M response :=
  retry_loop url delayMs 0 retries.

(** *** The checkpoint document on disk *)

(** [loadMeta()]. *)
Definition loadMeta : M meta :=
  try_catch (readDoc META_PATH) (fun _ => ret ∅).

Definition retry_code (e : error) : bool :=
  match code e with
  | Some c => String.eqb c "EPERM" || String.eqb c "ENOENT"
  | None => false
  end.

(** The [for (let attempt = 0; attempt < 5; attempt++)] loop of
    [safeWriteMetaFile] and what follows it; [remaining] is [5 - attempt]. *)
Fixpoint rename_loop (tmpFile : string) (attempt remaining : nat) : M unit :=
  match remaining with
  | O =>
      warn "Could not safely rename temp meta file after several attempts." ;;
      try_catch (unlink tmpFile) (fun _ => ret tt)
  | S r =>
      try_catch (rename tmpFile META_PATH)
        (fun err =>
           if retry_code err then
             sleep (100 * (Z.of_nat attempt + 1)) ;;
             rename_loop tmpFile (S attempt) r
           else
             console_error ("Failed to save meta: " +:+ message err) ;;
             try_catch (unlink tmpFile) (fun _ => ret tt) ;;
             throw err)
  end.

(** [safeWriteMetaFile(meta)]. *)
Definition safeWriteMetaFile (m : meta) : M unit :=
  let* tag := fresh_tag in
  let tmpFile := META_PATH +:+ ".tmp." +:+ tag in
  writeFile tmpFile m ;;
  rename_loop tmpFile 0 5.

(** [saveMeta(meta)], for the [meta] object of the heap.  The write lock
    only orders the writes of concurrent workers; one worker awaits each
    save before it goes on. *)
Definition saveMeta : M unit :=
  let* m := get_heap in
  try_catch (safeWriteMetaFile m)
    (fun err => console_error ("saveMeta error (continuing): " +:+ message err)).

(** *** The output file *)

(** [appendNdjson(filePath, items)]. *)
Definition appendNdjson (filePath : string) (items : list value) : M unit :=
  match items with
  | [] => ret tt
  | _ =>
      let* t := now in
      let tmp := filePath +:+ "." +:+ pretty t +:+ ".tmp" in
      writeLines tmp items ;;
      let* data := readLines tmp in
      appendLines filePath data ;;
      unlinkLines tmp
  end.

(** [inferFromFromFile(filePath)]: every record is one non-empty line. *)
Definition inferFromFromFile (filePath : string) : M Z :=
  try_catch
    (let* buf := readLines filePath in
     let lines := Z.of_nat (length buf) in
     ret (lines / PAGE_SIZE * PAGE_SIZE))
    (fun _ => ret 0).

(** *** One country and level *)

Definition markUpdatedM (country : string) (level from' pageItems : Z) : M unit :=
  let* t := now in
  modify_entry country level (fun e => markUpdated e from' pageItems t).

Definition markCompleteM (country : string) (level : Z) : M unit :=
  let* t := now in
  modify_entry country level (fun e => markComplete e t).

(** The [while (true)] loop of [fetchAllFor]; [from'] and [seen] are its
    local variables.  The [console.log] lines and the heartbeat
    [noteProgress()] touch neither the files nor the requests and are
    left out. *)
Fixpoint page_loop (fuel : nat) (country : string) (level from' : Z)
  (seen : jsset) : M unit :=
  match fuel with
  | O => diverge
  | S fuel' =>
      let* e := read_entry country level in
      if totalPages e >=? MAX_PAGES_PER_LEVEL then
        warn ("Max pages reached for " +:+ country +:+ " EQF " +:+ pretty level
              +:+ ". Stopping.") ;;
        markCompleteM country level ;;
        saveMeta
      else
        let url := buildUrl country level from' in
        let* res := fetchWithRetry url MAX_RETRIES 800 in
        match parsed res with
        | None =>
            warn ("Non-JSON for " +:+ country +:+ " EQF " +:+ pretty level
                  +:+ " @ from=" +:+ pretty from' +:+ ". Stopping this level.")
        | Some json =>
            let items := extractItems json in
            match items with
            | [] =>
                markCompleteM country level ;;
                saveMeta
            | _ =>
                let '(newItems, seen') := dedup seen items in
                (if SAVE_TO_DISK then appendNdjson (file e) newItems else ret tt) ;;
                let from'' := from' + PAGE_SIZE in
                markUpdatedM country level from'' (Z.of_nat (length newItems)) ;;
                saveMeta ;;
                sleep 150 ;;
                page_loop fuel' country level from'' seen'
            end
        end
  end.

(** [entry.from = x]. *)
Definition set_from (x : Z) (e : entry) : entry :=
  Entry x (completed e) (file e) (lastUpdated e) (totalPages e) (totalItems e).

(** What both resume-time adjustments of [fetchAllFor] do once they
    trigger: [console.warn(msg); from = x; entry.from = x;
    await saveMeta(meta)].  Returns the new local [from]. *)
Definition reset_offset (country : string) (level : Z) (msg : string) (x : Z)
  : M Z :=
  warn msg ;;
  modify_entry country level (set_from x) ;;
  saveMeta ;;
  ret x.

(** "If resuming but file missing, restart level from 0 to avoid gaps."
    Returns the local [from]. *)
Definition restart_if_missing (country : string) (level : Z) (e : entry) : M Z :=
  let from0 := from e in
  try_catch (access (file e) ;; ret from0)
    (fun _ =>
       if from0 >? 0 then
         reset_offset country level
           (file e +:+ " missing but resume 'from'=" +:+ pretty from0
            +:+ ". Restarting level from 0.") 0
       else ret from0).

(** "Align 'from' with NDJSON if mismatch (e.g., after edits or PAGE_SIZE
    change)."  Returns the local [from]. *)
Definition align_with_file (country : string) (level : Z) (e : entry) (from1 : Z)
  : M Z :=
  if from1 >? 0 then
    let* inferred := inferFromFromFile (file e) in
    if negb (inferred =? from1)%Z then
      reset_offset country level
        ("Adjusting resume offset from " +:+ pretty from1 +:+ " -> "
         +:+ pretty inferred +:+ " based on file lines") inferred
    else ret from1
  else ret from1.

(** The part of [fetchAllFor] between [ensureDir] and the loop: the two
    resume-time adjustments of the offset. *)
Definition resume_offset (country : string) (level : Z) (e : entry) : M Z :=
  let* from1 := restart_if_missing country level e in
  align_with_file country level e from1.

(** [fetchAllFor(country, level, meta)]. *)
Definition fetchAllFor (fuel : nat) (country : string) (level : Z) : M entry :=
  let* e := getMetaM country level in
  if completed e then ret e
  else
    mkdir OUT_DIR ;;
    let* from0 := resume_offset country level e in
    page_loop fuel country level from0 [] ;;
    read_entry country level.

(** [processCountry(country, meta)]: the levels in turn, an error of one
    level caught and the checkpoint saved. *)
Fixpoint process_levels (fuel : nat) (country : string) (levels : list Z)
  : M unit :=
  match levels with
  | [] => ret tt
  | lvl :: rest =>
      try_catch (fetchAllFor fuel country lvl ;; ret tt)
        (fun err =>
           console_error ("Error " +:+ country +:+ " EQF " +:+ pretty lvl
                          +:+ ": " +:+ message err) ;;
           saveMeta) ;;
      process_levels fuel country rest
  end.

Definition processCountry (fuel : nat) (country : string) : M unit :=
  process_levels fuel country eqfLevel.

(** The worker that [main] hands to [runPool]:
    [meta = await loadMeta(); await processCountry(c, meta)]. *)
Definition worker (fuel : nat) (country : string) : M unit :=
  let* m := loadMeta in
  set_heap m ;;
  processCountry fuel country.

(** *** The countries of a run and the start of [main] *)

Definition country_code : list string :=
  ["ALA"; "ALB"; "AUT"; "BEL"; "BGR"; "CYP"; "CZE"; "DNK"; "EST"; "FIN"; "FRA";
   "GUF"; "DEU"; "GRC"; "GLP"; "HUN"; "ISL"; "IRL"; "ITA"; "LVA"; "LIE"; "LTU";
   "LUX"; "MLT"; "MTQ"; "MYT"; "MDA"; "MNE"; "NLD"; "MKD"; "NOR"; "POL"; "PRT";
   "REU"; "ROU"; "MAF"; "SRB"; "SVK"; "SVN"; "ESP"; "SWE"; "TUR"; "UKR"].

(** [COUNTRY_FILTER?.length ? country_code.filter(c =>
    COUNTRY_FILTER.includes(c)) : country_code].  The argument is the
    constant [COUNTRY_FILTER]: [None] when the variable COUNTRY is not set,
    else its entries, trimmed, in upper case, the empty ones removed. *)
Definition countries (COUNTRY_FILTER : option (list string)) : list string :=
  match COUNTRY_FILTER with
  | Some (x :: rest) => filter (fun c => c ∈ x :: rest) country_code
  | Some [] | None => country_code
  end.

(** "Initialize meta scaffold for targeted countries":
    [for (const c of countries) for (const lvl of eqfLevel)
       getMeta(meta, c, lvl)]. *)
Definition scaffold (cs : list string) (m : meta) : meta :=
  foldl (fun m1 c => foldl (fun m2 lvl => (getMeta m2 c lvl).2) m1 eqfLevel) m cs.

(** [main] up to the pool: [let meta = await loadMeta()], the scaffold,
    [await saveMeta(meta)]. *)
Definition main_init (cs : list string) : M unit :=
  let* m := loadMeta in
  set_heap (scaffold cs m) ;;
  saveMeta.

(** The final summary of [main] over a loaded document: [totalItems] and
    [completedLevels]. *)
Definition summary (cs : list string) (m : meta) : Z * Z :=
  (foldl (fun acc c =>
            foldl (fun '(ti, cl, m2) lvl =>
                     let '(e, m3) := getMeta m2 c lvl in
                     (ti + totalItems e, if completed e then cl + 1 else cl, m3))
                  acc eqfLevel)
         (0, 0, m) cs).1.

End Bulk.

(* ===================================================================== *)
(** ** The promise pool ([runPool] of src/00save2.js)                     *)
(* ===================================================================== *)

Module Pool.

(** One of the [concurrency] worker functions: suspended at
    [await workerFn(item)], or over (its loop found the queue empty, or
    [workerFn] rejected). *)
Inductive worker (A : Type) : Type :=
| Awaiting (item : A)
| Over.
Arguments Awaiting {A} item.
Arguments Over {A}.

(** The pool between two turns of the event loop: the local [queue], the
    worker functions, and the calls [workerFn(item)] made so far, each with
    the index of its worker. *)
Record pool (A : Type) : Type := Pool {
  queue : list A;
  workers : list (worker A);
  calls : list (nat * A)
}.
Arguments Pool {A}.
Arguments queue {A}.
Arguments workers {A}.
Arguments calls {A}.

Section RunPool.
Context {A : Type}.

(** Worker [i] at the test of its loop:
    [while (queue.length) { const item = queue.shift(); await workerFn(item) }]. *)
Definition enter (i : nat) (p : pool A) : pool A :=
  match queue p with
  | [] => Pool [] (<[i := Over]> (workers p)) (calls p)
  | item :: rest =>
      Pool rest (<[i := Awaiting item]> (workers p)) (calls p ++ [(i, item)])
  end.

(** [const queue = [...items]; const workers = Array.from({ length:
    concurrency }, async () => { ... })]: each worker function runs up to
    its first [await] when it is created. *)
Definition start (items : list A) (concurrency : nat) : pool A :=
  foldl (fun p i => enter i p) (Pool items (replicate concurrency Over) [])
        (seq 0 concurrency).

(** The promise that worker [i] awaits settles: fulfilled, the loop goes
    round; rejected, the worker function ends.  Nothing happens for a worker
    that awaits nothing. *)
Definition settle (p : pool A) (e : nat * bool) : pool A :=
  match workers p !! e.1 with
  | Some (Awaiting _) =>
      if e.2 then enter e.1 p
      else Pool (queue p) (<[e.1 := Over]> (workers p)) (calls p)
  | _ => p
  end.

(** The pool after the settlements [sched], in the order in which the event
    loop delivers them. *)
Definition run (items : list A) (concurrency : nat) (sched : list (nat * bool))
  : pool A :=
  foldl settle (start items concurrency) sched.

(** [await Promise.all(workers)] has every worker function over. *)
Definition drained (p : pool A) : bool :=
  forallb (fun w => match w with Over => true | Awaiting _ => false end) (workers p).

(** The items whose call of [workerFn] is in flight. *)
Definition in_flight (p : pool A) : list A :=
  omap (fun w => match w with Awaiting item => Some item | Over => None end)
       (workers p).

End RunPool.

End Pool.

(* ===================================================================== *)
(** ** The level fetcher (src/unnamed/part_000, [fetch_levels.js])        *)
(* ===================================================================== *)

Module Levels.
Import Js Eff.
#[local] Open Scope string_scope.
#[local] Open Scope eff_scope.

Definition BASE_URL : string :=
  "https://europa.eu/europass/eportfolio/api/qdr/europass/qdr-search/search".
Definition SIZE : Z := 150.
Definition MAX_RETRIES : nat := 6.
Definition INITIAL_BACKOFF_MS : Z := 800.
Definition OUTPUT_DIR : string := "output".

(** [{ lastFrom, totalSaved }]. *)
Record progress : Type := Progress { lastFrom : Z; totalSaved : Z }.

(** The JSON documents of this script: the URI index, the progress
    checkpoint, the regenerated final file. *)
Inductive doc : Type :=
| DIndex (uris : list value)
| DProgress (p : progress)
| DFinal (metadata : progress) (courses : list value).

Abbreviation world := (Eff.world unit doc).
Abbreviation M := (Eff.M (H:=unit) (D:=doc)).

Definition ndjsonPathFor (level : Z) : string :=
  OUTPUT_DIR +:+ "/level" +:+ pretty level +:+ ".ndjson".
Definition jsonPathFor (level : Z) : string :=
  OUTPUT_DIR +:+ "/level" +:+ pretty level +:+ ".json".
Definition progressPathFor (level : Z) : string :=
  OUTPUT_DIR +:+ "/level" +:+ pretty level +:+ ".progress.json".
Definition indexPathFor (level : Z) : string :=
  OUTPUT_DIR +:+ "/level" +:+ pretty level +:+ ".index.json".

(** [URLSearchParams] encodes the space of the sort type as [+] and the
    reserved characters of the level URI as percent escapes. *)
Definition buildUrl (level from' : Z) : string :=
  BASE_URL +:+ "?keywords=&size=" +:+ pretty SIZE +:+ "&from=" +:+ pretty from'
  +:+ "&sortType=publication+date&language=en&type=learning-opportunity"
  +:+ "&eqfLevel=http%3A%2F%2Fdata.europa.eu%2Fsnb%2Feqf%2F" +:+ pretty level
  +:+ "&version=1.8".

(** The value [fetchPageWithRetry] resolves with:
    [{ ok: true, data, status }] or [{ ok: false, error }]. *)
Inductive page_result : Type :=
| PageOk (data : value) (status : Z)
| PageFailed (error : string).

(** [while (attempt < MAX_RETRIES)] of [fetchPageWithRetry]; [remaining] is
    [MAX_RETRIES - attempt].  One round either returns the page or, after
    [attempt++] and the backoff, goes round again. *)
Fixpoint page_retry (url : string) (attempt remaining : nat) : M page_result :=
  match remaining with
  | O => ret (PageFailed ("Failed after " +:+ pretty (Z.of_nat MAX_RETRIES) +:+ " retries"))
  | S r =>
      let backoff := INITIAL_BACKOFF_MS * 2 ^ (Z.of_nat (S attempt) - 1) in
      let* round :=
        try_catch
          (let* res := fetch url in
           if (status res =? 200)%Z then
             match parsed res with
             | Some json => ret (Some (PageOk json (status res)))
             | None => throw (Error None "Unexpected token in JSON")
             end
           else
             warn ("Non-200 (" +:+ pretty (status res) +:+ ") for " +:+ url
                   +:+ ". retry " +:+ pretty (Z.of_nat (S attempt)) +:+ "/"
                   +:+ pretty (Z.of_nat MAX_RETRIES) +:+ " after "
                   +:+ pretty backoff +:+ "ms") ;;
             sleep backoff ;;
             ret None)
          (fun err =>
             warn ("Error fetching " +:+ url +:+ ": " +:+ message err
                   +:+ ". retry " +:+ pretty (Z.of_nat (S attempt)) +:+ "/"
                   +:+ pretty (Z.of_nat MAX_RETRIES) +:+ " after "
                   +:+ pretty backoff +:+ "ms") ;;
             sleep backoff ;;
             ret None) in
      match round with
      | Some result => ret result
      | None => page_retry url (S attempt) r
      end
  end.

(** [fetchPageWithRetry(url)]. *)
Definition fetchPageWithRetry (url : string) : M page_result :=
  page_retry url 0 MAX_RETRIES.

(** [fs.existsSync(path)] never throws. *)
Definition existsDoc (path : string) : M bool :=
  fun w => (Returned (bool_decide (is_Some (docs w !! path))), w).
Definition existsLines (path : string) : M bool :=
  fun w => (Returned (bool_decide (is_Some (ndjson w !! path))), w).

(** [loadIndex(level)]. *)
Definition loadIndex (level : Z) : M jsset :=
  let p := indexPathFor level in
  let* there := existsDoc p in
  if negb there then ret (new_Set [])
  else
    try_catch
      (let* arr := readDoc p in
       ret (new_Set (match arr with DIndex l => l | _ => [] end)))
      (fun _ =>
         warn ("Couldn't parse index for level " +:+ pretty level
               +:+ ", starting fresh.") ;;
         ret (new_Set [])).

(** [saveIndex(level, uriSet)]. *)
Definition saveIndex (level : Z) (uriSet : jsset) : M unit :=
  writeFile (indexPathFor level) (DIndex uriSet).

(** [loadProgress(level)], read as [processLevel] reads it: a document with
    an integer [lastFrom], or nothing. *)
Definition loadProgress (level : Z) : M (option progress) :=
  let p := progressPathFor level in
  let* there := existsDoc p in
  if negb there then ret None
  else
    try_catch
      (let* d := readDoc p in
       ret (match d with DProgress pr => Some pr | _ => None end))
      (fun _ =>
         warn ("Couldn't parse progress for level " +:+ pretty level
               +:+ ", starting fresh.") ;;
         ret None).

(** [saveProgress(level, progressObj)]: one [fs.writeFileSync] on the
    checkpoint file itself. *)
Definition saveProgress (level : Z) (progressObj : progress) : M unit :=
  writeFile (progressPathFor level) (DProgress progressObj).

(** The loop of [appendUniqueCoursesToNdjson]: the courses written and the
    set as the loop leaves it. *)
Fixpoint unique_courses (courses : list value) (uriSet : jsset)
  : list value * jsset :=
  match courses with
  | [] => ([], uriSet)
  | c :: rest =>
      let uri := if truthy c then prop c "uri" else c in
      if negb (truthy uri) then unique_courses rest uriSet
      else if set_has uriSet uri then unique_courses rest uriSet
      else
        let '(written, uriSet') := unique_courses rest (set_add uriSet uri) in
        (c :: written, uriSet')
  end.

(** [appendUniqueCoursesToNdjson(level, courses, uriSet)]: the number
    appended, and [uriSet] as mutated. *)
Definition appendUniqueCoursesToNdjson (level : Z) (courses : list value)
  (uriSet : jsset) : M (Z * jsset) :=
  match courses with
  | [] => ret (0, uriSet)
  | _ =>
      let '(written, uriSet') := unique_courses courses uriSet in
      appendLines (ndjsonPathFor level) written ;;
      ret (Z.of_nat (length written), uriSet')
  end.

(** [regenerateFinalJson(level, lastFrom)]. *)
Definition regenerateFinalJson (level lastFrom' : Z) : M unit :=
  let ndp := ndjsonPathFor level in
  let finalp := jsonPathFor level in
  let* there := existsLines ndp in
  if negb there then writeFile finalp (DFinal (Progress lastFrom' 0) [])
  else
    let* lines := readLines ndp in
    writeFile finalp (DFinal (Progress lastFrom' 0) lines) ;;
    let* parsed := readDoc finalp in
    let count := Z.of_nat (length lines) in
    writeFile finalp
      (DFinal (Progress lastFrom' count)
              (match parsed with DFinal _ cs => cs | _ => [] end)).

(** [Number.isInteger(v)]. *)
Definition isInteger (v : value) : bool :=
  match v with VNum _ => true | _ => false end.

(** [pagination.currentPageNumber >= pagination.totalPageCount], both
    integers. *)
Definition last_page (pagination : value) : bool :=
  truthy pagination &&
  match prop pagination "currentPageNumber", prop pagination "totalPageCount" with
  | VNum cur, VNum total => (cur >=? total)
  | _, _ => false
  end.

(** The [while (true)] loop of [processLevel]; [from'], [totalSaved'] and
    [uriSet] are its local variables. *)
Fixpoint level_loop (fuel : nat) (level from' totalSaved' : Z) (uriSet : jsset)
  : M Z :=
  match fuel with
  | O => diverge
  | S fuel' =>
      let url := buildUrl level from' in
      let* result := fetchPageWithRetry url in
      match result with
      | PageFailed err =>
          console_error ("Failed to fetch page for level " +:+ pretty level
                         +:+ " from=" +:+ pretty from' +:+ ": " +:+ err) ;;
          saveProgress level (Progress (Z.max 0 (from' - SIZE)) totalSaved') ;;
          saveIndex level uriSet ;;
          ret totalSaved'
      | PageOk data _ =>
          if nullish data then
            throw (Error None "Cannot read properties of null (reading 'courses')")
          else
            match prop data "courses" with
            | VArr [] =>
                let lastFrom' := Z.max 0 (from' - SIZE) in
                regenerateFinalJson level lastFrom' ;;
                saveProgress level (Progress lastFrom' totalSaved') ;;
                saveIndex level uriSet ;;
                ret totalSaved'
            | VArr courses =>
                let pagination := coalesce (prop data "paginationInfos") VNull in
                let* (appended, uriSet') :=
                  appendUniqueCoursesToNdjson level courses uriSet in
                let totalSaved'' := totalSaved' + appended in
                saveIndex level uriSet' ;;
                saveProgress level (Progress from' totalSaved'') ;;
                regenerateFinalJson level from' ;;
                if last_page pagination then
                  regenerateFinalJson level from' ;;
                  saveProgress level (Progress from' totalSaved'') ;;
                  saveIndex level uriSet' ;;
                  ret totalSaved''
                else level_loop fuel' level (from' + SIZE) totalSaved'' uriSet'
            | _ =>
                warn ("Unexpected response format at from=" +:+ pretty from'
                      +:+ " for level " +:+ pretty level
                      +:+ ". Aborting this level.") ;;
                saveProgress level (Progress from' totalSaved') ;;
                saveIndex level uriSet ;;
                ret totalSaved'
            end
      end
  end.

(** [processLevel(level)]; the result is the final [totalSaved]. *)
Definition processLevel (fuel : nat) (level : Z) : M Z :=
  let* uriSet := loadIndex level in
  let* prog := loadProgress level in
  let '(from0, totalSaved0) :=
    match prog with
    | Some p => (lastFrom p + SIZE, totalSaved p)
    | None => (0, set_size uriSet)
    end in
  level_loop fuel level from0 totalSaved0 uriSet.

(** The loop of [main]: each level under its own [try]/[catch]. *)
Fixpoint main_loop (fuel : nat) (levels : list Z) : M unit :=
  match levels with
  | [] => ret tt
  | level :: rest =>
      try_catch (processLevel fuel level ;; ret tt)
        (fun err =>
           console_error ("Unexpected error processing level " +:+ pretty level
                          +:+ ": " +:+ message err)) ;;
      main_loop fuel rest
  end.

(** [main()]: [for (let level = 1; level <= 8; level++)]. *)
Definition main (fuel : nat) : M unit :=
  main_loop fuel [1; 2; 3; 4; 5; 6; 7; 8].

End Levels.

(* ===================================================================== *)
(** ** The detail fetcher (src/02fetchCountries.js)                       *)
(* ===================================================================== *)

Module Details.
Import Js Eff.
#[local] Open Scope string_scope.
#[local] Open Scope eff_scope.

Definition OUT_BASE : string := "qualificationData".
Definition META_DIR : string := "meta".
Definition CONCURRENCY : Z := 100.
Definition MAX_RETRIES : nat := 3.
Definition MAX_RPS : Z := 20.

(** The per-country checkpoint. *)
Record country_meta : Type := CountryMeta {
  country : string;
  lastLine : Z;
  attempted : Z;
  succeeded : Z;
  failed : Z;
  skippedExisting : Z;
  lastUpdated : option Z
}.

(** The JSON documents of this script: checkpoints and fetched details. *)
Inductive doc : Type :=
| DMeta (m : country_meta)
| DData (v : value).

(** The variables [processCountryFile] shares with its tasks.  The ring
    buffers of the last successes and failures only feed the milestone
    log and are left out. *)
Record vars : Type := Vars {
  meta : country_meta;
  dirty : bool;
  lastLoggedSuccess : Z;
  lastLoggedFail : Z
}.

Abbreviation world := (Eff.world vars doc).
Abbreviation M := (Eff.M (H:=vars) (D:=doc)).

(** [pushRing(arr, item, cap = 100)]: the array as the call leaves it. *)
Definition pushRing {A} (arr : list A) (item : A) (cap : nat) : list A :=
  let arr' := (arr ++ [item])%list in
  if (cap <? length arr')%nat then tail arr' else arr'.

(** A line of an input file as [readNdjsonWithLineNumbers] tells them
    apart: empty once trimmed, not parseable, or a JSON value. *)
Inductive raw_line : Type :=
| Blank
| Garbled
| Json (v : value).

(** The loop of [readNdjsonWithLineNumbers]; [lineNo] is its counter, the
    result what it yields, in order ([obj] is [null] for a line that does
    not parse). *)
Fixpoint read_lines (lineNo startLineExclusive : Z) (lines : list raw_line)
  : list (Z * value) :=
  match lines with
  | [] => []
  | line :: rest =>
      let lineNo' := lineNo + 1 in
      if (lineNo' <=? startLineExclusive)%Z
      then read_lines lineNo' startLineExclusive rest
      else
        match line with
        | Blank => read_lines lineNo' startLineExclusive rest
        | Garbled => (lineNo', VNull) :: read_lines lineNo' startLineExclusive rest
        | Json v => (lineNo', v) :: read_lines lineNo' startLineExclusive rest
        end
  end.

(** [readNdjsonWithLineNumbers(filePath, startLineExclusive = 0)], for the
    lines of the file. *)
Definition readNdjsonWithLineNumbers (lines : list raw_line)
  (startLineExclusive : Z) : list (Z * value) :=
  read_lines 0 startLineExclusive lines.

(** [String(v)] for a primitive; an array joins its elements, an object
    prints as a fixed text. *)
Fixpoint to_string (v : value) : string :=
  match v with
  | VUndefined => "undefined"
  | VNull => "null"
  | VBool true => "true"
  | VBool false => "false"
  | VNum n => pretty n
  | VStr s => s
  | VArr l =>
      (fix join (l : list value) : string :=
         match l with
         | [] => ""
         | [x] => if nullish x then "" else to_string x
         | x :: rest => (if nullish x then "" else to_string x) +:+ "," +:+ join rest
         end) l
  | VObj _ => "[object Object]"
  end.

(** [s.split("/")]. *)
Fixpoint split_slash (s : string) : list string :=
  match s with
  | EmptyString => [""]
  | String c rest =>
      if Ascii.eqb c (Ascii.ascii_of_nat 47) then "" :: split_slash rest
      else match split_slash rest with
           | seg :: segs => String c seg :: segs
           | [] => [String c ""]
           end
  end.

(** [parts.filter(Boolean)] on strings. *)
Definition nonempty (parts : list string) : list string :=
  filter (fun p => p <> "") parts.

(** The match of [/([^/]+)\/?$/] in [s]: the last segment, one trailing
    slash apart, when it is not empty. *)
Definition last_segment (s : string) : option string :=
  match reverse (split_slash s) with
  | "" :: seg :: _ => if String.eqb seg "" then None else Some seg
  | seg :: _ => if String.eqb seg "" then None else Some seg
  | [] => None
  end.

Section ParseId.
(** [new URL(uri).pathname], [None] when the constructor throws. *)
Variable pathname_of : string -> option string.

(** [parseIdFromUri(uri)]; [None] is [null]. *)
Definition parseIdFromUri (uri : value) : option string :=
  match pathname_of (to_string uri) with
  | Some pathname =>
      match last (nonempty (split_slash pathname)) with
      | Some p => if String.eqb p "" then None else Some p
      | None => None
      end
  | None => last_segment (to_string uri)
  end.
End ParseId.

(** *** The retry executor *)

Definition retryable_error (r : response) : error :=
  Error None ("HTTP " +:+ pretty (status r)).

Definition other_error (r : response) : error :=
  Error None ("HTTP " +:+ pretty (status r) +:+ ": " +:+ statusText r
              +:+ " " +:+ String.substring 0 200 (text r)).

(** The [try] block of one iteration of [fetchWithRetry]. *)
Definition attempt_once (url : string) : M value :=
  rateLimit ;;
  let* res := fetch url in
  if negb (ok res) then
    if (status res >=? 500) || (status res =? 429)%Z
    then throw (retryable_error res)
    else throw (other_error res)
  else if jsonType res then
    match parsed res with
    | Some json => ret json
    | None => throw (Error None "Unexpected token in JSON")
    end
  else
    match parsed res with
    | Some json => ret json
    | None => ret (VObj [("_raw", VStr (text res))])
    end.

(** [for (let attempt = 0; attempt <= retries; attempt++)]; [remaining] is
    [retries - attempt]. *)
Fixpoint retry_loop (url : string) (attempt remaining : nat) : M value :=
  try_catch (attempt_once url)
    (fun err =>
       match remaining with
       | S r =>
           sleep (400 * 2 ^ Z.of_nat attempt) ;;
           retry_loop url (S attempt) r
       | O => throw err
       end).

(** [fetchWithRetry(url, retries = MAX_RETRIES)]. *)
Definition fetchWithRetry (url : string) (retries : nat) : M value :=
  retry_loop url 0 retries.

(** *** The checkpoint on disk *)

Definition metaPathFor (c : string) : string :=
  META_DIR +:+ "/" +:+ c +:+ "_meta.json".

(** [loadCountryMeta(country)]. *)
Definition loadCountryMeta (c : string) : M (string * country_meta) :=
  mkdir META_DIR ;;
  let metaPath := metaPathFor c in
  try_catch
    (let* d := readDoc metaPath in
     match d with
     | DMeta m => ret (metaPath, m)
     | DData _ => throw (Error None "not a checkpoint")
     end)
    (fun _ => ret (metaPath, CountryMeta c 0 0 0 0 0 None)).

(** [for (let i = 0; i < 5; i++)] of [saveCountryMeta] and the [unlink]
    after it; [remaining] is [5 - i]. *)
Fixpoint rename_loop (tmp metaPath : string) (i remaining : nat) : M unit :=
  match remaining with
  | O => try_catch (unlink tmp) (fun _ => ret tt)
  | S r =>
      try_catch (rename tmp metaPath)
        (fun _ =>
           sleep (100 * (Z.of_nat i + 1)) ;;
           rename_loop tmp metaPath (S i) r)
  end.

(** [saveCountryMeta(metaPath, meta)]. *)
Definition saveCountryMeta (metaPath : string) (m : country_meta) : M unit :=
  let* tag := fresh_tag in
  let tmp := metaPath +:+ ".tmp." +:+ tag in
  writeFile tmp (DMeta m) ;;
  rename_loop tmp metaPath 0 5.

(** *** One input line *)

Definition modify_meta (f : country_meta -> country_meta) : M unit :=
  let* v := get_heap in
  set_heap (Vars (f (meta v)) (dirty v) (lastLoggedSuccess v) (lastLoggedFail v)).

Definition set_dirty (b : bool) : M unit :=
  let* v := get_heap in
  set_heap (Vars (meta v) b (lastLoggedSuccess v) (lastLoggedFail v)).

Definition stamp : M unit :=
  let* t := now in
  modify_meta (fun m => CountryMeta (country m) (lastLine m) (attempted m)
                          (succeeded m) (failed m) (skippedExisting m) (Some t)).

(** [milestoneReached(current, lastLogged)]. *)
Definition milestoneReached (current lastLogged : Z) : bool :=
  (current / 100 >? lastLogged / 100).

(** [meta.failed++] and the failure milestone that follows it. *)
Definition count_failure (metaPath : string) : M unit :=
  modify_meta (fun m => CountryMeta (country m) (lastLine m) (attempted m)
                          (succeeded m) (failed m + 1) (skippedExisting m)
                          (lastUpdated m)) ;;
  let* v := get_heap in
  if milestoneReached (failed (meta v)) (lastLoggedFail v) then
    set_heap (Vars (meta v) (dirty v) (lastLoggedSuccess v) (failed (meta v))) ;;
    stamp ;;
    let* v' := get_heap in
    saveCountryMeta metaPath (meta v') ;;
    set_dirty false
  else ret tt.

(** [meta.succeeded++] and the success milestone that follows it. *)
Definition count_success (metaPath : string) : M unit :=
  modify_meta (fun m => CountryMeta (country m) (lastLine m) (attempted m)
                          (succeeded m + 1) (failed m) (skippedExisting m)
                          (lastUpdated m)) ;;
  let* v := get_heap in
  if milestoneReached (succeeded (meta v)) (lastLoggedSuccess v) then
    set_heap (Vars (meta v) (dirty v) (succeeded (meta v)) (lastLoggedFail v)) ;;
    stamp ;;
    let* v' := get_heap in
    saveCountryMeta metaPath (meta v') ;;
    set_dirty false
  else ret tt.

(** What the loop of [processCountryFile] does with one line before it
    goes on to the next. *)
Inductive line_action : Type :=
| Rejected (err : string)
| SkippedExisting
| Submitted (uri : value) (id outPath : string).

Section Line.
Variable pathname_of : string -> option string.

(** The body of [for await (const { lineNo, obj } of ...)] up to
    [submit(task)]. *)
Definition line_step (metaPath outDir : string) (lineNo : Z) (obj : value)
  : M line_action :=
  modify_meta (fun m => CountryMeta (country m) lineNo (attempted m)
                          (succeeded m) (failed m) (skippedExisting m)
                          (lastUpdated m)) ;;
  set_dirty true ;;
  let uri := prop obj "uri" in
  if negb (truthy uri) then count_failure metaPath ;; ret (Rejected "no uri")
  else
    match parseIdFromUri pathname_of uri with
    | None => count_failure metaPath ;; ret (Rejected "bad id")
    | Some id =>
        let outPath := outDir +:+ "/" +:+ id +:+ ".json" in
        fun w =>
          if bool_decide (is_Some (docs w !! outPath)) then
            (modify_meta (fun m => CountryMeta (country m) (lastLine m)
                                     (attempted m) (succeeded m) (failed m)
                                     (skippedExisting m + 1) (lastUpdated m)) ;;
             ret SkippedExisting) w
          else (Returned (Submitted uri id outPath), w)
    end.
End Line.

(** One [task], run to its end: the fetch, the write of the document, the
    counters. *)
Definition task (metaPath : string) (uri : value) (outPath : string) : M unit :=
  try_finally
    (try_catch
       (modify_meta (fun m => CountryMeta (country m) (lastLine m)
                                (attempted m + 1) (succeeded m) (failed m)
                                (skippedExisting m) (lastUpdated m)) ;;
        let* data := fetchWithRetry (to_string uri) MAX_RETRIES in
        writeFile outPath (DData data) ;;
        count_success metaPath)
       (fun _ => count_failure metaPath))
    (set_dirty true).

End Details.

(* ===================================================================== *)
(** ** The token bucket ([rateLimit] of src/00save2.js and
       src/02fetchCountries.js)                                           *)
(* ===================================================================== *)

Module Limiter.

(** What the event loop runs that touches [tokens]: the [setInterval]
    callback, or one evaluation by a worker of the test of
    [while (tokens <= 0) await sleep(..)] (a worker whose test fails sleeps
    and polls again later).  JavaScript runs each to its end before the
    next, so a schedule is a sequence; each step carries its time in ms. *)
Inductive step : Type :=
| Refill
| Poll (worker : nat).

Section Bucket.
(** [MAX_RPS]: 3 in the bulk fetcher, 20 in the detail fetcher. *)
Variable MAX_RPS : Z.

(** [tokens = Math.min(tokens + MAX_RPS, MAX_RPS)]. *)
Definition refill (tokens : Z) : Z := Z.min (tokens + MAX_RPS) MAX_RPS.

(** The tokens granted under a schedule, each with its time and worker:
    a poll that finds [tokens <= 0] is granted nothing, any other poll
    takes one token ([tokens--]) and lets its worker go on to its
    request. *)
Fixpoint run (tokens : Z) (sched : list (Z * step)) : list (Z * nat) :=
  match sched with
  | [] => []
  | (_, Refill) :: rest => run (refill tokens) rest
  | (t, Poll w) :: rest =>
      if tokens <=? 0 then run tokens rest
      else (t, w) :: run (tokens - 1) rest
  end.

(** The variable [tokens] after a schedule. *)
Fixpoint tokens_after (tokens : Z) (sched : list (Z * step)) : Z :=
  match sched with
  | [] => tokens
  | (_, Refill) :: rest => tokens_after (refill tokens) rest
  | (_, Poll _) :: rest =>
      if tokens <=? 0 then tokens_after tokens rest
      else tokens_after (tokens - 1) rest
  end.

(** The window of one second that starts at [t0]. *)
Definition in_window (t0 t : Z) : bool := (t0 <=? t) && (t <? t0 + 1000).

(** The number of tokens granted in the window that starts at [t0]: the
    requests that the limiter releases in it. *)
Definition released_in (t0 : Z) (tokens : Z) (sched : list (Z * step)) : Z :=
  Z.of_nat (length (filter (fun r => in_window t0 r.1 = true) (run tokens sched))).

(** The requests as they leave.  The detail fetcher calls [fetch] as soon
    as [rateLimit()] returns; the bulk fetcher sleeps first
    ([const jitter = Math.random() * 150; if (jitter) await sleep(jitter)]).
    [delay k] is the sleep after the k-th grant. *)
Fixpoint departures (delay : nat -> Z) (grants : list (Z * nat)) : list (Z * nat) :=
  match grants with
  | [] => []
  | (t, w) :: rest => (t + delay 0%nat, w) :: departures (fun k => delay (S k)) rest
  end.

(** The number of requests that leave in the window that starts at [t0]. *)
Definition sent_in (t0 : Z) (delay : nat -> Z) (tokens : Z)
  (sched : list (Z * step)) : Z :=
  Z.of_nat (length (filter (fun r => in_window t0 r.1 = true)
                           (departures delay (run tokens sched)))).

(** [Math.random() * 150] is below 150: the longest sleep between a grant
    and its request in the bulk fetcher, in ms. *)
Definition JITTER_MS : Z := 150.

(** The times of the refills of a schedule. *)
Definition refill_times (sched : list (Z * step)) : list Z :=
  omap (fun e => match e.2 with Refill => Some e.1 | Poll _ => None end) sched.

End Bucket.

(** A schedule in time order whose refills are at least one timer period
    apart. *)
Definition timed (sched : list (Z * step)) : Prop :=
  StronglySorted (fun a b => a.1 <= b.1) sched /\
  StronglySorted (fun a b => a + 1000 <= b) (refill_times sched).

End Limiter.

(* ===================================================================== *)
(** ** The specification's wording, where it is compared with the code   *)
(* ===================================================================== *)

Module Spec.
Import Js Eff.
#[local] Open Scope string_scope.
#[local] Open Scope list_scope.

(** The identifier as the specification words it: the fields id, uuid,
    identifier, uri in that order, and no other. *)
Definition getItemId (it : value) : value :=
  coalesce (coalesce (coalesce (coalesce
    (prop it "id") (prop it "uuid")) (prop it "identifier"))
    (prop it "uri")) VNull.

(** The retry executor "returned immediately": between [w] and [w'] it
    issued one request and slept no backoff. *)
Definition returned_immediately {H D} (w w' : world H D) : bool :=
  Nat.eqb (reqs w') (S (reqs w))
  && Nat.eqb (length (sleeps (log w'))) (length (sleeps (log w))).

(** An atomic save of [c] at [target], run from [w] with result [r]: it
    ends; it first writes a temp file beside the target; it does at most
    seven file operations (the write, five renames, the unlink); and the
    target then holds [c], put there by one rename, or what it held. *)
Definition atomic_save {H D} (target : string) (c : content D)
  (w : world H D) (r : outcome unit * world H D) : Prop :=
  r.1 <> Diverged /\
  (ios r.2 <= ios w + 7)%nat /\
  exists new,
    log r.2 = log w ++ new
    /\ head (written_paths new) = Some (target +:+ ".tmp." +:+ tmptag w (ios w))
    /\ ((docs r.2 !! target = Some c /\ renamed_onto target new = [c]) \/
        (docs r.2 !! target = docs w !! target /\ renamed_onto target new = [])).

(** The source returns the page [items] for a scope at offset [from']:
    every request for that offset is answered by an ok response whose body
    parses to a document that holds these items. *)
Definition serves (w : Bulk.world) (country : string) (level from' : Z)
  (items : list value) : Prop :=
  exists res json,
    (forall n, net w n (Bulk.buildUrl country level from') = Responds res)
    /\ ok res = true /\ parsed res = Some json
    /\ Bulk.extractItems json = items.

End Spec.

(* ===================================================================== *)
(** ** Concrete worlds                                                    *)
(* ===================================================================== *)

Module Scenario.
Import Js Eff.
#[local] Open Scope string_scope.

Definition url : string := "https://europa.eu/x".

(** A server that answers every request with the same response. *)
Definition always (r : response) : nat -> string -> fetch_outcome :=
  fun _ _ => Responds r.

Definition not_found : response :=
  Response 404 "Not Found" "no such resource" None false.
Definition unavailable : response :=
  Response 503 "Service Unavailable" "" None false.

(** An empty world around a server, with a file system that fails as
    [faults] says. *)
Definition world_of {H D} (h : H) (faults : nat -> option string)
  (net : nat -> string -> fetch_outcome) : world H D :=
  World h ∅ ∅ 0 faults 0 net (fun _ => 0) (fun n => pretty (Z.of_nat n)) 0 [].

Definition healthy : nat -> option string := fun _ => None.

(** The write succeeds, the five renames that follow fail with EPERM. *)
Definition locked : nat -> option string :=
  fun n => if (Nat.leb 1 n && Nat.leb n 5)%bool then Some "EPERM" else None.

(** The first file operation fails. *)
Definition disk_full : nat -> option string :=
  fun n => match n with O => Some "ENOSPC" | S _ => None end.

Definition bulk_404 : Bulk.world := world_of ∅ healthy (always not_found).
Definition bulk_locked : Bulk.world := world_of ∅ locked (always not_found).

Definition details_vars : Details.vars :=
  Details.Vars (Details.CountryMeta "DEU" 0 0 0 0 0 None) false 0 0.
Definition details_404 : Details.world :=
  world_of details_vars healthy (always not_found).

Definition levels_404 : Levels.world := world_of tt healthy (always not_found).
Definition levels_503 : Levels.world := world_of tt healthy (always unavailable).

(** A level whose progress checkpoint is on disk, on a disk that fails the
    next write. *)
Definition levels_disk_full : Levels.world :=
  World tt {[ Levels.progressPathFor 1 := Doc (Levels.DProgress (Levels.Progress 150 40)) ]}
        ∅ 0 disk_full 0 (always not_found) (fun _ => 0)
        (fun n => pretty (Z.of_nat n)) 0 [].

(** A search result with the identifier ["q<n>"]. *)
Definition item (n : Z) : value := VObj [("id", VStr ("q" +:+ pretty n))].


Definition page (items : list value) : response :=
  Response 200 "OK" "" (Some (VObj [("items", VArr items)])) true.

(** A server that answers by URL, with the empty page for any other URL. *)
Fixpoint paged (pages : list (string * list value)) (n : nat) (u : string)
  : fetch_outcome :=
  match pages with
  | [] => Responds (page [])
  | (u', items) :: rest =>
      if String.eqb u u' then Responds (page items) else paged rest n u
  end.

Definition page1 : list value := map item [0; 1; 2; 3; 4; 5; 6; 7; 8; 9].
Definition page2 : list value := map item [10; 11; 12; 13; 14; 15; 16; 17; 18; 19].
Definition page3 : list value := map item [20; 21; 22; 23; 24].

(** Scenario 1 of the specification: pages of 10, 10, 5 and 0 items. *)
Definition bulk_pages : Bulk.world :=
  world_of ∅ healthy
    (paged [ (Bulk.buildUrl "DEU" 3 0, page1);
             (Bulk.buildUrl "DEU" 3 10, page2);
             (Bulk.buildUrl "DEU" 3 20, page3) ]).



(** A checkpoint document that records offset 20 for DEU, level 3. *)
Definition doc_at_20 : Bulk.meta :=
  {[ "DEU" := {[ 3 := Bulk.Entry 20 false (Bulk.level_file "DEU" 3) None 2 20 ]} ]}.

(** A resumed scope whose output file is missing. *)
Definition bulk_file_missing : Bulk.world :=
  World doc_at_20 {[ Bulk.META_PATH := Doc doc_at_20 ]} ∅ 0 healthy 0 (paged [])
        (fun _ => 0) (fun n => pretty (Z.of_nat n)) 0 [].

(** A resumed scope whose output file has five lines. *)
Definition bulk_file_short : Bulk.world :=
  World doc_at_20 {[ Bulk.META_PATH := Doc doc_at_20 ]}
        {[ Bulk.level_file "DEU" 3 := page3 ]} 0 healthy 0 (paged [])
        (fun _ => 0) (fun n => pretty (Z.of_nat n)) 0 [].

(** A response whose body is not JSON. *)
Definition garbled : response := Response 200 "OK" "<html>" None false.

(** A source with one record for DEU, level 3, that answers the second
    page with a body that is not JSON; every other scope is empty. *)
Definition single_then_garbled (n : nat) (u : string) : fetch_outcome :=
  if String.eqb u (Bulk.buildUrl "DEU" 3 0) then Responds (page [item 1])
  else if String.eqb u (Bulk.buildUrl "DEU" 3 10) then Responds garbled
  else Responds (page []).

Definition bulk_cold : Bulk.world := world_of ∅ healthy single_then_garbled.

(** The state a first run of the worker for DEU leaves, and the state a
    second run leaves after it. *)
Definition after_first_run : Bulk.world := (Bulk.worker 5 "DEU" bulk_cold).2.
Definition after_second_run : Bulk.world := (Bulk.worker 5 "DEU" after_first_run).2.

(** A course of the level fetcher. *)
Definition course (u : string) : value := VObj [("uri", VStr u)].

(** A level whose index of an earlier run holds the URI u1, and a server
    whose only page holds u1 and u2. *)
Definition levels_indexed : Levels.world :=
  World tt {[ Levels.indexPathFor 1 := Doc (Levels.DIndex [VStr "u1"]) ]}
        {[ Levels.ndjsonPathFor 1 := [course "u1"] ]} 0 healthy 0
        (always (Response 200 "OK" ""
                   (Some (VObj [("courses", VArr [course "u1"; course "u2"]);
                                ("paginationInfos",
                                 VObj [("currentPageNumber", VNum 1);
                                       ("totalPageCount", VNum 1)])]))
                   true))
        (fun _ => 0) (fun n => pretty (Z.of_nat n)) 0 [].

(** A detail fetcher that already has the document of the identifier abc. *)
Definition details_fetched : Details.world :=
  World details_vars {[ "qualificationData/DEU/abc.json" := Doc (Details.DData VNull) ]}
        ∅ 0 healthy 0 (always not_found) (fun _ => 0)
        (fun n => pretty (Z.of_nat n)) 0 [].

(** A URL parser that rejects every string (the fallback pattern of
    [parseIdFromUri] then finds the identifier). *)
Definition no_url : string -> option string := fun _ => None.

(** A schedule of the bulk fetcher's bucket ([MAX_RPS] = 3) with ten
    workers polling: the three tokens of the refill at 1000 ms are taken at
    1040 ms, those of the refill at 2000 ms at 2010 ms. *)
Definition burst : list (Z * Limiter.step) :=
  [ (1000, Limiter.Refill);
    (1040, Limiter.Poll 0); (1040, Limiter.Poll 1); (1040, Limiter.Poll 2);
    (1045, Limiter.Poll 3);
    (2000, Limiter.Refill);
    (2010, Limiter.Poll 3); (2010, Limiter.Poll 4); (2010, Limiter.Poll 5);
    (2015, Limiter.Poll 6) ].

(** A server that is unavailable for the first two requests and then
    serves a page of one item. *)
Definition flaky (n : nat) (u : string) : fetch_outcome :=
  if (n <? 2)%nat then Responds unavailable else Responds (page [item 1]).

Definition bulk_flaky : Bulk.world := world_of ∅ healthy flaky.
Definition details_flaky : Details.world := world_of details_vars healthy flaky.

(** A server whose first request is rejected, whose second answer has
    status 200 and a body that is not JSON, and that then serves a page. *)
Definition stumbling (n : nat) (u : string) : fetch_outcome :=
  match n with
  | O => Rejects (Error None "fetch failed")
  | S O => Responds garbled
  | _ => Responds (page [item 1])
  end.
Definition levels_stumbling : Levels.world := world_of tt healthy stumbling.

(** Bodies that are not JSON, announced as JSON or as text. *)
Definition bad_json : response := Response 200 "OK" "<html>" None true.
Definition details_bad_json : Details.world :=
  world_of details_vars healthy (always bad_json).
Definition details_text : Details.world :=
  world_of details_vars healthy (always garbled).

(** A checkpoint document in which every level of DEU is completed. *)
Definition doc_done : Bulk.meta :=
  {[ "DEU" := list_to_map
                (map (fun l => (l, Bulk.Entry 30 true (Bulk.level_file "DEU" l)
                                     (Some 0) 3 25))
                     Bulk.eqfLevel) ]}.
Definition bulk_done : Bulk.world :=
  World doc_done {[ Bulk.META_PATH := Doc doc_done ]} ∅ 0 healthy 0
        (always not_found) (fun _ => 0) (fun n => pretty (Z.of_nat n)) 0 [].

(** A server whose bodies are not JSON, and one whose bodies are the JSON
    value [null]. *)
Definition bulk_garbled : Bulk.world := world_of ∅ healthy (always garbled).
Definition null_body : response := Response 200 "OK" "null" (Some VNull) true.
Definition bulk_null : Bulk.world := world_of ∅ healthy (always null_body).

(** A disk on which the third file operation fails. *)
Definition third_fails : nat -> option string :=
  fun n => match n with S (S O) => Some "ENOSPC" | _ => None end.
Definition bulk_append_fails : Bulk.world :=
  world_of ∅ third_fails (always not_found).

(** A run that finds the checkpoint of an earlier run on disk. *)
Definition bulk_resumed : Bulk.world :=
  World ∅ {[ Bulk.META_PATH := Doc doc_at_20 ]} ∅ 0 healthy 0 (paged [])
        (fun _ => 0) (fun n => pretty (Z.of_nat n)) 0 [].

(** A level with three lines in its record file. *)
Definition levels_three_lines : Levels.world :=
  World tt ∅ {[ Levels.ndjsonPathFor 1 := [course "u1"; course "u2"; course "u3"] ]}
        0 healthy 0 (always not_found) (fun _ => 0) (fun n => pretty (Z.of_nat n)) 0 [].

(** A server that answers every request with the same page of one course
    and never says which page is the last. *)
Definition endless : response :=
  Response 200 "OK" "" (Some (VObj [("courses", VArr [course "u1"])])) true.
Definition levels_endless : Levels.world := world_of tt healthy (always endless).

(** An input file of the detail fetcher: a record, an empty line, a line
    that does not parse, a record. *)
Definition four_lines : list Details.raw_line :=
  [Details.Json (VNum 1); Details.Blank; Details.Garbled; Details.Json (VNum 4)].







(** A schedule of the bulk fetcher's bucket: the three tokens of the first
    period are taken at 990 ms, those of the refill at 1000 ms at 1001 ms,
    those of the refill at 2000 ms at once. *)
Definition squeezed : list (Z * Limiter.step) :=
  [ (990, Limiter.Poll 0); (990, Limiter.Poll 1); (990, Limiter.Poll 2);
    (1000, Limiter.Refill);
    (1001, Limiter.Poll 3); (1001, Limiter.Poll 4); (1001, Limiter.Poll 5);
    (2000, Limiter.Refill);
    (2000, Limiter.Poll 6); (2000, Limiter.Poll 7); (2000, Limiter.Poll 8) ].

(** The sleeps before the requests: 149 ms for the first three, none for
    the others. *)
Definition held_back (k : nat) : Z := if (k <? 3)%nat then 149 else 0.

End Scenario.

(* ===================================================================== *)
(** ** Observations on runs                                               *)
(* ===================================================================== *)

Section Observations.
Import Js Eff Limiter.
#[local] Open Scope string_scope.
#[local] Open Scope list_scope.
#[local] Open Scope Z_scope.

(** The n-th request to [url] is answered by a failure the bulk and the
    detail executors retry: a rejection, or a response that is not ok. *)
Definition fails {H D} (w : world H D) (url : string) (n : nat) : Prop :=
  match net w n url with
  | Rejects _ => True
  | Responds r => ok r = false
  end.

(** The error the bulk executor makes of a failed answer. *)
Definition bulk_error (o : fetch_outcome) : error :=
  match o with
  | Rejects e => e
  | Responds r =>
      if (status r >=? 500) || (status r =? 429)
      then Bulk.retryable_error r else Bulk.other_error r
  end.

(** What one attempt of the bulk executor leaves in the log when it is the
    n-th request of the run. *)
Definition bulk_attempt_log {H D} (w : world H D) (url : string) (n : nat)
  : list (event D) :=
  [EvAcquire] ++ (if jitter w n =? 0 then [] else [EvSleep (jitter w n)])
  ++ [EvFetch url].

(** The log of a run of the bulk executor in which every attempt fails. *)
Fixpoint bulk_failing_log {H D} (w : world H D) (url : string) (delayMs : Z)
  (attempt remaining n : nat) : list (event D) :=
  bulk_attempt_log w url n ++
  match remaining with
  | O => []
  | S r =>
      EvSleep (delayMs * 2 ^ Z.of_nat attempt)
      :: bulk_failing_log w url delayMs (S attempt) r (S n)
  end.

(** The parts of the world the network does not touch. *)
Definition same_store {H D} (w w' : world H D) : Prop :=
  heap w' = heap w /\ docs w' = docs w /\ ndjson w' = ndjson w /\
  ios w' = ios w /\ faults w' = faults w /\ net w' = net w /\
  jitter w' = jitter w /\ tmptag w' = tmptag w.

(** The error the detail executor makes of a failed answer. *)
Definition details_error (o : fetch_outcome) : error :=
  match o with
  | Rejects e => e
  | Responds r =>
      if (status r >=? 500) || (status r =? 429)
      then Details.retryable_error r else Details.other_error r
  end.

(** The n-th request to [url] is answered by a failure the level executor
    retries: a rejection, or a status other than 200. *)
Definition fails200 {H D} (w : world H D) (url : string) (n : nat) : Prop :=
  match net w n url with
  | Rejects _ => True
  | Responds r => (status r =? 200) = false
  end.

(** The parts of the world that operations on document files leave alone. *)
Definition same_env {H D} (w w' : world H D) : Prop :=
  heap w' = heap w /\ ndjson w' = ndjson w /\ faults w' = faults w /\
  net w' = net w /\ reqs w' = reqs w /\ jitter w' = jitter w /\
  tmptag w' = tmptag w.

(** What a save of the document [c] through the temp file [tmp] can do to
    [target]: put [c] there by one rename, or leave it as it was. *)
Definition installs_or_keeps {H D} (target : string) (c : content D)
  (w w1 : world H D) (new : list (event D)) : Prop :=
  (docs w1 !! target = Some c /\ renamed_onto target new = [c]) \/
  (docs w1 !! target = docs w !! target /\ renamed_onto target new = []).

(** A file system without faults. *)
Definition no_faults {H D} (w : world H D) : Prop := forall n, faults w n = None.

(** An operation that leaves the record files alone. *)
Definition keeps_lines {H D A} (op : M (H:=H) (D:=D) A) : Prop :=
  forall w, ndjson (op w).2 = ndjson w.

(** The URI under which the level fetcher remembers a course
    ([c && c.uri]). *)
Definition uri_of (c : value) : value := if truthy c then prop c "uri" else c.



(** The releases of a run that fall in the window starting at [t0]. *)
Definition in_win (t0 : Z) (rs : list (Z * nat)) : nat :=
  length (filter (fun r => in_window t0 r.1 = true) rs).

(** The span of time from [a] up to [b]. *)
Definition in_span (a b t : Z) : bool := (a <=? t) && (t <? b).

(** The refills of a schedule that fall in the window starting at [t0]. *)
Definition refills_in (t0 : Z) (sched : list (Z * step)) : nat :=
  length (filter (fun t => in_window t0 t = true) (refill_times sched)).

(** The run came to an end: it returned or threw. *)
Definition ended {A} (o : outcome A) : bool :=
  match o with Diverged => false | _ => true end.

(** An operation that comes to an end in every world. *)
Definition ends {H D A} (op : M (H:=H) (D:=D) A) : Prop :=
  forall w, ended (op w).1 = true.

(** The URLs requested in a stretch of the log, in order. *)
Definition fetched {D} (l : list (event D)) : list string :=
  omap (fun e => match e with EvFetch u => Some u | _ => None end) l.

(** An operation that only extends the log, and requests only URLs that
    satisfy [P]. *)
Definition asks {H D A} (P : string -> Prop) (op : M (H:=H) (D:=D) A) : Prop :=
  forall w, exists new, log (op w).2 = log w ++ new /\ Forall P (fetched new).

(** The n-th request to [url] is answered by something the level executor
    goes round again for: a rejection, a status other than 200, or a body
    that [res.json()] cannot parse. *)
Definition page_fails {H D} (w : world H D) (url : string) (n : nat) : Prop :=
  match net w n url with
  | Rejects _ => True
  | Responds r => (status r =? 200) = false \/ parsed r = None
  end.

(** How a run of a retry executor can end: with a value that satisfies
    [good], or by a throw after [budget] requests. *)
Definition settled {H D A} (good : A -> Prop) (budget : nat)
  (w : world H D) (r : outcome A) (w1 : world H D) : Prop :=
  match r with
  | Returned a => good a
  | Thrown _ => reqs w1 = (reqs w + budget)%nat
  | Diverged => False
  end.

(** A set as the code builds them: no two members under one key. *)
Definition proper (s : jsset) : Prop := NoDup (keys s).

(** The string has a slash in it. *)
Fixpoint has_slash (s : string) : bool :=
  match s with
  | EmptyString => false
  | String c rest => Ascii.eqb c (Ascii.ascii_of_nat 47) || has_slash rest
  end.

(** What the reader of input files yields for a line, if anything. *)
Definition yielded (line : Details.raw_line) : option value :=
  match line with
  | Details.Blank => None
  | Details.Garbled => Some VNull
  | Details.Json v => Some v
  end.

(** A checkpoint of the detail fetcher whose counters [attempted],
    [succeeded] and [failed] have moved by [da], [ds] and [df], the
    country, the line and the count of skipped lines being the same. *)
Definition counted (da ds df : Z) (m m' : Details.country_meta) : Prop :=
  Details.country m' = Details.country m
  /\ Details.lastLine m' = Details.lastLine m
  /\ Details.skippedExisting m' = Details.skippedExisting m
  /\ Details.attempted m' = Details.attempted m + da
  /\ Details.succeeded m' = Details.succeeded m + ds
  /\ Details.failed m' = Details.failed m + df.

(** While items are queued, the first [n] worker functions of a pool all
    await a call. *)
Definition busy_prefix {A} (n : nat) (p : Pool.pool A) : Prop :=
  Pool.queue p <> [] ->
  forall j, (j < n)%nat -> exists x, Pool.workers p !! j = Some (Pool.Awaiting x).

End Observations.

Section BulkObservations.
Import Js Eff Bulk.
#[local] Open Scope string_scope.
#[local] Open Scope list_scope.
#[local] Open Scope Z_scope.

(** The identifier fields, in the order [getItemId] reads them. *)
Definition id_fields : list string :=
  ["id"; "uuid"; "identifier"; "escoIdentifier"; "uri"].

(** The key under which the page filter of [fetchAllFor] remembers an
    item: that of its identifier, when the identifier is truthy. *)
Definition idkey (it : value) : option prim :=
  if truthy (getItemId it) then key_of (getItemId it) else None.



(** The entry of a scope in a checkpoint document ([fresh_entry] when the
    document has none). *)
Definition entry_of (m : meta) (country : string) (level : Z) : entry :=
  (getMeta m country level).1.

(** The document after [entry = f(entry)] for one scope. *)
Definition set_entry (m : meta) (country : string) (level : Z) (f : entry -> entry)
  : meta :=
  <[country := <[level := f (entry_of m country level)]>
                 (default ∅ ((getMeta m country level).2 !! country))]>
    (getMeta m country level).2.

(** The offsets of one scope in the checkpoint documents that a stretch of
    the log installed, in order. *)
Definition saved_froms (c : string) (l : Z) (new : list (event meta)) : list Z :=
  omap (fun d => match d with
                 | Doc m => Some (from (entry_of m c l))
                 | Torn => None
                 end) (renamed_onto META_PATH new).

(** An operation that neither touches the heap nor installs a checkpoint
    document. *)
Definition quiet {A} (op : M A) : Prop :=
  forall w, heap (op w).2 = heap w /\
            exists new, log (op w).2 = log w ++ new
                        /\ renamed_onto META_PATH new = [].

(** The offset that the realignment writes over the recorded one: the
    number of lines of the output file, rounded down to a multiple of the
    page size. *)
Definition realigned (w : world) (e : entry) : Z :=
  Z.of_nat (length (default [] (ndjson w !! file e))) / PAGE_SIZE * PAGE_SIZE.

(** The entry that a checkpoint document holds for a scope, if any
    ([meta[country]?.[level]]). *)
Definition stored (m : meta) (c : string) (l : Z) : option entry :=
  m !! c ≫= (.!! l).

(** A document that holds what another holds, and fresh entries besides. *)
Definition grows (m m' : meta) : Prop :=
  forall c l, stored m' c l = stored m c l
              \/ (stored m c l = None /\ stored m' c l = Some (fresh_entry c l)).

(** What work on the scope (c, l) may do to the in-memory document: the
    entries of the other scopes stay, the scope keeps its output file, its
    counters do not go down and its completed flag is not taken back. *)
Definition advances (c : string) (l : Z) (m m' : meta) : Prop :=
  (forall c' l', (c', l') <> (c, l) -> stored m' c' l' = stored m c' l')
  /\ file (entry_of m' c l) = file (entry_of m c l)
  /\ totalPages (entry_of m c l) <= totalPages (entry_of m' c l)
  /\ totalItems (entry_of m c l) <= totalItems (entry_of m' c l)
  /\ (completed (entry_of m c l) = true -> completed (entry_of m' c l) = true).

(** The entries of the countries other than [c] are the same in both
    documents. *)
Definition country_kept (c : string) (m m' : meta) : Prop :=
  forall c' l', c' <> c -> stored m' c' l' = stored m c' l'.

(** An operation that moves the in-memory document along [R]. *)
Definition moves {A} (R : meta -> meta -> Prop) (op : M A) : Prop :=
  forall w, R (heap w) (heap (op w).2).

(** The checkpoint document that [loadMeta] finds on disk; the empty one
    when the file is missing or does not parse. *)
Definition on_disk (w : world) : meta :=
  match docs w !! META_PATH with
  | Some (Doc d) => d
  | _ => ∅
  end.

End BulkObservations.

(* ===================================================================== *)
(** ** Running the effects symbolically                                   *)
(* ===================================================================== *)

Ltac unfold_ops :=
  unfold Eff.bind, Eff.ret, Eff.throw, Eff.try_catch, Eff.try_finally,
    Eff.get_heap, Eff.set_heap, Eff.emit, Eff.warn, Eff.console_error, Eff.now,
    Eff.sleep, Eff.io_fault, Eff.rateLimit, Eff.draw_jitter, Eff.fetch,
    Eff.fresh_tag, Eff.writeFile, Eff.rename, Eff.unlink, Eff.readDoc,
    Eff.put_doc, Eff.put_lines, Eff.mkdir, Eff.access, Eff.readLines,
    Eff.writeLines, Eff.appendLines, Eff.unlinkLines, Eff.emit_w,
    Eff.with_docs, Eff.with_ndjson, Eff.diverge.

(** Unfold the primitive operations down to functions on worlds. *)
Ltac unf := repeat progress unfold_ops.

(** Reduce the projections of explicit worlds and pairs. *)
Ltac rd :=
  cbn [Eff.heap Eff.docs Eff.ndjson Eff.ios Eff.faults Eff.reqs Eff.net
       Eff.jitter Eff.tmptag Eff.clock Eff.log fst snd negb].

Ltac rdh H :=
  cbn [Eff.heap Eff.docs Eff.ndjson Eff.ios Eff.faults Eff.reqs Eff.net
       Eff.jitter Eff.tmptag Eff.clock Eff.log fst snd negb] in H.

Ltac run := unf; rd.

(* ===================================================================== *)
(** ** Identifiers and de-duplication                                     *)
(* ===================================================================== *)

Section Identifiers.
Import Js Eff Bulk.
#[local] Open Scope string_scope.
#[local] Open Scope list_scope.

(** C9, as the code has it: [getItemId] returns the value of the first of
    id, uuid, identifier, escoIdentifier, uri that is neither undefined nor
    null, and null when there is none. *)
Theorem getItemId_first_present (it : value) :
  getItemId it =
  default VNull (List.find (fun v => negb (nullish v)) (map (prop it) id_fields)).
Proof.
  unfold getItemId, id_fields, coalesce. cbn [map List.find].
  destruct (nullish (prop it "id")) eqn:E1; cbn [negb default];
    [|rewrite ?E1; reflexivity].
  destruct (nullish (prop it "uuid")) eqn:E2; cbn [negb default];
    [|rewrite ?E2; reflexivity].
  destruct (nullish (prop it "identifier")) eqn:E3; cbn [negb default];
    [|rewrite ?E3; reflexivity].
  destruct (nullish (prop it "escoIdentifier")) eqn:E4; cbn [negb default];
    [|rewrite ?E4; reflexivity].
  destruct (nullish (prop it "uri")) eqn:E5; cbn [negb default]; reflexivity.
Qed.

(** C9, counterexample: an item with an escoIdentifier and a uri gets the
    escoIdentifier, where the order id, uuid, identifier, uri gives the
    uri. *)
Lemma getItemId_esco_before_uri :
  getItemId (VObj [("escoIdentifier", VStr "E"); ("uri", VStr "U")]) = VStr "E"
  /\ Spec.getItemId (VObj [("escoIdentifier", VStr "E"); ("uri", VStr "U")]) = VStr "U".
Proof. split; reflexivity. Qed.

Lemma keys_app (s t : jsset) : keys (s ++ t) = keys s ++ keys t.
Proof. unfold keys. apply omap_app. Qed.

Lemma set_has_true (s : jsset) (v : value) :
  set_has s v = true <-> exists p, key_of v = Some p /\ p ∈ keys s.
Proof.
  unfold set_has. destruct (key_of v) as [p|].
  - rewrite bool_decide_eq_true. split; [eauto | intros (q & [= <-] & ?); done].
  - split; [done | intros (q & ? & _); done].
Qed.

Lemma keys_set_add (s : jsset) (v : value) :
  set_has s v = false ->
  keys (set_add s v) = keys s ++ from_option (fun p => [p]) [] (key_of v).
Proof.
  intros Hn. unfold set_add. rewrite Hn, keys_app. f_equal.
Qed.

(** One step of the page filter, by cases on the item. *)
Lemma dedup_cons (seen : jsset) (it : value) (rest : list value) :
  dedup seen (it :: rest) =
  match idkey it with
  | Some p =>
      if bool_decide (p ∈ keys seen) then dedup seen rest
      else ((it :: (dedup (set_add seen (getItemId it)) rest).1),
            (dedup (set_add seen (getItemId it)) rest).2)
  | None =>
      if truthy (getItemId it)
      then ((it :: (dedup (set_add seen (getItemId it)) rest).1),
            (dedup (set_add seen (getItemId it)) rest).2)
      else (it :: (dedup seen rest).1, (dedup seen rest).2)
  end.
Proof.
  cbn [dedup]. unfold idkey, set_has.
  destruct (truthy (getItemId it)) eqn:Ht; cbn [negb].
  - destruct (key_of (getItemId it)) as [p|] eqn:Hk.
    + destruct (bool_decide (p ∈ keys seen)); [reflexivity|].
      now destruct (dedup _ rest).
    + now destruct (dedup _ rest).
  - now destruct (dedup seen rest).
Qed.

(** An item without a truthy identifier leaves the set alone; one with a
    truthy identifier that has no key adds no key. *)
Lemma keys_set_add_nokey (seen : jsset) (v : value) :
  key_of v = None -> keys (set_add seen v) = keys seen.
Proof.
  intros Hk. unfold set_add, set_has. rewrite Hk, keys_app.
  unfold keys at 2. cbn. rewrite Hk. apply app_nil_r.
Qed.

Lemma keys_set_add_new (seen : jsset) (v : value) (p : prim) :
  key_of v = Some p -> p ∉ keys seen -> keys (set_add seen v) = keys seen ++ [p].
Proof.
  intros Hk Hn. rewrite keys_set_add.
  - now rewrite Hk.
  - unfold set_has. rewrite Hk. now apply bool_decide_eq_false.
Qed.



(** A page none of whose keys is in the set or occurs twice is kept
    whole, and its keys join the set in order. *)
Lemma dedup_all_new (items : list value) :
  forall seen : jsset,
    NoDup (keys seen ++ omap idkey items) ->
    (dedup seen items).1 = items /\
    keys (dedup seen items).2 = keys seen ++ omap idkey items.
Proof.
  induction items as [|it rest IH]; intros seen Hnd.
  - cbn. now rewrite app_nil_r.
  - rewrite dedup_cons.
    assert (Ho : omap idkey (it :: rest) =
                 match idkey it with
                 | Some q => q :: omap idkey rest
                 | None => omap idkey rest
                 end) by reflexivity.
    rewrite Ho in *. clear Ho.
    destruct (idkey it) as [q|] eqn:Hq.
    + unfold idkey in Hq. destruct (truthy (getItemId it)) eqn:Ht; [|done].
      assert (Hq' : q ∉ keys seen).
      { apply NoDup_app in Hnd as (_ & Hd & _). intros Hin.
        apply (Hd q Hin). left. }
      rewrite bool_decide_eq_false_2 by done. cbn [fst snd].
      destruct (IH (set_add seen (getItemId it))) as [E1 E2].
      { rewrite (keys_set_add_new _ _ q) by done. now rewrite <- app_assoc. }
      rewrite E1, E2, (keys_set_add_new _ _ q) by done.
      now rewrite <- app_assoc.
    + destruct (truthy (getItemId it)) eqn:Ht; cbn [fst snd].
      * assert (Hk : key_of (getItemId it) = None).
        { unfold idkey in Hq. now rewrite Ht in Hq. }
        destruct (IH (set_add seen (getItemId it))) as [E1 E2].
        { now rewrite keys_set_add_nokey. }
        now rewrite E1, E2, keys_set_add_nokey.
      * destruct (IH seen Hnd) as [E1 E2]. now rewrite E1, E2.
Qed.






End Identifiers.

(* ===================================================================== *)
(** ** The retry executors                                                *)
(* ===================================================================== *)

Section Retry.
Import Js Eff.
#[local] Open Scope string_scope.
#[local] Open Scope list_scope.
#[local] Open Scope Z_scope.

Lemma same_store_refl {H D} (w : world H D) : same_store w w.
Proof. repeat split. Qed.

Lemma same_store_trans {H D} (w1 w2 w3 : world H D) :
  same_store w1 w2 -> same_store w2 w3 -> same_store w1 w3.
Proof.
  unfold same_store. intros (?&?&?&?&?&?&?&?) (?&?&?&?&?&?&?&?).
  repeat split; congruence.
Qed.

(** One failed attempt of the bulk executor. *)
Lemma bulk_attempt_fails (w : Bulk.world) (url : string) :
  fails w url (reqs w) ->
  exists w1,
    Bulk.attempt_once url w = (Thrown (bulk_error (net w (reqs w) url)), w1)
    /\ same_store w w1 /\ reqs w1 = S (reqs w)
    /\ log w1 = log w ++ bulk_attempt_log w url (reqs w).
Proof.
  unfold fails, Bulk.attempt_once, bulk_attempt_log. intros Hf. run.
  destruct (jitter w (reqs w) =? 0); rd;
    destruct (net w (reqs w) url) as [e|r]; rd.
  - eexists. split; [reflexivity|]. rd.
    split; [repeat split|]. split; [reflexivity|].
    now rewrite <- app_assoc.
  - rewrite Hf. cbn [negb bulk_error].
    destruct ((status r >=? 500) || (status r =? 429));
      (eexists; split; [reflexivity|]; rd;
       split; [repeat split|]; split; [reflexivity|]; now rewrite <- app_assoc).
  - eexists. split; [reflexivity|]. rd.
    split; [repeat split|]. split; [reflexivity|].
    now rewrite <- !app_assoc.
  - rewrite Hf. cbn [negb bulk_error].
    destruct ((status r >=? 500) || (status r =? 429));
      (eexists; split; [reflexivity|]; rd;
       split; [repeat split|]; split; [reflexivity|]; now rewrite <- !app_assoc).
Qed.

(** When every answer is a failure, the bulk executor uses its whole
    budget, sleeps every backoff and throws the error of the last answer. *)
Lemma bulk_retry_exhausted (url : string) (delayMs : Z) (remaining : nat) :
  forall (attempt : nat) (w : Bulk.world),
    (forall n, fails w url n) ->
    exists w1,
      Bulk.retry_loop url delayMs attempt remaining w =
      (Thrown (bulk_error (net w (reqs w + remaining)%nat url)), w1)
      /\ same_store w w1
      /\ reqs w1 = (reqs w + S remaining)%nat
      /\ log w1 = log w ++ bulk_failing_log w url delayMs attempt remaining (reqs w).
Proof.
  induction remaining as [|r IH]; intros attempt w Hf.
  - destruct (bulk_attempt_fails w url (Hf _)) as (w1 & E & Hs & Hr & Hl).
    exists w1. cbn [Bulk.retry_loop bulk_failing_log]. unfold try_catch, throw.
    rewrite E, Nat.add_0_r, app_nil_r. repeat split; try apply Hs; [lia | done].
  - destruct (bulk_attempt_fails w url (Hf _)) as (w1 & E & Hs & Hr & Hl).
    cbn [Bulk.retry_loop bulk_failing_log]. unfold try_catch at 1. rewrite E.
    unfold bind at 1, sleep at 1.
    match goal with |- context [Bulk.retry_loop _ _ _ _ ?w'] => set (w2 := w') end.
    assert (Hs2 : same_store w w2).
    { unfold w2. destruct Hs as (?&?&?&?&?&?&?&?). repeat split; rd; done. }
    assert (Hn2 : net w2 = net w) by apply Hs2.
    assert (Hr2 : reqs w2 = S (reqs w)) by exact Hr.
    assert (Hl2 : log w2 = log w ++ bulk_attempt_log w url (reqs w)
                           ++ [EvSleep (delayMs * 2 ^ Z.of_nat attempt)]).
    { unfold w2. rd. rewrite Hl. now rewrite <- app_assoc. }
    assert (Hj : jitter w2 = jitter w) by apply Hs2.
    clearbody w2.
    destruct (IH (S attempt) w2) as (w3 & E3 & Hs3 & Hr3 & Hl3).
    { intros n. unfold fails. rewrite Hn2. apply Hf. }
    exists w3. rewrite E3, Hn2, Hr2.
    replace (S (reqs w) + r)%nat with (reqs w + S r)%nat by lia.
    split; [reflexivity|]. split; [apply (same_store_trans _ w2); assumption|].
    split; [lia|].
    rewrite Hl3, Hl2, Hr2.
    replace (bulk_failing_log w2 url delayMs (S attempt) r (S (reqs w)))
      with (bulk_failing_log w url delayMs (S attempt) r (S (reqs w))).
    + rewrite <- !app_assoc. reflexivity.
    + clear - Hj. generalize (S attempt) (S (reqs w)).
      induction r as [|r IHr]; intros a n; cbn [bulk_failing_log];
        unfold bulk_attempt_log; rewrite Hj; [reflexivity|].
      now rewrite IHr.
Qed.

Lemma sleeps_app {D} (l1 l2 : list (event D)) :
  sleeps (l1 ++ l2) = sleeps l1 ++ sleeps l2.
Proof. apply omap_app. Qed.

(** One failed attempt of the detail executor. *)
Lemma details_attempt_fails (w : Details.world) (url : string) :
  fails w url (reqs w) ->
  exists w1,
    Details.attempt_once url w = (Thrown (details_error (net w (reqs w) url)), w1)
    /\ same_store w w1 /\ reqs w1 = S (reqs w)
    /\ log w1 = log w ++ [EvAcquire; EvFetch url].
Proof.
  unfold fails, Details.attempt_once. intros Hf. run.
  destruct (net w (reqs w) url) as [e|r]; rd.
  - eexists. split; [reflexivity|]. rd.
    split; [repeat split|]. split; [reflexivity|]. now rewrite <- app_assoc.
  - rewrite Hf. cbn [negb details_error].
    destruct ((status r >=? 500) || (status r =? 429));
      (eexists; split; [reflexivity|]; rd;
       split; [repeat split|]; split; [reflexivity|]; now rewrite <- app_assoc).
Qed.

(** When every answer is a failure, the detail executor uses its whole
    budget, sleeps every backoff and throws the error of the last answer. *)
Lemma details_retry_exhausted (url : string) (remaining : nat) :
  forall (attempt : nat) (w : Details.world),
    (forall n, fails w url n) ->
    exists w1 new,
      Details.retry_loop url attempt remaining w =
      (Thrown (details_error (net w (reqs w + remaining)%nat url)), w1)
      /\ same_store w w1
      /\ reqs w1 = (reqs w + S remaining)%nat
      /\ log w1 = log w ++ new
      /\ sleeps new = map (fun k => 400 * 2 ^ Z.of_nat k) (seq attempt remaining).
Proof.
  induction remaining as [|r IH]; intros attempt w Hf.
  - destruct (details_attempt_fails w url (Hf _)) as (w1 & E & Hs & Hr & Hl).
    exists w1, [EvAcquire; EvFetch url].
    cbn [Details.retry_loop]. unfold try_catch, throw.
    rewrite E, Nat.add_0_r. repeat split; try apply Hs; [lia | done].
  - destruct (details_attempt_fails w url (Hf _)) as (w1 & E & Hs & Hr & Hl).
    cbn [Details.retry_loop]. unfold try_catch at 1. rewrite E.
    unfold bind at 1, sleep at 1.
    match goal with |- context [Details.retry_loop _ _ _ ?w'] => set (w2 := w') end.
    assert (Hs2 : same_store w w2).
    { unfold w2. destruct Hs as (?&?&?&?&?&?&?&?). repeat split; rd; done. }
    assert (Hn2 : net w2 = net w) by apply Hs2.
    assert (Hr2 : reqs w2 = S (reqs w)) by exact Hr.
    assert (Hl2 : log w2 = log w ++ [EvAcquire; EvFetch url]
                           ++ [EvSleep (400 * 2 ^ Z.of_nat attempt)]).
    { unfold w2. rd. rewrite Hl. now rewrite <- app_assoc. }
    clearbody w2.
    destruct (IH (S attempt) w2) as (w3 & new & E3 & Hs3 & Hr3 & Hl3 & Hsl).
    { intros n. unfold fails. rewrite Hn2. apply Hf. }
    exists w3, ([EvAcquire; EvFetch url]
                ++ [EvSleep (400 * 2 ^ Z.of_nat attempt)] ++ new).
    rewrite E3, Hn2, Hr2.
    replace (S (reqs w) + r)%nat with (reqs w + S r)%nat by lia.
    split; [reflexivity|]. split; [apply (same_store_trans _ w2); assumption|].
    split; [lia|]. split.
    + rewrite Hl3, Hl2, <- !app_assoc. reflexivity.
    + rewrite !sleeps_app, Hsl. reflexivity.
Qed.


(** When no answer has status 200, the level executor makes [remaining]
    requests, sleeps a backoff after each, and returns the failure value. *)
Lemma levels_retry_exhausted (url : string) (remaining : nat) :
  forall (attempt : nat) (w : Levels.world),
    (forall n, fails200 w url n) ->
    exists w1 new,
      Levels.page_retry url attempt remaining w =
      (Returned (Levels.PageFailed "Failed after 6 retries"), w1)
      /\ same_store w w1
      /\ reqs w1 = (reqs w + remaining)%nat
      /\ log w1 = log w ++ new
      /\ sleeps new = map (fun k => 800 * 2 ^ Z.of_nat k) (seq attempt remaining).
Proof.
  induction remaining as [|r IH]; intros attempt w Hf.
  - exists w, []. cbn [Levels.page_retry]. unfold ret.
    rewrite app_nil_r, Nat.add_0_r. repeat split.
  - cbn [Levels.page_retry].
    replace (Z.of_nat (S attempt) - 1) with (Z.of_nat attempt) by lia.
    run. pose proof (Hf (reqs w)) as Hf0. unfold fails200 in Hf0.
    destruct (net w (reqs w) url) as [e|res]; rd; [|rewrite Hf0; rd].
    all: match goal with |- context [Levels.page_retry _ _ _ ?w'] => set (w2 := w') end.
    all: assert (Hs2 : same_store w w2) by (unfold w2; repeat split);
      assert (Hn2 : net w2 = net w) by apply Hs2;
      assert (Hr2 : reqs w2 = S (reqs w)) by reflexivity.
    all: destruct (IH (S attempt) w2) as (w3 & new & E3 & Hs3 & Hr3 & Hl3 & Hsl);
      [intros n; unfold fails200; rewrite Hn2; apply Hf|].
    all: rewrite E3; eexists w3, _; split; [reflexivity|];
      split; [apply (same_store_trans _ w2); assumption|]; split; [lia|].
    all: rewrite Hl3; unfold w2 at 1; rd; rewrite <- !app_assoc;
      split; [reflexivity|]; rewrite !sleeps_app, Hsl; reflexivity.
Qed.

End Retry.

(* ===================================================================== *)
(** ** Saving the checkpoint document                                     *)
(* ===================================================================== *)

Section Atomic.
Import Js Eff.
#[local] Open Scope string_scope.
#[local] Open Scope list_scope.
#[local] Open Scope Z_scope.

Lemma same_env_refl {H D} (w : world H D) : same_env w w.
Proof. repeat split. Qed.

Lemma same_env_trans {H D} (w1 w2 w3 : world H D) :
  same_env w1 w2 -> same_env w2 w3 -> same_env w1 w3.
Proof.
  unfold same_env. intros (?&?&?&?&?&?&?) (?&?&?&?&?&?&?).
  repeat split; congruence.
Qed.

Lemma renamed_onto_app {D} (target : string) (l1 l2 : list (event D)) :
  renamed_onto target (l1 ++ l2) = renamed_onto target l1 ++ renamed_onto target l2.
Proof. apply omap_app. Qed.

Lemma app_ne_self (s t : string) : t <> "" -> s +:+ t <> s.
Proof.
  intros Ht E. apply Ht. apply (String.app_inj s).
  rewrite E. clear. induction s as [|a s IH];
    [reflexivity | change (String a s = String a (s +:+ "")); f_equal; exact IH].
Qed.

(** The temp file of a save is not the file it will replace. *)
Lemma tmp_ne_target (target tag : string) : target +:+ ".tmp." +:+ tag <> target.
Proof. apply app_ne_self. discriminate. Qed.

(** The rename loop of the bulk fetcher. *)
Lemma bulk_rename_loop_spec (tmp : string) (c : content Bulk.meta) :
  tmp <> Bulk.META_PATH ->
  forall (remaining attempt : nat) (w : Bulk.world),
    docs w !! tmp = Some c ->
    exists r w1 new,
      Bulk.rename_loop tmp attempt remaining w = (r, w1)
      /\ r <> Diverged
      /\ same_env w w1
      /\ (ios w1 <= ios w + remaining + 1)%nat
      /\ log w1 = log w ++ new
      /\ installs_or_keeps Bulk.META_PATH c w w1 new.
Proof.
  intros Hne. induction remaining as [|r IH]; intros attempt w Htmp.
  - cbn [Bulk.rename_loop]. run.
    destruct (faults w (ios w)) as [code|]; rd.
    + eexists _, _, _. split; [reflexivity|]. rd.
      split; [discriminate|]. split; [repeat split|]. split; [lia|].
      split; [reflexivity|]. right. split; reflexivity.
    + rewrite Htmp.
      eexists _, _, _. split; [reflexivity|]. rd.
      split; [discriminate|]. split; [repeat split|]. split; [lia|].
      split; [now rewrite <- app_assoc|]. right.
      split; [rd; now rewrite lookup_delete_ne | reflexivity].
  - cbn [Bulk.rename_loop]. unfold try_catch at 1, rename at 1.
    unfold bind at 1, io_fault at 1.
    destruct (faults w (ios w)) as [code|] eqn:Hf.
    + unfold throw at 1. cbv beta iota.
      destruct (Bulk.retry_code (fs_error code ("rename " +:+ tmp))) eqn:Hc.
      * unfold bind at 1, sleep at 1. cbv beta iota.
        match goal with |- context [Bulk.rename_loop _ _ _ ?w'] => set (w2 := w') end.
        destruct (IH (S attempt) w2 Htmp) as (r1 & w3 & new & E & Hd & He & Hi & Hl & Hk).
        exists r1, w3, ([EvSleep (100 * (Z.of_nat attempt + 1))] ++ new).
        split; [exact E|]. split; [exact Hd|].
        split; [apply (same_env_trans _ w2); [repeat split | exact He]|].
        split; [unfold w2 in Hi; rd; cbn [ios] in Hi; lia|].
        split; [rewrite Hl; unfold w2; rd; now rewrite <- app_assoc|].
        destruct Hk as [[K1 K2]|[K1 K2]]; [left|right];
          (split; [exact K1 | rewrite renamed_onto_app, K2; reflexivity]).
      * run. destruct (faults w (S (ios w))) as [code'|]; rd.
        -- eexists _, _, _. split; [reflexivity|]. rd.
           split; [discriminate|]. split; [repeat split|]. split; [lia|].
           split; [reflexivity|]. right. split; reflexivity.
        -- rewrite Htmp. eexists _, _, _. split; [reflexivity|]. rd.
           split; [discriminate|]. split; [repeat split|]. split; [lia|].
           split; [now rewrite <- app_assoc|]. right.
           split; [rd; now rewrite lookup_delete_ne | reflexivity].
    + cbv beta iota. rd. rewrite Htmp.
      eexists _, _, [EvRename tmp Bulk.META_PATH c]. split; [reflexivity|]. run.
      split; [discriminate|]. split; [repeat split|]. split; [lia|].
      split; [reflexivity|]. left.
      split; [rd; now rewrite lookup_insert_eq | ].
      unfold renamed_onto. cbn [omap list_omap]. now rewrite String.eqb_refl.
Qed.

(** [safeWriteMetaFile]: it ends, by a return or a throw; it touches
    nothing but document files; it starts with the write of the temp file;
    and the checkpoint file afterwards holds the new document or what it
    held before. *)
Lemma bulk_safeWrite_spec (m : Bulk.meta) (w : Bulk.world) :
  exists r w1 new,
    Bulk.safeWriteMetaFile m w = (r, w1)
    /\ r <> Diverged
    /\ same_env w w1
    /\ (ios w1 <= ios w + 7)%nat
    /\ log w1 = log w ++ new
    /\ installs_or_keeps Bulk.META_PATH (Doc m) w w1 new
    /\ head (written_paths new)
       = Some (Bulk.META_PATH +:+ ".tmp." +:+ tmptag w (ios w)).
Proof.
  unfold Bulk.safeWriteMetaFile.
  unfold bind at 1, fresh_tag at 1. cbv beta iota.
  set (tmp := Bulk.META_PATH +:+ ".tmp." +:+ tmptag w (ios w)).
  assert (Hne : tmp <> Bulk.META_PATH) by apply tmp_ne_target.
  unfold bind at 1, writeFile at 1. unfold bind at 1, io_fault at 1.
  destruct (faults w (ios w)) as [code|] eqn:Hf; cbv beta iota.
  - run. eexists _, _, _. split; [reflexivity|]. rd.
    split; [discriminate|]. split; [repeat split|]. split; [lia|].
    split; [reflexivity|]. split; [|reflexivity].
    right. split; [rd; now rewrite lookup_insert_ne | reflexivity].
  - unfold bind at 1, put_doc at 1. cbv beta iota.
    unfold emit at 1. cbv beta iota.
    match goal with |- context [Bulk.rename_loop _ _ _ ?w'] => set (w2 := w') end.
    assert (Htmp : docs w2 !! tmp = Some (Doc m)).
    { unfold w2. run. now rewrite lookup_insert_eq. }
    destruct (bulk_rename_loop_spec tmp (Doc m) Hne 5 0 w2 Htmp)
      as (r & w3 & new & E & Hd & He & Hi & Hl & Hk).
    exists r, w3, ([EvWrite tmp (Doc m)] ++ new).
    split; [exact E|]. split; [exact Hd|].
    split; [apply (same_env_trans _ w2); [repeat split | exact He]|].
    assert (Hi2 : ios w2 = S (ios w)) by reflexivity.
    split; [lia|].
    split; [rewrite Hl; unfold w2; run; now rewrite <- app_assoc|].
    split; [|reflexivity].
    assert (Hm : docs w2 !! Bulk.META_PATH = docs w !! Bulk.META_PATH).
    { unfold w2. run. now rewrite lookup_insert_ne. }
    destruct Hk as [[K1 K2]|[K1 K2]]; [left|right];
      (split; [congruence | rewrite renamed_onto_app, K2; reflexivity]).
Qed.

(** [saveMeta] always returns: a failed save is logged and swallowed. *)
Lemma bulk_saveMeta_spec (w : Bulk.world) :
  exists w1 new,
    Bulk.saveMeta w = (Returned tt, w1)
    /\ same_env w w1
    /\ (ios w1 <= ios w + 7)%nat
    /\ log w1 = log w ++ new
    /\ installs_or_keeps Bulk.META_PATH (Doc (heap w)) w w1 new.
Proof.
  unfold Bulk.saveMeta. unfold bind at 1, get_heap at 1. cbv beta iota.
  destruct (bulk_safeWrite_spec (heap w) w)
    as (r & w1 & new & E & Hd & He & Hi & Hl & Hk & _).
  unfold try_catch. rewrite E. destruct r as [[]|e|]; [| |done].
  - exists w1, new. repeat split; assumption || apply He.
  - run. eexists _, (new ++ [_]). split; [reflexivity|]. rd.
    split; [exact He|]. split; [exact Hi|].
    split; [rewrite Hl; now rewrite <- app_assoc|].
    destruct Hk as [[K1 K2]|[K1 K2]]; [left|right];
      (split; [exact K1 | rewrite renamed_onto_app, K2; reflexivity]).
Qed.

(** On a file system without faults [saveMeta] installs the document of
    the heap. *)
Lemma bulk_saveMeta_ok (w : Bulk.world) :
  no_faults w ->
  exists w1,
    Bulk.saveMeta w = (Returned tt, w1)
    /\ same_env w w1
    /\ docs w1 !! Bulk.META_PATH = Some (Doc (heap w))
    /\ renamed_onto Bulk.META_PATH (drop (length (log w)) (log w1)) = [Doc (heap w)].
Proof.
  intros Hnf. unfold Bulk.saveMeta, Bulk.safeWriteMetaFile.
  cbn [Bulk.rename_loop]. run. repeat (rewrite Hnf; rd). rewrite lookup_insert_eq.
  eexists. split; [reflexivity|]. rd. split; [repeat split|].
  split; [now rewrite lookup_insert_eq|].
  rewrite <- app_assoc, drop_app_length.
  unfold renamed_onto. cbn [omap list_omap app]. now rewrite String.eqb_refl.
Qed.

(** The rename loop of the detail fetcher. *)
Lemma details_rename_loop_spec (tmp target : string) (c : content Details.doc) :
  tmp <> target ->
  forall (remaining i : nat) (w : Details.world),
    docs w !! tmp = Some c ->
    exists r w1 new,
      Details.rename_loop tmp target i remaining w = (r, w1)
      /\ r <> Diverged
      /\ same_env w w1
      /\ (ios w1 <= ios w + remaining + 1)%nat
      /\ log w1 = log w ++ new
      /\ installs_or_keeps target c w w1 new.
Proof.
  intros Hne. induction remaining as [|r IH]; intros i w Htmp.
  - cbn [Details.rename_loop]. run.
    destruct (faults w (ios w)) as [code|]; rd.
    + eexists _, _, []. split; [reflexivity|]. rd.
      split; [discriminate|]. split; [repeat split|]. split; [lia|].
      split; [now rewrite app_nil_r|]. right. split; reflexivity.
    + rewrite Htmp.
      eexists _, _, _. split; [reflexivity|]. rd.
      split; [discriminate|]. split; [repeat split|]. split; [lia|].
      split; [reflexivity|]. right.
      split; [rd; now rewrite lookup_delete_ne | reflexivity].
  - cbn [Details.rename_loop]. unfold try_catch at 1, rename at 1.
    unfold bind at 1, io_fault at 1.
    destruct (faults w (ios w)) as [code|] eqn:Hf.
    + unfold throw at 1. cbv beta iota.
      unfold bind at 1, sleep at 1. cbv beta iota.
      match goal with |- context [Details.rename_loop _ _ _ _ ?w'] => set (w2 := w') end.
      destruct (IH (S i) w2 Htmp) as (r1 & w3 & new & E & Hd & He & Hi & Hl & Hk).
      exists r1, w3, ([EvSleep (100 * (Z.of_nat i + 1))] ++ new).
      split; [exact E|]. split; [exact Hd|].
      split; [apply (same_env_trans _ w2); [repeat split | exact He]|].
      split; [unfold w2 in Hi; rd; cbn [ios] in Hi; lia|].
      split; [rewrite Hl; unfold w2; rd; now rewrite <- app_assoc|].
      destruct Hk as [[K1 K2]|[K1 K2]]; [left|right];
        (split; [exact K1 | rewrite renamed_onto_app, K2; reflexivity]).
    + cbv beta iota. rd. rewrite Htmp.
      eexists _, _, [EvRename tmp target c]. split; [reflexivity|]. run.
      split; [discriminate|]. split; [repeat split|]. split; [lia|].
      split; [reflexivity|]. left.
      split; [rd; now rewrite lookup_insert_eq | ].
      unfold renamed_onto. cbn [omap list_omap]. now rewrite String.eqb_refl.
Qed.

(** [saveCountryMeta]: as [safeWriteMetaFile], for the detail fetcher. *)
Lemma details_save_spec (metaPath : string) (m : Details.country_meta)
  (w : Details.world) :
  exists r w1 new,
    Details.saveCountryMeta metaPath m w = (r, w1)
    /\ r <> Diverged
    /\ same_env w w1
    /\ (ios w1 <= ios w + 7)%nat
    /\ log w1 = log w ++ new
    /\ installs_or_keeps metaPath (Doc (Details.DMeta m)) w w1 new
    /\ head (written_paths new)
       = Some (metaPath +:+ ".tmp." +:+ tmptag w (ios w)).
Proof.
  unfold Details.saveCountryMeta.
  unfold bind at 1, fresh_tag at 1. cbv beta iota.
  set (tmp := metaPath +:+ ".tmp." +:+ tmptag w (ios w)).
  assert (Hne : tmp <> metaPath) by apply tmp_ne_target.
  unfold bind at 1, writeFile at 1. unfold bind at 1, io_fault at 1.
  destruct (faults w (ios w)) as [code|] eqn:Hf; cbv beta iota.
  - run. eexists _, _, _. split; [reflexivity|]. rd.
    split; [discriminate|]. split; [repeat split|]. split; [lia|].
    split; [reflexivity|]. split; [|reflexivity].
    right. split; [rd; now rewrite lookup_insert_ne | reflexivity].
  - unfold bind at 1, put_doc at 1. cbv beta iota.
    unfold emit at 1. cbv beta iota.
    match goal with |- context [Details.rename_loop _ _ _ _ ?w'] => set (w2 := w') end.
    assert (Htmp : docs w2 !! tmp = Some (Doc (Details.DMeta m))).
    { unfold w2. run. now rewrite lookup_insert_eq. }
    destruct (details_rename_loop_spec tmp metaPath _ Hne 5 0 w2 Htmp)
      as (r & w3 & new & E & Hd & He & Hi & Hl & Hk).
    exists r, w3, ([EvWrite tmp (Doc (Details.DMeta m))] ++ new).
    split; [exact E|]. split; [exact Hd|].
    split; [apply (same_env_trans _ w2); [repeat split | exact He]|].
    assert (Hi2 : ios w2 = S (ios w)) by reflexivity.
    split; [lia|].
    split; [rewrite Hl; unfold w2; run; now rewrite <- app_assoc|].
    split; [|reflexivity].
    assert (Hm : docs w2 !! metaPath = docs w !! metaPath).
    { unfold w2. run. now rewrite lookup_insert_ne. }
    destruct Hk as [[K1 K2]|[K1 K2]]; [left|right];
      (split; [congruence | rewrite renamed_onto_app, K2; reflexivity]).
Qed.

Lemma bulk_safeWrite_atomic (m : Bulk.meta) (w : Bulk.world) :
  Spec.atomic_save Bulk.META_PATH (Doc m) w (Bulk.safeWriteMetaFile m w).
Proof.
  destruct (bulk_safeWrite_spec m w) as (r & w1 & new & E & Hd & He & Hi & Hl & Hk & Hh).
  unfold Spec.atomic_save. rewrite E. cbn [fst snd].
  split; [exact Hd|]. split; [exact Hi|]. exists new. auto.
Qed.

Lemma details_save_atomic (p : string) (m : Details.country_meta) (w : Details.world) :
  Spec.atomic_save p (Doc (Details.DMeta m)) w (Details.saveCountryMeta p m w).
Proof.
  destruct (details_save_spec p m w) as (r & w1 & new & E & Hd & He & Hi & Hl & Hk & Hh).
  unfold Spec.atomic_save. rewrite E. cbn [fst snd].
  split; [exact Hd|]. split; [exact Hi|]. exists new. auto.
Qed.

(** When the write succeeds and the five renames fail with EPERM, the bulk
    fetcher sleeps 100, 200, 300, 400, 500 ms, warns, and leaves the
    checkpoint file as it was. *)
Lemma bulk_save_locked (m : Bulk.meta) (w : Bulk.world) :
  faults w (ios w) = None ->
  (forall k, (1 <= k <= 5)%nat -> faults w (k + ios w)%nat = Some "EPERM") ->
  exists w1 new,
    Bulk.safeWriteMetaFile m w = (Returned tt, w1)
    /\ log w1 = log w ++ new
    /\ sleeps new = [100; 200; 300; 400; 500]
    /\ In (EvWarn "Could not safely rename temp meta file after several attempts.") new
    /\ docs w1 !! Bulk.META_PATH = docs w !! Bulk.META_PATH.
Proof.
  intros H0 Hk.
  pose proof (Hk 1%nat ltac:(lia)) as H1. pose proof (Hk 2%nat ltac:(lia)) as H2.
  pose proof (Hk 3%nat ltac:(lia)) as H3. pose proof (Hk 4%nat ltac:(lia)) as H4.
  pose proof (Hk 5%nat ltac:(lia)) as H5. cbn [Nat.add] in H1, H2, H3, H4, H5.
  unfold Bulk.safeWriteMetaFile. cbn [Bulk.rename_loop]. run.
  assert (Hc : forall op, Bulk.retry_code (fs_error "EPERM" op) = true)
    by reflexivity.
  rewrite H0. rd. rewrite H1, Hc. rd. rewrite H2, Hc. rd. rewrite H3, Hc. rd.
  rewrite H4, Hc. rd. rewrite H5, Hc. rd.
  set (tmp := Bulk.META_PATH +:+ ".tmp." +:+ tmptag w (ios w)).
  assert (Hne : tmp <> Bulk.META_PATH) by apply tmp_ne_target.
  destruct (faults w (S (S (S (S (S (S (ios w)))))))); rd;
    [|rewrite lookup_insert_eq].
  all: eexists _, _; split; [reflexivity|]; rd; rewrite <- !app_assoc;
    split; [reflexivity|]; split; [reflexivity|]; split; [cbn; tauto|].
  - now rewrite lookup_insert_ne.
  - now rewrite lookup_delete_ne, lookup_insert_ne.
Qed.

(** C4, as the code has it: in the bulk fetcher and in the detail fetcher
    a save of the checkpoint writes a temp file beside the target and
    renames it over the target, with at most five renames; whatever the file
    system does, the target afterwards holds the whole new document or what
    it held before, and [saveMeta] returns.  When the write succeeds and all
    five renames fail, the bulk fetcher has slept 100, 200, 300, 400, 500 ms
    between them, has logged a warning, and the target is as it was. *)
Theorem checkpoint_save_atomic (w : Bulk.world) (m : Bulk.meta)
  (wd : Details.world) (metaPath : string) (cm : Details.country_meta)
  (wl : Bulk.world) :
  faults wl (ios wl) = None ->
  (forall k, (1 <= k <= 5)%nat -> faults wl (k + ios wl)%nat = Some "EPERM") ->
  Spec.atomic_save Bulk.META_PATH (Doc m) w (Bulk.safeWriteMetaFile m w)
  /\ (exists w1, Bulk.saveMeta w = (Returned tt, w1))
  /\ Spec.atomic_save metaPath (Doc (Details.DMeta cm)) wd
       (Details.saveCountryMeta metaPath cm wd)
  /\ (exists w1 new,
        Bulk.safeWriteMetaFile m wl = (Returned tt, w1)
        /\ log w1 = log wl ++ new
        /\ sleeps new = [100; 200; 300; 400; 500]
        /\ In (EvWarn "Could not safely rename temp meta file after several attempts.") new
        /\ docs w1 !! Bulk.META_PATH = docs wl !! Bulk.META_PATH).
Proof.
  intros H0 Hk. split; [apply bulk_safeWrite_atomic|].
  split; [destruct (bulk_saveMeta_spec w) as (w1 & new & E & _); eauto|].
  split; [apply details_save_atomic|].
  apply bulk_save_locked; assumption.
Qed.

Lemma checkpoint_save_atomic_witness :
  Spec.atomic_save Bulk.META_PATH (Doc ∅) Scenario.bulk_404
    (Bulk.safeWriteMetaFile ∅ Scenario.bulk_404)
  /\ (exists w1, Bulk.saveMeta Scenario.bulk_404 = (Returned tt, w1))
  /\ Spec.atomic_save "meta/DEU_meta.json"
       (Doc (Details.DMeta (Details.meta Scenario.details_vars)))
       Scenario.details_404
       (Details.saveCountryMeta "meta/DEU_meta.json"
          (Details.meta Scenario.details_vars) Scenario.details_404)
  /\ (exists w1 new,
        Bulk.safeWriteMetaFile ∅ Scenario.bulk_locked = (Returned tt, w1)
        /\ log w1 = log Scenario.bulk_locked ++ new
        /\ sleeps new = [100; 200; 300; 400; 500]
        /\ In (EvWarn "Could not safely rename temp meta file after several attempts.") new
        /\ docs w1 !! Bulk.META_PATH = docs Scenario.bulk_locked !! Bulk.META_PATH).
Proof.
  apply (checkpoint_save_atomic Scenario.bulk_404 ∅ Scenario.details_404
           "meta/DEU_meta.json" (Details.meta Scenario.details_vars)
           Scenario.bulk_locked).
  - reflexivity.
  - intros k Hk.
    destruct k as [|[|[|[|[|[|k]]]]]]; try reflexivity; exfalso; lia.
Defined.

(** C4, counterexample: the level fetcher's [saveProgress] writes the
    checkpoint file in place, with no temp file and no rename; a write that
    fails leaves the previously saved checkpoint torn. *)
Lemma saveProgress_writes_in_place :
  docs Scenario.levels_disk_full !! Levels.progressPathFor 1
    = Some (Doc (Levels.DProgress (Levels.Progress 150 40)))
  /\ docs (Levels.saveProgress 1 (Levels.Progress 300 80) Scenario.levels_disk_full).2
       !! Levels.progressPathFor 1 = Some Torn
  /\ written_paths (log (Levels.saveProgress 1 (Levels.Progress 300 80)
                           Scenario.levels_disk_full).2)
     = [Levels.progressPathFor 1]
  /\ renamed_onto (Levels.progressPathFor 1)
       (log (Levels.saveProgress 1 (Levels.Progress 300 80)
               Scenario.levels_disk_full).2) = [].
Proof. repeat split; vm_compute; reflexivity. Qed.

End Atomic.

(* ===================================================================== *)
(** ** What the retry executors do with failures                          *)
(* ===================================================================== *)

Section Failures.
Import Js Eff.
#[local] Open Scope string_scope.
#[local] Open Scope list_scope.
#[local] Open Scope Z_scope.

Lemma client_error_is_not_ok (r : response) :
  400 <= status r < 500 -> ok r = false.
Proof. intros H. unfold ok. apply andb_false_iff. right. lia. Qed.

Lemma client_error_class (r : response) :
  400 <= status r < 500 -> status r <> 429 ->
  (status r >=? 500) || (status r =? 429) = false.
Proof. intros H1 H2. apply orb_false_iff. split; lia. Qed.

(** C2, as the code has it: when the server answers every request with the
    same 4xx response other than 429, the bulk and the detail executor spend
    their whole budget on it ([retries + 1] requests, a backoff sleep between
    them) and only then throw an error that carries the head of the body;
    the level executor makes its six requests, sleeps after each, and returns
    its failure value. *)
Theorem client_errors_are_retried (wb : Bulk.world) (wd : Details.world)
  (wl : Levels.world) (url : string) (retries : nat) (delayMs : Z)
  (r : response) :
  400 <= status r < 500 -> status r <> 429 ->
  (forall n, net wb n url = Responds r) ->
  (forall n, net wd n url = Responds r) ->
  (forall n, net wl n url = Responds r) ->
  (exists w1,
     Bulk.fetchWithRetry url retries delayMs wb = (Thrown (Bulk.other_error r), w1)
     /\ reqs w1 = (reqs wb + S retries)%nat
     /\ log w1 = log wb ++ bulk_failing_log wb url delayMs 0 retries (reqs wb))
  /\ (exists w1 new,
        Details.fetchWithRetry url retries wd = (Thrown (Details.other_error r), w1)
        /\ reqs w1 = (reqs wd + S retries)%nat
        /\ log w1 = log wd ++ new
        /\ sleeps new = map (fun k => 400 * 2 ^ Z.of_nat k) (seq 0 retries))
  /\ (exists w1 new,
        Levels.fetchPageWithRetry url wl
        = (Returned (Levels.PageFailed "Failed after 6 retries"), w1)
        /\ reqs w1 = (reqs wl + 6)%nat
        /\ log w1 = log wl ++ new
        /\ sleeps new = map (fun k => 800 * 2 ^ Z.of_nat k) (seq 0 6)).
Proof.
  intros H4 H429 Hb Hd Hl.
  pose proof (client_error_is_not_ok r H4) as Hok.
  pose proof (client_error_class r H4 H429) as Hcl.
  split; [|split].
  - destruct (bulk_retry_exhausted url delayMs retries 0 wb)
      as (w1 & E & _ & Hr & Hlog).
    { intros n. unfold fails. now rewrite Hb. }
    exists w1. unfold Bulk.fetchWithRetry. rewrite E, Hb. cbn [bulk_error].
    rewrite Hcl. auto.
  - destruct (details_retry_exhausted url retries 0 wd)
      as (w1 & new & E & _ & Hr & Hlog & Hs).
    { intros n. unfold fails. now rewrite Hd. }
    exists w1, new. unfold Details.fetchWithRetry. rewrite E, Hd.
    cbn [details_error]. rewrite Hcl. auto.
  - destruct (levels_retry_exhausted url 6 0 wl)
      as (w1 & new & E & _ & Hr & Hlog & Hs).
    { intros n. unfold fails200. rewrite Hl. lia. }
    exists w1, new. unfold Levels.fetchPageWithRetry, Levels.MAX_RETRIES.
    rewrite E. auto.
Qed.

Lemma client_errors_are_retried_witness :
  (exists w1,
     Bulk.fetchWithRetry Scenario.url 3 800 Scenario.bulk_404
     = (Thrown (Bulk.other_error Scenario.not_found), w1)
     /\ reqs w1 = (reqs Scenario.bulk_404 + 4)%nat
     /\ log w1 = log Scenario.bulk_404
                 ++ bulk_failing_log Scenario.bulk_404 Scenario.url 800 0 3
                      (reqs Scenario.bulk_404))
  /\ (exists w1 new,
        Details.fetchWithRetry Scenario.url 3 Scenario.details_404
        = (Thrown (Details.other_error Scenario.not_found), w1)
        /\ reqs w1 = (reqs Scenario.details_404 + 4)%nat
        /\ log w1 = log Scenario.details_404 ++ new
        /\ sleeps new = map (fun k => 400 * 2 ^ Z.of_nat k) (seq 0 3))
  /\ (exists w1 new,
        Levels.fetchPageWithRetry Scenario.url Scenario.levels_404
        = (Returned (Levels.PageFailed "Failed after 6 retries"), w1)
        /\ reqs w1 = (reqs Scenario.levels_404 + 6)%nat
        /\ log w1 = log Scenario.levels_404 ++ new
        /\ sleeps new = map (fun k => 800 * 2 ^ Z.of_nat k) (seq 0 6)).
Proof.
  apply (client_errors_are_retried Scenario.bulk_404 Scenario.details_404
           Scenario.levels_404 Scenario.url 3 800 Scenario.not_found).
  - cbn. lia.
  - cbn. lia.
  - reflexivity.
  - reflexivity.
  - reflexivity.
Defined.

(** C2, counterexample: a 404 answered to the bulk executor is not returned
    at once; the executor issues all four requests and sleeps the three
    backoffs (800, 1600, 3200 ms) before it fails. *)
Lemma not_found_consumes_all_retries :
  (Bulk.fetchWithRetry Scenario.url 3 800 Scenario.bulk_404).1
    = Thrown (Bulk.other_error Scenario.not_found)
  /\ reqs (Bulk.fetchWithRetry Scenario.url 3 800 Scenario.bulk_404).2 = 4%nat
  /\ sleeps (log (Bulk.fetchWithRetry Scenario.url 3 800 Scenario.bulk_404).2)
     = [800; 1600; 3200]
  /\ Spec.returned_immediately Scenario.bulk_404
       (Bulk.fetchWithRetry Scenario.url 3 800 Scenario.bulk_404).2 = false.
Proof. repeat split; vm_compute; reflexivity. Qed.





End Failures.

(* ===================================================================== *)
(** ** The page loop of the bulk fetcher                                  *)
(* ===================================================================== *)

Section Pagination.
Import Js Eff Bulk.
#[local] Open Scope string_scope.
#[local] Open Scope list_scope.
#[local] Open Scope Z_scope.

Lemma entry_of_insert (m : meta) (c : string) (l : Z) (lv : gmap Z entry) (e : entry) :
  entry_of (<[c := <[l := e]> lv]> m) c l = e.
Proof.
  unfold entry_of, getMeta. rewrite !lookup_insert_eq. unfold default, from_option, id.
  now rewrite lookup_insert_eq.
Qed.

Lemma entry_of_set_entry (m : meta) (c : string) (l : Z) (f : entry -> entry) :
  entry_of (set_entry m c l f) c l = f (entry_of m c l).
Proof. apply entry_of_insert. Qed.

Lemma getMeta_cases (m : meta) (c : string) (l : Z) :
  getMeta m c l = (entry_of m c l, m)
  \/ (entry_of m c l = fresh_entry c l /\
      exists lv m', (getMeta m c l).2 = <[c := <[l := fresh_entry c l]> lv]> m').
Proof.
  unfold entry_of, getMeta.
  destruct (m !! c) as [lv|] eqn:Hc.
  - rewrite Hc. unfold default, from_option, id.
    destruct (lv !! l) as [e|] eqn:Hl; [left; reflexivity|].
    right. split; [reflexivity|]. eauto.
  - rewrite lookup_insert_eq. unfold default, from_option, id.
    rewrite lookup_empty. right. split; [reflexivity|]. eauto.
Qed.

Lemma entry_of_getMeta (m : meta) (c : string) (l : Z) :
  entry_of (getMeta m c l).2 c l = entry_of m c l.
Proof.
  destruct (getMeta_cases m c l) as [E|(E & lv & m' & E')].
  - now rewrite E.
  - rewrite E', E. apply entry_of_insert.
Qed.

Lemma modify_entry_run (c : string) (l : Z) (f : entry -> entry) (w : world) :
  modify_entry c l f w =
  (Returned tt,
   World (set_entry (heap w) c l f) (docs w) (ndjson w) (ios w) (faults w)
         (reqs w) (net w) (jitter w) (tmptag w) (clock w) (log w)).
Proof.
  unfold modify_entry, set_entry, entry_of. run.
  now destruct (getMeta (heap w) c l).
Qed.

Lemma getMetaM_run (c : string) (l : Z) (w : world) :
  getMetaM c l w =
  (Returned (entry_of (heap w) c l),
   World (getMeta (heap w) c l).2 (docs w) (ndjson w) (ios w) (faults w)
         (reqs w) (net w) (jitter w) (tmptag w) (clock w) (log w)).
Proof.
  unfold getMetaM, entry_of. run. now destruct (getMeta (heap w) c l).
Qed.

(** The temp file of an append is not the file appended to. *)
Lemma tmp_ne_file (f : string) (t : Z) : f +:+ "." +:+ pretty t +:+ ".tmp" <> f.
Proof. apply app_ne_self. discriminate. Qed.

(** [appendNdjson] on a file system without faults. *)
Lemma appendNdjson_ok (f : string) (items : list value) (w : world) :
  no_faults w ->
  exists w1,
    appendNdjson f items w = (Returned tt, w1)
    /\ heap w1 = heap w /\ docs w1 = docs w /\ faults w1 = faults w
    /\ net w1 = net w /\ reqs w1 = reqs w /\ jitter w1 = jitter w
    /\ log w1 = log w /\ clock w1 = clock w
    /\ default [] (ndjson w1 !! f) = default [] (ndjson w !! f) ++ items.
Proof.
  intros Hnf. destruct items as [|it items].
  - exists w. cbn [appendNdjson]. unfold ret. rewrite app_nil_r. repeat split.
  - cbn [appendNdjson]. run. repeat (rewrite Hnf; rd).
    pose proof (tmp_ne_file f (clock w)) as Hne.
    rewrite lookup_insert_eq. rd. rewrite Hnf. rd.
    rewrite lookup_insert_ne by done. rewrite Hnf. rd.
    rewrite lookup_insert_ne, lookup_insert_eq by done.
    eexists. split; [reflexivity|]. rd. repeat split.
    now rewrite lookup_delete_ne, lookup_insert_eq by done.
Qed.

(** One request answered at once by an ok response. *)
Lemma attempt_once_ok (w : world) (url : string) (res : response) :
  net w (reqs w) url = Responds res -> ok res = true ->
  exists w1,
    attempt_once url w = (Returned res, w1)
    /\ same_store w w1 /\ reqs w1 = S (reqs w).
Proof.
  intros Hn Hok. unfold attempt_once. run.
  destruct (jitter w (reqs w) =? 0); rd; rewrite Hn; rd; rewrite Hok; rd;
    (eexists; split; [reflexivity|]; rd; repeat split).
Qed.

Lemma fetchWithRetry_ok (w : world) (url : string) (res : response)
  (retries : nat) (delay : Z) :
  net w (reqs w) url = Responds res -> ok res = true ->
  exists w1,
    fetchWithRetry url retries delay w = (Returned res, w1)
    /\ same_store w w1 /\ reqs w1 = S (reqs w).
Proof.
  intros Hn Hok. destruct (attempt_once_ok w url res Hn Hok) as (w1 & E & H1 & H2).
  exists w1. unfold fetchWithRetry.
  destruct retries; cbn [retry_loop]; unfold try_catch; rewrite E; auto.
Qed.

Lemma markUpdatedM_run (c : string) (l from' n : Z) (w : world) :
  markUpdatedM c l from' n w =
  (Returned tt,
   World (set_entry (heap w) c l (fun e => markUpdated e from' n (clock w)))
         (docs w) (ndjson w) (ios w) (faults w) (reqs w) (net w) (jitter w)
         (tmptag w) (clock w) (log w)).
Proof. unfold markUpdatedM. unfold bind, now. apply modify_entry_run. Qed.

Lemma markCompleteM_run (c : string) (l : Z) (w : world) :
  markCompleteM c l w =
  (Returned tt,
   World (set_entry (heap w) c l (fun e => markComplete e (clock w)))
         (docs w) (ndjson w) (ios w) (faults w) (reqs w) (net w) (jitter w)
         (tmptag w) (clock w) (log w)).
Proof. unfold markCompleteM. unfold bind, now. apply modify_entry_run. Qed.

(** One accepted page, on a file system without faults and a server that
    answers the request at once: the kept items are appended to the output
    file, the entry is updated with their number, the checkpoint is
    installed, and the loop goes on at the next offset with the updated
    set. *)
Lemma page_loop_accept (fuel : nat) (c : string) (l from' : Z) (seen : jsset)
  (w : world) (res : response) (json : value) :
  no_faults w ->
  totalPages (entry_of (heap w) c l) < MAX_PAGES_PER_LEVEL ->
  net w (reqs w) (buildUrl c l from') = Responds res -> ok res = true ->
  parsed res = Some json -> extractItems json <> [] ->
  exists w1 t,
    page_loop (S fuel) c l from' seen w =
    page_loop fuel c l (from' + PAGE_SIZE) (dedup seen (extractItems json)).2 w1
    /\ faults w1 = faults w /\ net w1 = net w
    /\ entry_of (heap w1) c l =
       markUpdated (entry_of (heap w) c l) (from' + PAGE_SIZE)
         (Z.of_nat (length (dedup seen (extractItems json)).1)) t
    /\ default [] (ndjson w1 !! file (entry_of (heap w) c l)) =
       default [] (ndjson w !! file (entry_of (heap w) c l))
       ++ (dedup seen (extractItems json)).1
    /\ docs w1 !! META_PATH = Some (Doc (heap w1)).
Proof.
  intros Hnf Hp Hn Hok Hj Hi.
  destruct (fetchWithRetry_ok w _ res MAX_RETRIES 800 Hn Hok)
    as (w0 & E0 & (Hh0 & Hd0 & Hnd0 & Hio0 & Hf0 & Hn0 & Hj0 & Ht0) & Hr0).
  cbn [page_loop]. unfold bind at 1, read_entry at 1, bind at 1, get_heap at 1.
  unfold ret at 1. fold (entry_of (heap w) c l).
  destruct (Z.geb_spec (totalPages (entry_of (heap w) c l)) MAX_PAGES_PER_LEVEL)
    as [?|_]; [lia|].
  unfold bind at 1. rewrite E0, Hj.
  destruct (extractItems json) as [|it items] eqn:Hitems; [done|].
  destruct (dedup seen (it :: items)) as [kept seen'] eqn:Hd. cbn [fst snd].
  unfold SAVE_TO_DISK.
  destruct (appendNdjson_ok (file (entry_of (heap w) c l)) kept w0)
    as (w2 & E2 & Hh2 & Hd2 & Hf2 & Hn2 & Hr2 & Hj2 & Hl2 & Hc2 & Hfile).
  { intros n. rewrite Hf0. apply Hnf. }
  unfold bind at 1. rewrite E2.
  unfold bind at 1. rewrite markUpdatedM_run. unfold bind at 1.
  match goal with |- context [saveMeta ?w'] =>
    destruct (bulk_saveMeta_ok w') as (w3 & E3 & He3 & Hd3 & _) end.
  { intros n. rd. rewrite Hf2, Hf0. apply Hnf. }
  rewrite E3. unfold bind at 1, sleep at 1.
  destruct He3 as (Hh3 & Hnd3 & Hf3 & Hn3 & Hr3 & Hj3 & Ht3). rdh Hh3. rdh Hd3.
  rdh Hnd3. rdh Hf3. rdh Hn3.
  eexists _, (clock w2). split; [reflexivity|]. rd.
  split; [congruence|]. split; [congruence|].
  split; [rewrite Hh3, Hh2, Hh0; apply entry_of_set_entry|].
  split; [rewrite Hnd3, Hfile, Hnd0; reflexivity|].
  now rewrite Hd3, Hh3.
Qed.

(** The empty page: the scope is marked completed, the checkpoint is
    installed, the loop ends. *)
Lemma page_loop_empty (fuel : nat) (c : string) (l from' : Z) (seen : jsset)
  (w : world) (res : response) (json : value) :
  no_faults w ->
  totalPages (entry_of (heap w) c l) < MAX_PAGES_PER_LEVEL ->
  net w (reqs w) (buildUrl c l from') = Responds res -> ok res = true ->
  parsed res = Some json -> extractItems json = [] ->
  exists w1 t,
    page_loop (S fuel) c l from' seen w = (Returned tt, w1)
    /\ entry_of (heap w1) c l = markComplete (entry_of (heap w) c l) t
    /\ ndjson w1 = ndjson w
    /\ docs w1 !! META_PATH = Some (Doc (heap w1)).
Proof.
  intros Hnf Hp Hn Hok Hj Hi.
  destruct (fetchWithRetry_ok w _ res MAX_RETRIES 800 Hn Hok)
    as (w0 & E0 & (Hh0 & Hd0 & Hnd0 & Hio0 & Hf0 & Hn0 & Hj0 & Ht0) & Hr0).
  cbn [page_loop]. unfold bind at 1, read_entry at 1, bind at 1, get_heap at 1.
  unfold ret at 1. fold (entry_of (heap w) c l).
  destruct (Z.geb_spec (totalPages (entry_of (heap w) c l)) MAX_PAGES_PER_LEVEL)
    as [?|_]; [lia|].
  unfold bind at 1. rewrite E0, Hj, Hi.
  unfold bind at 1. rewrite markCompleteM_run.
  match goal with |- context [saveMeta ?w'] =>
    destruct (bulk_saveMeta_ok w') as (w3 & E3 & He3 & Hd3 & _) end.
  { intros n. rd. rewrite Hf0. apply Hnf. }
  rewrite E3.
  destruct He3 as (Hh3 & Hnd3 & Hf3 & Hn3 & Hr3 & Hj3 & Ht3). rdh Hh3. rdh Hd3.
  rdh Hnd3.
  exists w3, (clock w0). split; [reflexivity|].
  split; [rewrite Hh3, Hh0; apply entry_of_set_entry|].
  split; [congruence|]. now rewrite Hd3, Hh3.
Qed.

(** The start of [fetchAllFor] for a scope at offset 0, on a file system
    without faults: no adjustment of the offset. *)
Lemma resume_offset_zero (c : string) (l : Z) (e : entry) (w : world) :
  no_faults w -> from e = 0 ->
  exists w1,
    resume_offset c l e w = (Returned 0, w1)
    /\ heap w1 = heap w /\ docs w1 = docs w /\ ndjson w1 = ndjson w
    /\ faults w1 = faults w /\ net w1 = net w.
Proof.
  intros Hnf H0. unfold resume_offset, restart_if_missing, align_with_file.
  rewrite H0. run. rewrite Hnf. rd.
  destruct (ndjson w !! file e); rd; (eexists; split; [reflexivity|]; repeat split).
Qed.

(** C5: a scope that starts at offset 0 and is served pages of 10, 10, 5
    and 0 items without duplicate identifiers ends with 25 items, three
    pages, offset 30 and the completed flag, in memory and in the installed
    checkpoint document; the output file has received the 25 items. *)
Theorem pages_10_10_5_0 (fuel : nat) (c : string) (l : Z) (w : world)
  (p1 p2 p3 : list value) :
  no_faults w ->
  entry_of (heap w) c l = fresh_entry c l ->
  Spec.serves w c l 0 p1 -> Spec.serves w c l 10 p2 ->
  Spec.serves w c l 20 p3 -> Spec.serves w c l 30 [] ->
  length p1 = 10%nat -> length p2 = 10%nat -> length p3 = 5%nat ->
  NoDup (omap idkey (p1 ++ p2 ++ p3)) ->
  exists e w1,
    fetchAllFor (4 + fuel) c l w = (Returned e, w1)
    /\ totalItems e = 25 /\ completed e = true /\ from e = 30
    /\ totalPages e = 3
    /\ entry_of (heap w1) c l = e
    /\ docs w1 !! META_PATH = Some (Doc (heap w1))
    /\ default [] (ndjson w1 !! level_file c l)
       = default [] (ndjson w !! level_file c l) ++ p1 ++ p2 ++ p3.
Proof.
  intros Hnf He0 (r1 & j1 & Hn1 & Hok1 & Hj1 & Hi1) (r2 & j2 & Hn2 & Hok2 & Hj2 & Hi2)
    (r3 & j3 & Hn3 & Hok3 & Hj3 & Hi3) (r4 & j4 & Hn4 & Hok4 & Hj4 & Hi4)
    Hl1 Hl2 Hl3 Hnd.
  rewrite !omap_app in Hnd.
  (* the three pages are kept whole *)
  destruct (dedup_all_new p1 []) as [K1 S1].
  { cbn [keys omap list_omap app]. now apply NoDup_app in Hnd as (? & _). }
  destruct (dedup_all_new p2 (dedup [] p1).2) as [K2 S2].
  { rewrite S1. cbn [keys omap list_omap app]. rewrite app_assoc in Hnd.
    now apply NoDup_app in Hnd as (? & _). }
  destruct (dedup_all_new p3 (dedup (dedup [] p1).2 p2).2) as [K3 _].
  { rewrite S2, S1. cbn [keys omap list_omap app]. now rewrite <- app_assoc. }
  (* the start of fetchAllFor *)
  unfold fetchAllFor. unfold bind at 1. rewrite getMetaM_run, He0.
  cbn [completed fresh_entry]. unfold bind at 1, mkdir at 1, bind at 1, io_fault at 1.
  rd. rewrite Hnf. unfold ret at 1. unfold bind at 1.
  match goal with |- context [resume_offset c l ?e ?w'] =>
    destruct (resume_offset_zero c l e w') as (wa & Ea & Hha & Hda & Hnda & Hfa & Hna);
      [intros n; apply Hnf | reflexivity |] end.
  rewrite Ea. rdh Hha. rdh Hda. rdh Hnda. rdh Hfa. rdh Hna.
  assert (Hea : entry_of (heap wa) c l = fresh_entry c l).
  { rewrite Hha, entry_of_getMeta. exact He0. }
  (* page 1 *)
  unfold bind at 1. cbn [Nat.add].
  destruct (page_loop_accept (3 + fuel) c l 0 [] wa r1 j1)
    as (w1 & t1 & E1 & Hf1 & Hnet1 & He1 & Hfile1 & _).
  { intros n. rewrite Hfa. apply Hnf. }
  { rewrite Hea. cbn. unfold MAX_PAGES_PER_LEVEL. lia. }
  { rewrite Hna. apply Hn1. }
  { exact Hok1. } { exact Hj1. } { rewrite Hi1. now destruct p1. }
  cbn [Nat.add] in E1. rewrite E1. clear E1. rewrite Hi1, K1 in *.
  change (0 + PAGE_SIZE) with 10 in *.
  (* page 2 *)
  destruct (page_loop_accept (2 + fuel) c l 10 (dedup [] p1).2 w1 r2 j2)
    as (w2 & t2 & E2 & Hf2 & Hnet2 & He2 & Hfile2 & _).
  { intros n. rewrite Hf1, Hfa. apply Hnf. }
  { rewrite He1, Hea. cbn. unfold MAX_PAGES_PER_LEVEL. lia. }
  { rewrite Hnet1, Hna. apply Hn2. }
  { exact Hok2. } { exact Hj2. } { rewrite Hi2. now destruct p2. }
  cbn [Nat.add] in E2. rewrite E2. clear E2. rewrite Hi2, K2 in *.
  change (10 + PAGE_SIZE) with 20 in *.
  (* page 3 *)
  destruct (page_loop_accept (1 + fuel) c l 20 (dedup (dedup [] p1).2 p2).2 w2 r3 j3)
    as (w3 & t3 & E3 & Hf3 & Hnet3 & He3 & Hfile3 & _).
  { intros n. rewrite Hf2, Hf1, Hfa. apply Hnf. }
  { rewrite He2, He1, Hea. cbn. unfold MAX_PAGES_PER_LEVEL. lia. }
  { rewrite Hnet2, Hnet1, Hna. apply Hn3. }
  { exact Hok3. } { exact Hj3. } { rewrite Hi3. now destruct p3. }
  cbn [Nat.add] in E3. rewrite E3. clear E3. rewrite Hi3, K3 in *.
  change (20 + PAGE_SIZE) with 30 in *.
  (* the empty page *)
  destruct (page_loop_empty fuel c l 30 (dedup (dedup (dedup [] p1).2 p2).2 p3).2 w3 r4 j4)
    as (w4 & t4 & E4 & He4 & Hnd4 & Hd4).
  { intros n. rewrite Hf3, Hf2, Hf1, Hfa. apply Hnf. }
  { rewrite He3, He2, He1, Hea. cbn. unfold MAX_PAGES_PER_LEVEL. lia. }
  { rewrite Hnet3, Hnet2, Hnet1, Hna. apply Hn4. }
  { exact Hok4. } { exact Hj4. } { exact Hi4. }
  rewrite E4. unfold read_entry, bind, get_heap, ret.
  fold (entry_of (heap w4) c l).
  exists (entry_of (heap w4) c l), w4. split; [reflexivity|].
  rewrite He4, He3, He2, He1, Hea, Hl1, Hl2, Hl3.
  cbn [markComplete markUpdated fresh_entry totalItems completed from totalPages file].
  repeat split; try reflexivity; try exact Hd4.
  rewrite Hnd4.
  rewrite He2, He1, Hea in Hfile3. rewrite He1, Hea in Hfile2. rewrite Hea in Hfile1.
  cbn [markUpdated fresh_entry file] in Hfile1, Hfile2, Hfile3.
  rewrite Hfile3, Hfile2, Hfile1, Hnda. now rewrite <- !app_assoc.
Qed.

Lemma pages_10_10_5_0_witness :
  exists e w1,
    fetchAllFor (4 + 0) "DEU" 3 Scenario.bulk_pages = (Returned e, w1)
    /\ totalItems e = 25 /\ completed e = true /\ from e = 30
    /\ totalPages e = 3
    /\ entry_of (heap w1) "DEU" 3 = e
    /\ docs w1 !! META_PATH = Some (Doc (heap w1))
    /\ default [] (ndjson w1 !! level_file "DEU" 3)
       = default [] (ndjson Scenario.bulk_pages !! level_file "DEU" 3)
         ++ Scenario.page1 ++ Scenario.page2 ++ Scenario.page3.
Proof.
  apply (pages_10_10_5_0 0 "DEU" 3 Scenario.bulk_pages
           Scenario.page1 Scenario.page2 Scenario.page3).
  - intros n. reflexivity.
  - vm_compute. reflexivity.
  - exists (Scenario.page Scenario.page1), (VObj [("items", VArr Scenario.page1)]).
    repeat split.
  - exists (Scenario.page Scenario.page2), (VObj [("items", VArr Scenario.page2)]).
    repeat split.
  - exists (Scenario.page Scenario.page3), (VObj [("items", VArr Scenario.page3)]).
    repeat split.
  - exists (Scenario.page []), (VObj [("items", VArr [])]).
    repeat split.
  - reflexivity.
  - reflexivity.
  - reflexivity.
  - apply (bool_decide_unpack _). vm_compute. exact I.
Defined.






(** *** The offsets the bulk fetcher persists *)

Lemma saved_froms_app (c : string) (l : Z) (l1 l2 : list (event meta)) :
  saved_froms c l (l1 ++ l2) = saved_froms c l l1 ++ saved_froms c l l2.
Proof. unfold saved_froms. now rewrite renamed_onto_app, omap_app. Qed.

Lemma quiet_ret {A} (a : A) : quiet (ret a).
Proof. intros w. split; [reflexivity|]. exists []. now rewrite app_nil_r. Qed.

Lemma quiet_throw {A} (e : error) : quiet (throw (A:=A) e).
Proof. intros w. split; [reflexivity|]. exists []. now rewrite app_nil_r. Qed.

Lemma quiet_bind {A B} (op : M A) (k : A -> M B) :
  quiet op -> (forall a, quiet (k a)) -> quiet (bind op k).
Proof.
  intros Hop Hk w. unfold bind. destruct (Hop w) as (Hh & new & Hl & Hr).
  destruct (op w) as [[a|e|] w1]; cbn [snd] in *.
  - destruct (Hk a w1) as (Hh' & new' & Hl' & Hr').
    split; [congruence|]. exists (new ++ new').
    rewrite Hl', Hl, renamed_onto_app, Hr, Hr', app_assoc. auto.
  - eauto.
  - eauto.
Qed.

Lemma quiet_try_catch {A} (op : M A) (h : error -> M A) :
  quiet op -> (forall e, quiet (h e)) -> quiet (try_catch op h).
Proof.
  intros Hop Hh w. unfold try_catch. destruct (Hop w) as (Hh0 & new & Hl & Hr).
  destruct (op w) as [[a|e|] w1]; cbn [snd] in *.
  - eauto.
  - destruct (Hh e w1) as (Hh' & new' & Hl' & Hr').
    split; [congruence|]. exists (new ++ new').
    rewrite Hl', Hl, renamed_onto_app, Hr, Hr', app_assoc. auto.
  - eauto.
Qed.

Lemma quiet_io_fault : quiet io_fault.
Proof. intros w. split; [reflexivity|]. exists []. cbn. now rewrite app_nil_r. Qed.

Lemma quiet_sleep (ms : Z) : quiet (sleep ms).
Proof. intros w. split; [reflexivity|]. exists [EvSleep ms]. auto. Qed.

Lemma quiet_warn (msg : string) : quiet (warn msg).
Proof. intros w. split; [reflexivity|]. exists [EvWarn msg]. auto. Qed.

Lemma quiet_now : quiet now.
Proof. intros w. split; [reflexivity|]. exists []. cbn. now rewrite app_nil_r. Qed.

Lemma quiet_fetch (url : string) : quiet (fetch url).
Proof.
  intros w. unfold fetch. destruct (net w (reqs w) url);
    (split; [reflexivity|]; exists [EvFetch url]; auto).
Qed.

(** An operation given as a function on worlds that only changes the
    record files. *)
Lemma quiet_lines {A} (op : M A) :
  (forall w, heap (op w).2 = heap w /\ log (op w).2 = log w) -> quiet op.
Proof.
  intros H w. destruct (H w) as [Hh Hl]. split; [exact Hh|].
  exists []. now rewrite Hl, app_nil_r.
Qed.

Lemma quiet_access (path : string) : quiet (access path).
Proof.
  apply quiet_lines. intros w. unfold access. run.
  destruct (faults w (ios w)); rd; [auto|]. destruct (ndjson w !! path); auto.
Qed.

Lemma quiet_readLines (path : string) : quiet (readLines path).
Proof.
  apply quiet_lines. intros w. unfold readLines. run.
  destruct (faults w (ios w)); rd; [auto|]. destruct (ndjson w !! path); auto.
Qed.

Lemma quiet_writeLines (path : string) (l : list value) : quiet (writeLines path l).
Proof.
  apply quiet_lines. intros w. unfold writeLines. run.
  destruct (faults w (ios w)); rd; auto.
Qed.

Lemma quiet_appendLines (path : string) (l : list value) : quiet (appendLines path l).
Proof.
  apply quiet_lines. intros w. unfold appendLines. run.
  destruct (faults w (ios w)); rd; auto.
Qed.

Lemma quiet_unlinkLines (path : string) : quiet (unlinkLines path).
Proof.
  apply quiet_lines. intros w. unfold unlinkLines. run.
  destruct (faults w (ios w)); rd; [auto|]. destruct (ndjson w !! path); auto.
Qed.

Lemma quiet_attempt_once (url : string) : quiet (attempt_once url).
Proof.
  unfold attempt_once. apply quiet_bind.
  { intros w. split; [reflexivity|]. exists [EvAcquire]. auto. }
  intros _. apply quiet_bind.
  { intros w. split; [reflexivity|]. exists []. cbn. now rewrite app_nil_r. }
  intros j. apply quiet_bind.
  { destruct (j =? 0); [apply quiet_ret | apply quiet_sleep]. }
  intros _. apply quiet_bind; [apply quiet_fetch|].
  intros res. destruct (negb (ok res)); [|apply quiet_ret].
  destruct (_ || _); apply quiet_throw.
Qed.

Lemma quiet_retry_loop (url : string) (delay : Z) (remaining : nat) :
  forall attempt, quiet (retry_loop url delay attempt remaining).
Proof.
  induction remaining as [|r IH]; intros attempt; cbn [retry_loop];
    (apply quiet_try_catch; [apply quiet_attempt_once|]); intros e.
  - apply quiet_throw.
  - apply quiet_bind; [apply quiet_sleep | intros _; apply IH].
Qed.

Lemma quiet_appendNdjson (f : string) (items : list value) :
  quiet (appendNdjson f items).
Proof.
  destruct items as [|it items]; cbn [appendNdjson]; [apply quiet_ret|].
  apply quiet_bind; [apply quiet_now|]. intros t.
  apply quiet_bind; [apply quiet_writeLines|]. intros _.
  apply quiet_bind; [apply quiet_readLines|]. intros data.
  apply quiet_bind; [apply quiet_appendLines|]. intros _.
  apply quiet_unlinkLines.
Qed.

(** What [saveMeta] adds to the offsets persisted for a scope: the offset
    that the heap has for it, or nothing. *)
Lemma saveMeta_saved_from (c : string) (l : Z) (w : world) :
  heap (saveMeta w).2 = heap w /\
  exists new,
    log (saveMeta w).2 = log w ++ new
    /\ (saved_froms c l new = [from (entry_of (heap w) c l)]
        \/ saved_froms c l new = []).
Proof.
  destruct (bulk_saveMeta_spec w) as (w1 & new & E & He & _ & Hl & Hk).
  rewrite E. cbn [snd]. split; [apply He|]. exists new. split; [exact Hl|].
  unfold saved_froms. destruct Hk as [[_ K]|[_ K]]; rewrite K; auto.
Qed.

Lemma sorted_one (x : Z) : StronglySorted Z.le [x].
Proof. repeat constructor. Qed.

Lemma sorted_same (x : Z) : StronglySorted Z.le [x; x].
Proof. repeat constructor. lia. Qed.

Lemma sorted_raise (x y : Z) (rest : list Z) :
  x <= y -> StronglySorted Z.le (y :: rest) ->
  StronglySorted Z.le (x :: rest) /\ StronglySorted Z.le (x :: y :: rest).
Proof.
  intros Hxy Hs. pose proof (StronglySorted_inv Hs) as [Hr Hall].
  assert (Hx : Forall (Z.le x) rest).
  { eapply Forall_impl; [exact Hall|]. intros z Hz. cbn in Hz. lia. }
  split; [constructor; assumption|].
  constructor; [assumption|]. constructor; assumption.
Qed.

(** The end of a scope: [markComplete] keeps the offset, so the save that
    follows persists the offset the loop is at, or nothing. *)
Lemma complete_and_save_sorted (c : string) (l from' : Z) (w : world) :
  from (entry_of (heap w) c l) = from' ->
  exists new,
    log ((markCompleteM c l ;; saveMeta)%eff w).2 = log w ++ new
    /\ StronglySorted Z.le (from' :: saved_froms c l new).
Proof.
  intros Hf. unfold bind. rewrite markCompleteM_run.
  match goal with |- context [saveMeta ?w'] =>
    destruct (saveMeta_saved_from c l w') as (_ & new & Hl & Hs) end.
  rdh Hl. rdh Hs. rewrite entry_of_set_entry in Hs. cbn [markComplete from] in Hs.
  exists new. split; [exact Hl|].
  destruct Hs as [-> | ->]; rewrite ?Hf; [apply sorted_same | apply sorted_one].
Qed.

(** Within the page loop the offsets persisted for the scope start at the
    loop's offset and never decrease. *)
Lemma page_loop_saves_sorted (c : string) (l : Z) (fuel : nat) :
  forall (from' : Z) (seen : jsset) (w : world),
    from (entry_of (heap w) c l) = from' ->
    exists new,
      log (page_loop fuel c l from' seen w).2 = log w ++ new
      /\ StronglySorted Z.le (from' :: saved_froms c l new).
Proof.
  induction fuel as [|fuel IH]; intros from' seen w Hf.
  - exists []. cbn. rewrite app_nil_r. split; [reflexivity | apply sorted_one].
  - cbn [page_loop]. unfold bind at 1, read_entry at 1, bind at 1, get_heap at 1.
    unfold ret at 1. fold (entry_of (heap w) c l).
    destruct (totalPages (entry_of (heap w) c l) >=? MAX_PAGES_PER_LEVEL).
    + unfold bind at 1, warn at 1, emit at 1, emit_w at 1.
      match goal with |- context [(markCompleteM c l ;; saveMeta)%eff ?w'] =>
        destruct (complete_and_save_sorted c l from' w' Hf) as (new & Hl & Hs) end.
      rdh Hl. eexists (_ :: new). split; [rewrite Hl, <- app_assoc; reflexivity|].
      exact Hs.
    + unfold bind at 1.
      destruct (quiet_retry_loop (buildUrl c l from') 800 MAX_RETRIES 0 w)
        as (Hh0 & new0 & Hl0 & Hr0).
      fold (fetchWithRetry (buildUrl c l from') MAX_RETRIES 800) in Hh0, Hl0.
      assert (Hs0 : saved_froms c l new0 = []) by (unfold saved_froms; now rewrite Hr0).
      destruct (fetchWithRetry (buildUrl c l from') MAX_RETRIES 800 w)
        as [[res|e|] w0]; cbn [snd] in Hh0, Hl0;
        [| exists new0; rewrite Hs0; split; [exact Hl0 | apply sorted_one]..].
      destruct (parsed res) as [json|].
      2:{ unfold warn, emit, emit_w. rd. eexists (new0 ++ [_]).
          rewrite Hl0, saved_froms_app, Hs0, <- app_assoc.
          split; [reflexivity | apply sorted_one]. }
      destruct (extractItems json) as [|it items].
      { destruct (complete_and_save_sorted c l from' w0) as (new & Hl & Hs);
          [now rewrite Hh0|].
        exists (new0 ++ new). rewrite Hl, Hl0, saved_froms_app, Hs0, <- app_assoc.
        split; [reflexivity | exact Hs]. }
      destruct (dedup seen (it :: items)) as [kept seen']. unfold SAVE_TO_DISK.
      unfold bind at 1.
      destruct (quiet_appendNdjson (file (entry_of (heap w) c l)) kept w0)
        as (Hh1 & new1 & Hl1 & Hr1).
      assert (Hs1 : saved_froms c l new1 = []) by (unfold saved_froms; now rewrite Hr1).
      destruct (appendNdjson (file (entry_of (heap w) c l)) kept w0)
        as [[[]|e|] w1]; cbn [snd] in Hh1, Hl1;
        [| exists (new0 ++ new1); cbn [snd];
           rewrite Hl1, Hl0, saved_froms_app, Hs0, Hs1, <- app_assoc;
           split; [reflexivity | apply sorted_one]..].
      unfold bind at 1. rewrite markUpdatedM_run. unfold bind at 1.
      match goal with |- context [saveMeta ?w'] =>
        destruct (saveMeta_saved_from c l w') as (Hh2 & new2 & Hl2 & Hs2);
        destruct (saveMeta w') as [[[]|e|] w2] end; cbn [snd] in Hh2, Hl2;
        rdh Hh2; rdh Hl2; rdh Hs2;
        rewrite entry_of_set_entry in Hs2; cbn [markUpdated from] in Hs2.
      * unfold bind at 1, sleep at 1.
        match goal with |- context [page_loop fuel c l _ seen' ?w'] =>
          destruct (IH (from' + PAGE_SIZE) seen' w') as (new3 & Hl3 & Hs3) end.
        { rd. rewrite Hh2, entry_of_set_entry. reflexivity. }
        rdh Hl3.
        exists (new0 ++ new1 ++ new2 ++ [EvSleep 150] ++ new3).
        split; [rewrite Hl3, Hl2, Hl1, Hl0, <- !app_assoc; reflexivity|].
        rewrite !saved_froms_app, Hs0, Hs1. cbn [app].
        change (saved_froms c l [EvSleep 150]) with (@nil Z). cbn [app].
        assert (Hle : from' <= from' + PAGE_SIZE) by (unfold PAGE_SIZE; lia).
        destruct (sorted_raise _ _ _ Hle Hs3) as [S1 S2].
        destruct Hs2 as [-> | ->]; cbn [app]; assumption.
      * exists (new0 ++ new1 ++ new2). cbn [snd].
        split; [rewrite Hl2, Hl1, Hl0, <- !app_assoc; reflexivity|].
        rewrite !saved_froms_app, Hs0, Hs1. cbn [app].
        destruct Hs2 as [-> | ->]; [|apply sorted_one].
        repeat constructor. unfold PAGE_SIZE. lia.
      * exists (new0 ++ new1 ++ new2). cbn [snd].
        split; [rewrite Hl2, Hl1, Hl0, <- !app_assoc; reflexivity|].
        rewrite !saved_froms_app, Hs0, Hs1. cbn [app].
        destruct Hs2 as [-> | ->]; [|apply sorted_one].
        repeat constructor. unfold PAGE_SIZE. lia.
Qed.

(** A reset persists the offset it sets, or nothing. *)
Lemma reset_offset_run (c : string) (l : Z) (msg : string) (x : Z) (w : world) :
  exists w1 new,
    reset_offset c l msg x w = (Returned x, w1)
    /\ log w1 = log w ++ new
    /\ (saved_froms c l new = [x] \/ saved_froms c l new = [])
    /\ ndjson w1 = ndjson w.
Proof.
  unfold reset_offset. unfold bind at 1, warn at 1, emit at 1, emit_w at 1.
  unfold bind at 1. rewrite modify_entry_run. unfold bind at 1.
  match goal with |- context [saveMeta ?w'] =>
    destruct (bulk_saveMeta_spec w') as (w1 & new & E & He & _ & Hl & Hk) end.
  rewrite E. unfold ret. rdh Hl. exists w1, (EvWarn msg :: new).
  split; [reflexivity|]. split; [rewrite Hl, <- app_assoc; reflexivity|].
  split; [|apply He].
  change (saved_froms c l (EvWarn msg :: new)) with (saved_froms c l new).
  unfold saved_froms. destruct Hk as [[_ K]|[_ K]]; rewrite K; [left|right; reflexivity].
  cbn [omap list_omap]. rd. now rewrite entry_of_set_entry.
Qed.

(** The restart for a missing file persists 0, or nothing. *)
Lemma restart_if_missing_saves (c : string) (l : Z) (e : entry) (w : world) :
  exists r w1 new,
    restart_if_missing c l e w = (r, w1)
    /\ log w1 = log w ++ new
    /\ (saved_froms c l new = [0] \/ saved_froms c l new = [])
    /\ ndjson w1 = ndjson w.
Proof.
  unfold restart_if_missing.
  assert (Hmiss : forall w', log w' = log w -> ndjson w' = ndjson w ->
            exists r w1 new,
              (if from e >? 0
               then reset_offset c l
                      (file e +:+ " missing but resume 'from'=" +:+ pretty (from e)
                       +:+ ". Restarting level from 0.") 0
               else ret (from e)) w' = (r, w1)
              /\ log w1 = log w ++ new
              /\ (saved_froms c l new = [0] \/ saved_froms c l new = [])
              /\ ndjson w1 = ndjson w).
  { intros w' Hl' Hn'. destruct (from e >? 0).
    - destruct (reset_offset_run c l
                  (file e +:+ " missing but resume 'from'=" +:+ pretty (from e)
                   +:+ ". Restarting level from 0.") 0 w')
        as (w1 & new & E & Hl & Hs & Hn).
      exists (Returned 0), w1, new. rewrite E, Hl, Hl', Hn, Hn'. auto.
    - exists (Returned (from e)), w', []. unfold ret.
      rewrite Hl', Hn', app_nil_r. auto. }
  unfold try_catch, bind at 1, access at 1, bind at 1, io_fault at 1. rd.
  destruct (faults w (ios w)) as [code|]; cbv beta iota.
  { unfold throw at 1. apply Hmiss; reflexivity. }
  rd. destruct (ndjson w !! file e); rd.
  - unfold ret. eexists _, _, []. split; [reflexivity|]. rd.
    rewrite app_nil_r. auto.
  - apply Hmiss; reflexivity.
Qed.

(** [inferFromFromFile] returns 0 or the realigned offset, and changes
    neither log nor record files. *)
Lemma inferFromFromFile_run (f : string) (w : world) :
  exists x w1,
    inferFromFromFile f w = (Returned x, w1)
    /\ (x = 0 \/ x = Z.of_nat (length (default [] (ndjson w !! f))) / PAGE_SIZE * PAGE_SIZE)
    /\ log w1 = log w /\ ndjson w1 = ndjson w.
Proof.
  unfold inferFromFromFile. run. destruct (faults w (ios w)); rd.
  - eexists _, _. split; [reflexivity|]. rd. auto.
  - destruct (ndjson w !! f); rd; (eexists _, _; split; [reflexivity|]; rd; auto).
Qed.

(** The realignment persists 0 or the realigned offset, or nothing. *)
Lemma align_with_file_saves (c : string) (l : Z) (e : entry) (from1 : Z) (w : world) :
  exists r w1 new,
    align_with_file c l e from1 w = (r, w1)
    /\ log w1 = log w ++ new
    /\ Forall (fun x => x = 0 \/ x = realigned w e) (saved_froms c l new).
Proof.
  unfold align_with_file. destruct (from1 >? 0).
  2:{ exists (Returned from1), w, []. unfold ret. rewrite app_nil_r.
      repeat split. constructor. }
  unfold bind at 1.
  destruct (inferFromFromFile_run (file e) w) as (x & w1 & E & Hx & Hl & Hn).
  rewrite E. destruct (negb (x =? from1)).
  2:{ exists (Returned from1), w1, []. unfold ret. rewrite Hl, app_nil_r.
      repeat split. constructor. }
  match goal with |- context [reset_offset c l ?msg x w1] =>
    destruct (reset_offset_run c l msg x w1) as (w2 & new & E2 & Hl2 & Hs2 & _) end.
  exists (Returned x), w2, new. rewrite E2, Hl2, Hl.
  split; [reflexivity|]. split; [reflexivity|].
  destruct Hs2 as [-> | ->]; constructor; [exact Hx | constructor].
Qed.

(** The resume-time adjustments persist 0 or the realigned offset,
    whatever offset was recorded. *)
Lemma resume_offset_saves (c : string) (l : Z) (e : entry) (w : world) :
  exists new,
    log (resume_offset c l e w).2 = log w ++ new
    /\ Forall (fun x => x = 0 \/ x = realigned w e) (saved_froms c l new).
Proof.
  unfold resume_offset, bind.
  destruct (restart_if_missing_saves c l e w) as (r & w1 & new & E & Hl & Hs & Hn).
  rewrite E. destruct r as [from1|err|]; cbn [snd].
  - destruct (align_with_file_saves c l e from1 w1) as (r2 & w2 & new2 & E2 & Hl2 & Hs2).
    rewrite E2. cbn [snd]. exists (new ++ new2).
    rewrite Hl2, Hl, app_assoc, saved_froms_app. split; [reflexivity|].
    assert (Hre : realigned w1 e = realigned w e) by (unfold realigned; now rewrite Hn).
    rewrite Hre in Hs2. apply Forall_app. split; [|exact Hs2].
    destruct Hs as [-> | ->]; repeat constructor.
  - exists new. split; [exact Hl|]. destruct Hs as [-> | ->]; repeat constructor.
  - exists new. split; [exact Hl|]. destruct Hs as [-> | ->]; repeat constructor.
Qed.

(** C1, as the code has it: within the page loop of one call of
    [fetchAllFor] the offsets persisted for the scope start at the loop's
    offset and never decrease, whatever the network and the file system do;
    the resume-time adjustments before the loop are resets: what they
    persist is 0 or the line count of the output file rounded down to a
    multiple of the page size, whatever offset was recorded. *)
Theorem offsets_monotone_in_page_loop (fuel : nat) (c : string) (l from' : Z)
  (seen : jsset) (w : world) (e : entry) :
  from (entry_of (heap w) c l) = from' ->
  (exists new,
     log (page_loop fuel c l from' seen w).2 = log w ++ new
     /\ StronglySorted Z.le (from' :: saved_froms c l new))
  /\ (exists new,
        log (resume_offset c l e w).2 = log w ++ new
        /\ Forall (fun x => x = 0 \/ x = realigned w e) (saved_froms c l new)).
Proof.
  intros Hf. split.
  - apply page_loop_saves_sorted. exact Hf.
  - apply resume_offset_saves.
Qed.

Lemma offsets_monotone_in_page_loop_witness :
  (exists new,
     log (page_loop 4 "DEU" 3 0 [] Scenario.bulk_pages).2
     = log Scenario.bulk_pages ++ new
     /\ StronglySorted Z.le (0 :: saved_froms "DEU" 3 new))
  /\ (exists new,
        log (resume_offset "DEU" 3 (fresh_entry "DEU" 3) Scenario.bulk_pages).2
        = log Scenario.bulk_pages ++ new
        /\ Forall (fun x => x = 0
                            \/ x = realigned Scenario.bulk_pages (fresh_entry "DEU" 3))
             (saved_froms "DEU" 3 new)).
Proof.
  apply (offsets_monotone_in_page_loop 4 "DEU" 3 0 [] Scenario.bulk_pages
           (fresh_entry "DEU" 3)).
  vm_compute. reflexivity.
Defined.

(** C1, counterexample: a scope whose persisted offset is 20 is resumed.
    When its output file is missing, the next two documents installed give
    it offset 0; the same happens when the file has five lines. *)
Lemma resume_lowers_persisted_offset :
  docs Scenario.bulk_file_missing !! META_PATH = Some (Doc Scenario.doc_at_20)
  /\ from (entry_of Scenario.doc_at_20 "DEU" 3) = 20
  /\ saved_froms "DEU" 3 (log (fetchAllFor 5 "DEU" 3 Scenario.bulk_file_missing).2)
     = [0; 0]
  /\ docs Scenario.bulk_file_short !! META_PATH = Some (Doc Scenario.doc_at_20)
  /\ saved_froms "DEU" 3 (log (fetchAllFor 5 "DEU" 3 Scenario.bulk_file_short).2)
     = [0; 0].
Proof. repeat split; vm_compute; reflexivity. Qed.

End Pagination.

(* ===================================================================== *)
(** ** Warm restarts                                                      *)
(* ===================================================================== *)

Section Restart.
Import Js Eff.
#[local] Open Scope string_scope.
#[local] Open Scope list_scope.
#[local] Open Scope Z_scope.

Section Keeps.
Context {H D : Type}.
Implicit Types w : world H D.

Lemma keeps_ret {A} (a : A) : keeps_lines (H:=H) (D:=D) (ret a).
Proof. intros w. reflexivity. Qed.

Lemma keeps_throw {A} (e : error) : keeps_lines (H:=H) (D:=D) (throw (A:=A) e).
Proof. intros w. reflexivity. Qed.

Lemma keeps_bind {A B} (op : M (H:=H) (D:=D) A) (k : A -> M B) :
  keeps_lines op -> (forall a, keeps_lines (k a)) -> keeps_lines (bind op k).
Proof.
  intros Hop Hk w. unfold bind. pose proof (Hop w) as Hw.
  destruct (op w) as [[a|e|] w1]; cbn [snd] in *; [|assumption..].
  now rewrite (Hk a w1).
Qed.

Lemma keeps_try_catch {A} (op : M (H:=H) (D:=D) A) (h : error -> M A) :
  keeps_lines op -> (forall e, keeps_lines (h e)) -> keeps_lines (try_catch op h).
Proof.
  intros Hop Hh w. unfold try_catch. pose proof (Hop w) as Hw.
  destruct (op w) as [[a|e|] w1]; cbn [snd] in *; [assumption| |assumption].
  now rewrite (Hh e w1).
Qed.

Lemma keeps_io_fault : keeps_lines (H:=H) (D:=D) io_fault.
Proof. intros w. reflexivity. Qed.

Lemma keeps_sleep (ms : Z) : keeps_lines (H:=H) (D:=D) (sleep ms).
Proof. intros w. reflexivity. Qed.

Lemma keeps_emit (e : event D) : keeps_lines (H:=H) (emit e).
Proof. intros w. reflexivity. Qed.

Lemma keeps_fetch (url : string) : keeps_lines (H:=H) (D:=D) (fetch url).
Proof. intros w. unfold fetch. now destruct (net w (reqs w) url). Qed.

Lemma keeps_writeFile (path : string) (d : D) : keeps_lines (H:=H) (writeFile path d).
Proof. intros w. unfold writeFile. run. now destruct (faults w (ios w)). Qed.

Lemma keeps_readDoc (path : string) : keeps_lines (H:=H) (D:=D) (readDoc path).
Proof.
  intros w. unfold readDoc. run. destruct (faults w (ios w)); rd; [reflexivity|].
  now destruct (docs w !! path) as [[d|]|].
Qed.

Lemma keeps_readLines (path : string) : keeps_lines (H:=H) (D:=D) (readLines path).
Proof.
  intros w. unfold readLines. run. destruct (faults w (ios w)); rd; [reflexivity|].
  now destruct (ndjson w !! path).
Qed.

End Keeps.

Lemma keeps_page_retry (url : string) (remaining : nat) :
  forall attempt, keeps_lines (Levels.page_retry url attempt remaining).
Proof.
  induction remaining as [|r IH]; intros attempt; cbn [Levels.page_retry];
    [apply keeps_ret|].
  apply keeps_bind; [|intros [res|]; [apply keeps_ret | apply IH]].
  apply keeps_try_catch.
  - apply keeps_bind; [apply keeps_fetch|]. intros res.
    destruct (status res =? 200).
    + destruct (parsed res); [apply keeps_ret | apply keeps_throw].
    + apply keeps_bind; [apply keeps_emit|]. intros _.
      apply keeps_bind; [apply keeps_sleep | intros _; apply keeps_ret].
  - intros e. apply keeps_bind; [apply keeps_emit|]. intros _.
    apply keeps_bind; [apply keeps_sleep | intros _; apply keeps_ret].
Qed.

Lemma keeps_saveIndex (level : Z) (s : jsset) : keeps_lines (Levels.saveIndex level s).
Proof. apply keeps_writeFile. Qed.

Lemma keeps_saveProgress (level : Z) (p : Levels.progress) :
  keeps_lines (Levels.saveProgress level p).
Proof. apply keeps_writeFile. Qed.

Lemma keeps_regenerate (level lastFrom : Z) :
  keeps_lines (Levels.regenerateFinalJson level lastFrom).
Proof.
  unfold Levels.regenerateFinalJson. apply keeps_bind; [intros w; reflexivity|].
  intros there. destruct (negb there); [apply keeps_writeFile|].
  apply keeps_bind; [apply keeps_readLines|]. intros lines.
  apply keeps_bind; [apply keeps_writeFile|]. intros _.
  apply keeps_bind; [apply keeps_readDoc|]. intros d. apply keeps_writeFile.
Qed.

Lemma set_has_add (s : jsset) (u v : value) :
  set_has s v = true -> set_has (set_add s u) v = true.
Proof.
  unfold set_add. destruct (set_has s u); [auto|].
  unfold set_has. destruct (key_of v) as [p|]; [|discriminate].
  rewrite !bool_decide_eq_true. unfold keys. rewrite omap_app. set_solver.
Qed.

(** What [appendUniqueCoursesToNdjson] writes was not in the set, and the
    set only grows. *)
Lemma unique_courses_fresh (courses : list value) :
  forall uriSet : jsset,
    Forall (fun c => set_has uriSet (uri_of c) = false)
           (Levels.unique_courses courses uriSet).1
    /\ (forall v, set_has uriSet v = true ->
                  set_has (Levels.unique_courses courses uriSet).2 v = true).
Proof.
  induction courses as [|c rest IH]; intros uriSet; cbn [Levels.unique_courses].
  - split; [constructor | auto].
  - fold (uri_of c). destruct (truthy (uri_of c)); cbn [negb]; [|apply IH].
    destruct (set_has uriSet (uri_of c)) eqn:Hhas; [apply IH|].
    destruct (IH (set_add uriSet (uri_of c))) as [Hw Hs].
    destruct (Levels.unique_courses rest (set_add uriSet (uri_of c)))
      as [written uriSet']. cbn [fst snd] in *. split.
    + constructor; [exact Hhas|].
      eapply Forall_impl; [exact Hw|]. intros x Hx. cbn in Hx.
      destruct (set_has uriSet (uri_of x)) eqn:Hx'; [|reflexivity].
      now rewrite (set_has_add _ _ _ Hx') in Hx.
    + intros v Hv. apply Hs. now apply set_has_add.
Qed.

(** What a run of the level loop appends to the output file: nothing that
    the URI set it starts with has. *)
Lemma level_loop_appends_fresh (level : Z) (fuel : nat) :
  forall (from' total : Z) (uriSet : jsset) (w : Levels.world),
    exists added,
      default [] (ndjson (Levels.level_loop fuel level from' total uriSet w).2
                    !! Levels.ndjsonPathFor level)
      = default [] (ndjson w !! Levels.ndjsonPathFor level) ++ added
      /\ Forall (fun c => set_has uriSet (uri_of c) = false) added.
Proof.
  induction fuel as [|fuel IH]; intros from' total uriSet w.
  - exists []. cbn. now rewrite app_nil_r.
  - cbn [Levels.level_loop].
    assert (Hsame : forall (A : Type) (op : Levels.M A) (w' : Levels.world),
              keeps_lines op -> ndjson w' = ndjson w ->
              exists added,
                default [] (ndjson (op w').2 !! Levels.ndjsonPathFor level)
                = default [] (ndjson w !! Levels.ndjsonPathFor level) ++ added
                /\ Forall (fun c => set_has uriSet (uri_of c) = false) added).
    { intros A op w' Hk Hw'. exists []. rewrite Hk, Hw', app_nil_r. auto. }
    unfold bind at 1.
    pose proof (keeps_page_retry (Levels.buildUrl level from') Levels.MAX_RETRIES 0 w)
      as Hk0.
    fold (Levels.fetchPageWithRetry (Levels.buildUrl level from')) in Hk0.
    destruct (Levels.fetchPageWithRetry (Levels.buildUrl level from') w)
      as [[[data st|err]|e|] w0]; cbn [snd] in Hk0;
      [| | exists []; cbn [snd]; rewrite Hk0, app_nil_r; auto..].
    2:{ apply Hsame; [|exact Hk0].
        apply keeps_bind; [apply keeps_emit|]. intros _.
        apply keeps_bind; [apply keeps_saveProgress|]. intros _.
        apply keeps_bind; [apply keeps_saveIndex | intros _; apply keeps_ret]. }
    destruct (nullish data); [apply Hsame; [apply keeps_throw | exact Hk0]|].
    destruct (prop data "courses") as [| | | | |courses|];
      try (apply Hsame; [|exact Hk0];
           apply keeps_bind; [apply keeps_emit|]; intros _;
           apply keeps_bind; [apply keeps_saveProgress|]; intros _;
           apply keeps_bind; [apply keeps_saveIndex | intros _; apply keeps_ret]).
    destruct courses as [|c0 rest].
    { apply Hsame; [|exact Hk0].
      apply keeps_bind; [apply keeps_regenerate|]. intros _.
      apply keeps_bind; [apply keeps_saveProgress|]. intros _.
      apply keeps_bind; [apply keeps_saveIndex | intros _; apply keeps_ret]. }
    unfold bind at 1. unfold Levels.appendUniqueCoursesToNdjson.
    destruct (unique_courses_fresh (c0 :: rest) uriSet) as [Hw Hs].
    destruct (Levels.unique_courses (c0 :: rest) uriSet) as [written uriSet'].
    cbn [fst snd] in Hw, Hs.
    unfold bind at 1, appendLines at 1, bind at 1, io_fault at 1. rd.
    destruct (faults w0 (ios w0)); cbv beta iota.
    { exists []. unfold throw. cbn [snd]. rd. rewrite Hk0, app_nil_r. auto. }
    unfold put_lines at 1, with_ndjson at 1. rd. unfold ret at 1. cbv beta iota.
    set (tail :=
           (Levels.saveIndex level uriSet';;
            Levels.saveProgress level
              (Levels.Progress from' (total + Z.of_nat (length written)));;
            Levels.regenerateFinalJson level from';;
            (if Levels.last_page (coalesce (prop data "paginationInfos") VNull)
             then
               Levels.regenerateFinalJson level from';;
               Levels.saveProgress level
                 (Levels.Progress from' (total + Z.of_nat (length written)));;
               Levels.saveIndex level uriSet';;
               ret (total + Z.of_nat (length written))
             else
               Levels.level_loop fuel level (from' + Levels.SIZE)
                 (total + Z.of_nat (length written)) uriSet'))%eff).
    match goal with |- context [tail ?w'] => set (w1 := w') end.
    assert (Hw1 : default [] (ndjson w1 !! Levels.ndjsonPathFor level)
                  = default [] (ndjson w !! Levels.ndjsonPathFor level) ++ written).
    { unfold w1. rd. now rewrite lookup_insert_eq, Hk0. }
    clearbody w1.
    assert (Htail : exists added,
               default [] (ndjson (tail w1).2 !! Levels.ndjsonPathFor level)
               = default [] (ndjson w1 !! Levels.ndjsonPathFor level) ++ added
               /\ Forall (fun c => set_has uriSet' (uri_of c) = false) added).
    { unfold tail.
      unfold bind at 1. pose proof (keeps_saveIndex level uriSet' w1) as K1.
      destruct (Levels.saveIndex level uriSet' w1) as [[[]|e|] w2]; cbn [snd] in K1;
        [| exists []; cbn [snd]; rewrite K1, app_nil_r; auto..].
      unfold bind at 1.
      match goal with |- context [Levels.saveProgress level ?p w2] =>
        pose proof (keeps_saveProgress level p w2) as K2;
        destruct (Levels.saveProgress level p w2) as [[[]|e|] w3] end;
        cbn [snd] in K2;
        [| exists []; cbn [snd]; rewrite K2, K1, app_nil_r; auto..].
      unfold bind at 1. pose proof (keeps_regenerate level from' w3) as K3.
      destruct (Levels.regenerateFinalJson level from' w3) as [[[]|e|] w4];
        cbn [snd] in K3;
        [| exists []; cbn [snd]; rewrite K3, K2, K1, app_nil_r; auto..].
      destruct (Levels.last_page _).
      - exists []. rewrite app_nil_r. split; [|constructor].
        match goal with |- context [ndjson (?op w4).2] =>
          assert (Hop : keeps_lines op) end.
        { apply keeps_bind; [apply keeps_regenerate|]. intros _.
          apply keeps_bind; [apply keeps_saveProgress|]. intros _.
          apply keeps_bind; [apply keeps_saveIndex | intros _; apply keeps_ret]. }
        now rewrite Hop, K3, K2, K1.
      - destruct (IH (from' + Levels.SIZE) (total + Z.of_nat (length written))
                    uriSet' w4) as (added & Ha & Hf).
        exists added. rewrite Ha, K3, K2, K1. auto. }
    destruct Htail as (added & Ha & Hf).
    exists (written ++ added). rewrite Ha, Hw1, app_assoc. split; [reflexivity|].
    apply Forall_app. split; [exact Hw|].
    eapply Forall_impl; [exact Hf|]. intros x Hx. cbn in Hx.
    destruct (set_has uriSet (uri_of x)) eqn:Hx'; [|reflexivity].
    now rewrite (Hs _ Hx') in Hx.
Qed.

Lemma keys_foldl_set_add (arr : list value) :
  forall (acc : jsset) (p : prim),
    p ∈ keys acc \/ p ∈ keys arr -> p ∈ keys (foldl set_add acc arr).
Proof.
  induction arr as [|a rest IH]; intros acc p Hp; cbn [foldl].
  - destruct Hp as [?|Hp]; [assumption|]. now apply elem_of_nil in Hp.
  - apply IH. unfold keys in *. cbn [omap list_omap] in Hp.
    unfold set_add. destruct (set_has acc a) eqn:Ha.
    + apply set_has_true in Ha as (q & Hq & Hin). rewrite Hq in Hp.
      destruct Hp as [?|Hp]; [auto|]. apply elem_of_cons in Hp as [->|?]; auto.
    + rewrite omap_app. cbn [omap list_omap].
      destruct (key_of a) as [q|]; set_solver.
Qed.

(** A set built from the persisted index has every URI of the index. *)
Lemma new_Set_has (idx : list value) (v : value) :
  set_has idx v = true -> set_has (new_Set idx) v = true.
Proof.
  intros Hv. apply set_has_true in Hv as (p & Hp & Hin).
  apply set_has_true. exists p. split; [exact Hp|].
  apply keys_foldl_set_add. now right.
Qed.

Lemma keeps_loadProgress (level : Z) : keeps_lines (Levels.loadProgress level).
Proof.
  unfold Levels.loadProgress. apply keeps_bind; [intros w; reflexivity|].
  intros there. destruct (negb there); [apply keeps_ret|].
  apply keeps_try_catch.
  - apply keeps_bind; [apply keeps_readDoc | intros d; apply keeps_ret].
  - intros e. apply keeps_bind; [apply keeps_emit | intros _; apply keeps_ret].
Qed.

(** The level fetcher after a restart: with the index file of earlier runs
    on disk and readable, a run appends no course whose URI is in it. *)
Lemma processLevel_appends_unindexed (fuel : nat) (level : Z) (w : Levels.world)
  (idx : list value) :
  docs w !! Levels.indexPathFor level = Some (Doc (Levels.DIndex idx)) ->
  faults w (ios w) = None ->
  exists added,
    default [] (ndjson (Levels.processLevel fuel level w).2
                  !! Levels.ndjsonPathFor level)
    = default [] (ndjson w !! Levels.ndjsonPathFor level) ++ added
    /\ Forall (fun c => set_has idx (uri_of c) = false) added.
Proof.
  intros Hidx Hf. unfold Levels.processLevel.
  unfold bind at 1, Levels.loadIndex at 1, bind at 1, Levels.existsDoc at 1.
  rewrite Hidx. rewrite bool_decide_eq_true_2 by eauto. cbn [negb].
  unfold try_catch at 1, bind at 1, readDoc at 1, bind at 1, io_fault at 1.
  rewrite Hf. rd. rewrite Hidx. unfold ret at 1. cbv beta iota.
  unfold bind at 1.
  match goal with |- context [Levels.loadProgress level ?w'] =>
    pose proof (keeps_loadProgress level w') as K;
    destruct (Levels.loadProgress level w') as [[prog|e|] w1] end;
    cbn [snd] in K; rdh K;
    [| exists []; cbn [snd]; rewrite K, app_nil_r; auto..].
  match goal with |- context [let '(_, _) := ?x in _] => destruct x as [from0 total0] end.
  destruct (level_loop_appends_fresh level fuel from0 total0 (new_Set idx) w1)
    as (added & Ha & Hfresh).
  exists added. rewrite Ha, K. split; [reflexivity|].
  eapply Forall_impl; [exact Hfresh|]. intros x Hx. cbn in Hx.
  destruct (set_has idx (uri_of x)) eqn:Hx'; [|reflexivity].
  now rewrite (new_Set_has _ _ Hx') in Hx.
Qed.

(** The detail fetcher: a line whose output file exists is skipped, with no
    request and no write. *)
Lemma line_step_skips_existing (pathname_of : string -> option string)
  (metaPath outDir : string) (lineNo : Z) (obj : value) (id : string)
  (w : Details.world) :
  truthy (prop obj "uri") = true ->
  Details.parseIdFromUri pathname_of (prop obj "uri") = Some id ->
  is_Some (docs w !! (outDir +:+ "/" +:+ id +:+ ".json")) ->
  exists w1,
    Details.line_step pathname_of metaPath outDir lineNo obj w
    = (Returned Details.SkippedExisting, w1)
    /\ reqs w1 = reqs w /\ docs w1 = docs w /\ ndjson w1 = ndjson w
    /\ Details.skippedExisting (Details.meta (heap w1))
       = Details.skippedExisting (Details.meta (heap w)) + 1.
Proof.
  intros Hu Hid Hex. unfold Details.line_step.
  rewrite Hu, Hid. cbn [negb].
  unfold Details.modify_meta, Details.set_dirty. run.
  rewrite bool_decide_eq_true_2 by exact Hex.
  eexists. split; [reflexivity|]. rd. repeat split.
Qed.

(** The bulk fetcher: the set of a call starts empty, so the first item of
    the first page of a call is kept, whatever the output file holds. *)
Lemma fresh_set_keeps_first (it : value) (rest : list value) :
  exists kept, (Bulk.dedup [] (it :: rest)).1 = it :: kept.
Proof.
  rewrite dedup_cons. change (keys []) with (@nil prim).
  destruct (idkey it) as [p|].
  - rewrite bool_decide_eq_false_2 by apply not_elem_of_nil. cbn [fst]. eauto.
  - destruct (truthy (Bulk.getItemId it)); cbn [fst]; eauto.
Qed.

(** C3, as the code has it: the level fetcher builds its URI set from the
    index file of earlier runs, so when that file is on disk and readable a
    run appends no course whose URI is in it; the detail fetcher skips, with
    no request, a line whose output file exists; the bulk fetcher's set is
    created empty by every call, so the first item of the first page of a
    call is kept whatever earlier runs wrote. *)
Theorem warm_restart_dedup (fuel : nat) (level : Z) (wl : Levels.world)
  (idx : list value) (pathname_of : string -> option string)
  (metaPath outDir : string) (lineNo : Z) (obj : value) (id : string)
  (wd : Details.world) :
  docs wl !! Levels.indexPathFor level = Some (Doc (Levels.DIndex idx)) ->
  faults wl (ios wl) = None ->
  truthy (prop obj "uri") = true ->
  Details.parseIdFromUri pathname_of (prop obj "uri") = Some id ->
  is_Some (docs wd !! (outDir +:+ "/" +:+ id +:+ ".json")) ->
  (exists added,
     default [] (ndjson (Levels.processLevel fuel level wl).2
                   !! Levels.ndjsonPathFor level)
     = default [] (ndjson wl !! Levels.ndjsonPathFor level) ++ added
     /\ Forall (fun c => set_has idx (uri_of c) = false) added)
  /\ (exists w1,
        Details.line_step pathname_of metaPath outDir lineNo obj wd
        = (Returned Details.SkippedExisting, w1)
        /\ reqs w1 = reqs wd /\ docs w1 = docs wd /\ ndjson w1 = ndjson wd
        /\ Details.skippedExisting (Details.meta (heap w1))
           = Details.skippedExisting (Details.meta (heap wd)) + 1)
  /\ (forall (it : value) (rest : list value),
        exists kept, (Bulk.dedup [] (it :: rest)).1 = it :: kept).
Proof.
  intros Hidx Hf Hu Hid Hex. split; [|split].
  - apply processLevel_appends_unindexed; assumption.
  - eapply line_step_skips_existing; eassumption.
  - apply fresh_set_keeps_first.
Qed.

Lemma warm_restart_dedup_witness :
  (exists added,
     default [] (ndjson (Levels.processLevel 3 1 Scenario.levels_indexed).2
                   !! Levels.ndjsonPathFor 1)
     = default [] (ndjson Scenario.levels_indexed !! Levels.ndjsonPathFor 1) ++ added
     /\ Forall (fun c => set_has [VStr "u1"] (uri_of c) = false) added)
  /\ (exists w1,
        Details.line_step Scenario.no_url "meta/DEU_meta.json" "qualificationData/DEU"
          7 (Scenario.course "http://data.europa.eu/q/abc") Scenario.details_fetched
        = (Returned Details.SkippedExisting, w1)
        /\ reqs w1 = reqs Scenario.details_fetched
        /\ docs w1 = docs Scenario.details_fetched
        /\ ndjson w1 = ndjson Scenario.details_fetched
        /\ Details.skippedExisting (Details.meta (heap w1))
           = Details.skippedExisting (Details.meta (heap Scenario.details_fetched)) + 1)
  /\ (forall (it : value) (rest : list value),
        exists kept, (Bulk.dedup [] (it :: rest)).1 = it :: kept).
Proof.
  apply (warm_restart_dedup 3 1 Scenario.levels_indexed [VStr "u1"] Scenario.no_url
           "meta/DEU_meta.json" "qualificationData/DEU" 7
           (Scenario.course "http://data.europa.eu/q/abc") "abc"
           Scenario.details_fetched).
  - vm_compute. reflexivity.
  - reflexivity.
  - reflexivity.
  - vm_compute. reflexivity.
  - vm_compute. eauto.
Defined.

(** C3, counterexample: the bulk fetcher, run twice for the same country
    against the same source.  The first run writes the record q1 of DEU,
    level 3, and stops at a page that is not JSON; the second run starts with
    an empty set, fetches the first page again and appends q1 a second time. *)
Lemma bulk_restart_appends_again :
  ndjson Scenario.after_first_run !! Bulk.level_file "DEU" 3
    = Some [Scenario.item 1]
  /\ ndjson Scenario.after_second_run !! Bulk.level_file "DEU" 3
    = Some [Scenario.item 1; Scenario.item 1]
  /\ Bulk.totalItems (entry_of (heap Scenario.after_second_run) "DEU" 3) = 2.
Proof. repeat split; vm_compute; reflexivity. Qed.

End Restart.

(* ===================================================================== *)
(** ** The rate limiter                                                   *)
(* ===================================================================== *)

Section Rate.
Import Limiter.
#[local] Open Scope list_scope.
#[local] Open Scope Z_scope.

Variable cap : Z.
Hypothesis cap_nonneg : 0 <= cap.

Lemma refill_full (tokens : Z) : 0 <= tokens -> refill cap tokens = cap.
Proof. intros H. unfold refill. lia. Qed.

Lemma refill_times_cons (t : Z) (s : step) (rest : list (Z * step)) :
  refill_times ((t, s) :: rest)
  = match s with Refill => t :: refill_times rest | Poll _ => refill_times rest end.
Proof. unfold refill_times. cbn [omap list_omap]. now destruct s. Qed.

(** Between refills the bucket releases at most the tokens it has. *)
Lemma run_without_refill (seg : list (Z * step)) :
  forall tokens : Z,
    0 <= tokens -> refill_times seg = [] ->
    Z.of_nat (length (run cap tokens seg)) <= tokens.
Proof.
  induction seg as [|[t s] rest IH]; intros tokens Ht Hr; [cbn; lia|].
  rewrite refill_times_cons in Hr. destruct s as [|wk]; [discriminate|].
  cbn [run]. destruct (Z.leb_spec tokens 0).
  - apply IH; assumption.
  - cbn [length]. specialize (IH (tokens - 1) ltac:(lia) Hr). lia.
Qed.

(** After the window nothing is released into it. *)
Lemma run_after_window (t0 : Z) (sched : list (Z * step)) :
  forall tokens : Z,
    Forall (fun e => t0 + 1000 <= e.1) sched ->
    in_win t0 (run cap tokens sched) = 0%nat.
Proof.
  induction sched as [|[t s] rest IH]; intros tokens Hall; [reflexivity|].
  apply Forall_cons in Hall as [Ht Hall]. cbn [fst] in Ht.
  destruct s as [|wk]; cbn [run]; [now apply IH|].
  destruct (tokens <=? 0); [now apply IH|].
  unfold in_win. rewrite filter_cons, decide_False.
  - now apply IH.
  - cbn [fst]. unfold in_window. intros Hw.
    apply andb_true_iff in Hw as [_ Hw]. lia.
Qed.

(** From the start of the window on: the tokens left, and a bucketful for
    every refill inside the window. *)
Lemma run_from_window (t0 : Z) (sched : list (Z * step)) :
  forall tokens : Z,
    0 <= tokens <= cap ->
    StronglySorted (fun a b => a.1 <= b.1) sched ->
    Forall (fun e => t0 <= e.1) sched ->
    Z.of_nat (in_win t0 (run cap tokens sched))
    <= tokens + cap * Z.of_nat (refills_in t0 sched).
Proof.
  induction sched as [|[t s] rest IH]; intros tokens Ht Hs Hall.
  { cbn. lia. }
  apply StronglySorted_inv in Hs as [Hs Hle].
  apply Forall_cons in Hall as [Ht0 Hall]. cbn [fst] in Ht0.
  destruct (Z.ltb_spec t (t0 + 1000)) as [Hin|Hout].
  - assert (Hw : in_window t0 t = true) by (unfold in_window; lia).
    unfold refills_in. rewrite refill_times_cons. destruct s as [|wk]; cbn [run].
    + rewrite filter_cons, decide_True by exact Hw. cbn [length].
      rewrite refill_full by lia.
      specialize (IH cap ltac:(lia) Hs Hall). unfold refills_in in IH. lia.
    + destruct (Z.leb_spec tokens 0).
      * specialize (IH tokens Ht Hs Hall). unfold refills_in in IH. lia.
      * unfold in_win. rewrite filter_cons, decide_True by exact Hw. cbn [length].
        specialize (IH (tokens - 1) ltac:(lia) Hs Hall).
        unfold refills_in, in_win in IH. lia.
  - rewrite run_after_window.
    + lia.
    + constructor; [cbn; lia|].
      eapply Forall_impl; [exact Hle|]. intros e He. cbn in *. lia.
Qed.

(** In any window: a bucketful, and a bucketful for every refill inside
    the window. *)
Lemma run_any_window (t0 : Z) (sched : list (Z * step)) :
  forall tokens : Z,
    0 <= tokens <= cap ->
    StronglySorted (fun a b => a.1 <= b.1) sched ->
    Z.of_nat (in_win t0 (run cap tokens sched))
    <= cap + cap * Z.of_nat (refills_in t0 sched).
Proof.
  induction sched as [|[t s] rest IH]; intros tokens Ht Hs.
  { cbn. lia. }
  destruct (Z.ltb_spec t t0) as [Hbefore|Hfrom].
  - assert (Hw : in_window t0 t <> true).
    { unfold in_window. intros Hw. apply andb_true_iff in Hw as [Hw _]. lia. }
    apply StronglySorted_inv in Hs as [Hs _].
    unfold refills_in. rewrite refill_times_cons. destruct s as [|wk]; cbn [run].
    + rewrite filter_cons, decide_False by exact Hw.
      rewrite refill_full by lia. apply (IH cap); [lia | exact Hs].
    + destruct (Z.leb_spec tokens 0).
      * apply (IH tokens); assumption.
      * unfold in_win. rewrite filter_cons, decide_False by exact Hw.
        apply (IH (tokens - 1)); [lia | exact Hs].
  - pose proof (run_from_window t0 ((t, s) :: rest) tokens Ht Hs) as H.
    assert (Hall : Forall (fun e => t0 <= e.1) ((t, s) :: rest)).
    { apply StronglySorted_inv in Hs as [_ Hle]. constructor; [exact Hfrom|].
      eapply Forall_impl; [exact Hle|]. intros e He. cbn in *. lia. }
    specialize (H Hall). lia.
Qed.

(** Refills a timer period apart: at most one in any window. *)
Lemma spaced_refills (t0 : Z) (ts : list Z) :
  StronglySorted (fun a b => a + 1000 <= b) ts ->
  (length (filter (fun t => in_window t0 t = true) ts) <= 1)%nat.
Proof.
  induction 1 as [|a rest Hs IH Hall]; [cbn; lia|].
  rewrite filter_cons. destruct (decide (in_window t0 a = true)) as [Hw|_]; [|exact IH].
  assert (Hnone : filter (fun t => in_window t0 t = true) rest = []).
  { clear IH Hs. induction rest as [|b rest IHr]; [reflexivity|].
    apply Forall_cons in Hall as [Hb Hall].
    rewrite filter_cons, decide_False; [now apply IHr|].
    unfold in_window in *. apply andb_true_iff in Hw as [Hw1 Hw2].
    intros Hb'. apply andb_true_iff in Hb' as [_ Hb']. lia. }
  rewrite Hnone. cbn. lia.
Qed.

Lemma run_after_span (a b : Z) (sched : list (Z * step)) :
  forall tokens : Z,
    Forall (fun e => b <= e.1) sched ->
    filter (fun r => in_span a b r.1 = true) (run cap tokens sched) = [].
Proof.
  induction sched as [|[t s] rest IH]; intros tokens Hall; [reflexivity|].
  apply Forall_cons in Hall as [Ht Hall]. cbn [fst] in Ht.
  destruct s as [|wk]; cbn [run]; [now apply IH|].
  destruct (tokens <=? 0); [now apply IH|].
  rewrite filter_cons, decide_False.
  - now apply IH.
  - cbn [fst]. unfold in_span. intros Hw.
    apply andb_true_iff in Hw as [_ Hw]. lia.
Qed.

(** From the start of a span on: the tokens left, and a bucketful for
    every refill inside the span. *)
Lemma run_from_span (a b : Z) (sched : list (Z * step)) :
  forall tokens : Z,
    0 <= tokens <= cap ->
    StronglySorted (fun x y => x.1 <= y.1) sched ->
    Forall (fun e => a <= e.1) sched ->
    Z.of_nat (length (filter (fun r => in_span a b r.1 = true) (run cap tokens sched)))
    <= tokens
       + cap * Z.of_nat (length (filter (fun t => in_span a b t = true)
                                        (refill_times sched))).
Proof.
  induction sched as [|[t s] rest IH]; intros tokens Ht Hs Hall.
  { cbn. lia. }
  apply StronglySorted_inv in Hs as [Hs Hle].
  apply Forall_cons in Hall as [Ht0 Hall]. cbn [fst] in Ht0.
  destruct (Z.ltb_spec t b) as [Hin|Hout].
  - assert (Hw : in_span a b t = true) by (unfold in_span; lia).
    rewrite refill_times_cons. destruct s as [|wk]; cbn [run].
    + rewrite filter_cons, decide_True by exact Hw. cbn [length].
      rewrite refill_full by lia.
      specialize (IH cap ltac:(lia) Hs Hall). lia.
    + destruct (Z.leb_spec tokens 0).
      * specialize (IH tokens Ht Hs Hall). lia.
      * rewrite filter_cons, decide_True by exact Hw. cbn [length].
        specialize (IH (tokens - 1) ltac:(lia) Hs Hall). lia.
  - rewrite run_after_span.
    + cbn [length]. lia.
    + constructor; [cbn; lia|].
      eapply Forall_impl; [exact Hle|]. intros e He. cbn in *. lia.
Qed.

(** In any span: a bucketful, and a bucketful for every refill inside it. *)
Lemma run_any_span (a b : Z) (sched : list (Z * step)) :
  forall tokens : Z,
    0 <= tokens <= cap ->
    StronglySorted (fun x y => x.1 <= y.1) sched ->
    Z.of_nat (length (filter (fun r => in_span a b r.1 = true) (run cap tokens sched)))
    <= cap
       + cap * Z.of_nat (length (filter (fun t => in_span a b t = true)
                                        (refill_times sched))).
Proof.
  induction sched as [|[t s] rest IH]; intros tokens Ht Hs.
  { cbn. lia. }
  destruct (Z.ltb_spec t a) as [Hbefore|Hfrom].
  - assert (Hw : in_span a b t <> true).
    { unfold in_span. intros Hw. apply andb_true_iff in Hw as [Hw _]. lia. }
    apply StronglySorted_inv in Hs as [Hs _].
    rewrite refill_times_cons. destruct s as [|wk]; cbn [run].
    + rewrite filter_cons, decide_False by exact Hw.
      rewrite refill_full by lia. apply (IH cap); [lia | exact Hs].
    + destruct (Z.leb_spec tokens 0).
      * apply (IH tokens); assumption.
      * rewrite filter_cons, decide_False by exact Hw.
        apply (IH (tokens - 1)); [lia | exact Hs].
  - pose proof (run_from_span a b ((t, s) :: rest) tokens Ht Hs) as H.
    assert (Hall : Forall (fun e => a <= e.1) ((t, s) :: rest)).
    { apply StronglySorted_inv in Hs as [_ Hle]. constructor; [exact Hfrom|].
      eapply Forall_impl; [exact Hle|]. intros e He. cbn in *. lia. }
    specialize (H Hall). lia.
Qed.

(** Refills a timer period apart: at most two in a span of two periods. *)
Lemma spaced_refills_span (a b : Z) (ts : list Z) :
  b - a <= 2000 ->
  StronglySorted (fun x y => x + 1000 <= y) ts ->
  (length (filter (fun t => in_span a b t = true) ts) <= 2)%nat.
Proof.
  intros Hab. induction 1 as [|x rest Hs IH Hall]; [cbn; lia|].
  rewrite filter_cons. destruct (decide (in_span a b x = true)) as [Hw|_]; [|exact IH].
  assert (Hle : (length (filter (fun t => in_span a b t = true) rest)
                 <= length (filter (fun t => in_window (b - 1000) t = true) rest))%nat).
  { clear IH Hs. induction rest as [|y rest IHr]; [cbn; lia|].
    apply Forall_cons in Hall as [Hy Hall]. specialize (IHr Hall).
    rewrite !filter_cons. destruct (decide (in_span a b y = true)) as [Hyw|_].
    - rewrite decide_True; [cbn [length]; lia|].
      unfold in_span, in_window in *. apply andb_true_iff in Hw as [Hw1 Hw2].
      apply andb_true_iff in Hyw as [Hy1 Hy2]. apply andb_true_iff. lia.
    - destruct (decide _); cbn [length]; lia. }
  cbn [length].
  pose proof (spaced_refills (b - 1000) rest Hs). lia.
Qed.

(** A request that leaves in a window was granted in the span that starts
    one longest sleep before it. *)
Lemma departures_in_span (t0 J : Z) (grants : list (Z * nat)) :
  forall delay : nat -> Z,
    (forall k, 0 <= delay k <= J) ->
    (length (filter (fun r => in_window t0 r.1 = true) (departures delay grants))
     <= length (filter (fun r => in_span (t0 - J) (t0 + 1000) r.1 = true) grants))%nat.
Proof.
  induction grants as [|[t w] rest IH]; intros delay Hd; cbn [departures]; [cbn; lia|].
  specialize (IH (fun k => delay (S k)) (fun k => Hd (S k))).
  rewrite !filter_cons. cbn [fst].
  destruct (decide (in_window t0 (t + delay 0%nat) = true)) as [Hw|_].
  - rewrite decide_True.
    + cbn [length]. lia.
    + specialize (Hd 0%nat). unfold in_window, in_span in *.
      apply andb_true_iff in Hw as [H1 H2]. apply andb_true_iff. lia.
  - destruct (decide _); cbn [length]; lia.
Qed.

Lemma departures_at_once (grants : list (Z * nat)) :
  forall delay : nat -> Z,
    (forall k, delay k = 0) -> departures delay grants = grants.
Proof.
  induction grants as [|[t w] rest IH]; intros delay Hd; cbn [departures]; [reflexivity|].
  rewrite Hd, Z.add_0_r. f_equal. apply IH. intros k. apply Hd.
Qed.

End Rate.

Section Requests.
Import Js Eff Limiter.
#[local] Open Scope list_scope.
#[local] Open Scope Z_scope.

(** In the bulk executor the sleep of the jitter stands between the grant
    and the request. *)
Lemma bulk_attempt_sleeps_first (url : string) (w : Bulk.world) :
  log (Bulk.attempt_once url w).2 = log w ++ bulk_attempt_log w url (reqs w).
Proof.
  unfold Bulk.attempt_once, bulk_attempt_log. run.
  destruct (jitter w (reqs w) =? 0); rd;
    (destruct (net w (reqs w) url) as [e|res]; rd;
     [now rewrite <- ?app_assoc|]);
    destruct (ok res); cbn [negb]; rd;
    try (destruct ((status res >=? 500) || (status res =? 429)));
    rd; now rewrite <- ?app_assoc.
Qed.

(** In the detail executor the request follows the grant at once. *)
Lemma details_attempt_fetches_at_once (url : string) (w : Details.world) :
  log (Details.attempt_once url w).2 = log w ++ [EvAcquire; EvFetch url].
Proof.
  unfold Details.attempt_once. run.
  destruct (net w (reqs w) url) as [e|res]; rd; [now rewrite <- app_assoc|].
  destruct (ok res); cbn [negb]; rd.
  - destruct (jsonType res); destruct (parsed res); rd; now rewrite <- app_assoc.
  - destruct ((status res >=? 500) || (status res =? 429)); rd;
      now rewrite <- app_assoc.
Qed.

(** C8, as the code has it: the bucket starts full and never goes below
    zero, so with tokens between 0 and [MAX_RPS], a schedule in time order
    and refills one timer period apart, the tokens granted in any window of
    one second number at most twice [MAX_RPS], and between two refills at
    most [MAX_RPS].  The detail fetcher sends its request when the token is
    granted, so this bounds its requests.  The bulk fetcher sleeps up to
    [JITTER_MS] between the grant and the request, so the requests that
    leave in a window of one second may come from three periods: they
    number at most three times [MAX_RPS]. *)
Theorem rate_bound_per_window (MAX_RPS tokens t0 : Z)
  (sched seg : list (Z * Limiter.step)) (delay : nat -> Z)
  (url : string) (wb : Bulk.world) (wd : Details.world) :
  0 <= tokens <= MAX_RPS ->
  Limiter.timed sched ->
  Limiter.refill_times seg = [] ->
  (forall k, 0 <= delay k <= JITTER_MS) ->
  Limiter.released_in MAX_RPS t0 tokens sched <= 2 * MAX_RPS
  /\ Z.of_nat (length (Limiter.run MAX_RPS (Limiter.refill MAX_RPS tokens) seg))
     <= MAX_RPS
  /\ sent_in MAX_RPS t0 (fun _ => 0) tokens sched
     = Limiter.released_in MAX_RPS t0 tokens sched
  /\ sent_in MAX_RPS t0 delay tokens sched <= 3 * MAX_RPS
  /\ log (Details.attempt_once url wd).2 = log wd ++ [EvAcquire; EvFetch url]
  /\ log (Bulk.attempt_once url wb).2
     = log wb ++ [EvAcquire]
       ++ (if jitter wb (reqs wb) =? 0 then [] else [EvSleep (jitter wb (reqs wb))])
       ++ [EvFetch url].
Proof.
  intros Ht [Hs Hr] Hseg Hd. split; [|split; [|split; [|split; [|split]]]].
  - pose proof (run_any_window MAX_RPS ltac:(lia) t0 sched tokens Ht Hs) as H.
    pose proof (spaced_refills t0 _ Hr) as H1.
    unfold Limiter.released_in. unfold in_win, refills_in in H. nia.
  - pose proof (run_without_refill MAX_RPS seg (Limiter.refill MAX_RPS tokens)) as H.
    rewrite refill_full in * by lia. apply H; [lia | exact Hseg].
  - unfold sent_in, Limiter.released_in. now rewrite departures_at_once.
  - unfold sent_in.
    pose proof (departures_in_span t0 JITTER_MS (Limiter.run MAX_RPS tokens sched)
                  delay Hd) as H0.
    pose proof (run_any_span MAX_RPS ltac:(lia) (t0 - JITTER_MS) (t0 + 1000) sched
                  tokens Ht Hs) as H.
    pose proof (spaced_refills_span (t0 - JITTER_MS) (t0 + 1000) _
                  ltac:(unfold JITTER_MS; lia) Hr) as H1.
    nia.
  - apply details_attempt_fetches_at_once.
  - apply bulk_attempt_sleeps_first.
Qed.

Lemma rate_bound_per_window_witness :
  Limiter.released_in 3 1040 0 Scenario.burst <= 2 * 3
  /\ Z.of_nat (length (Limiter.run 3 (Limiter.refill 3 0)
                         [(1040, Limiter.Poll 0); (1040, Limiter.Poll 1);
                          (1040, Limiter.Poll 2); (1045, Limiter.Poll 3)]))
     <= 3
  /\ sent_in 3 1040 (fun _ => 0) 0 Scenario.burst
     = Limiter.released_in 3 1040 0 Scenario.burst
  /\ sent_in 3 1040 Scenario.held_back 0 Scenario.burst <= 3 * 3
  /\ log (Details.attempt_once Scenario.url Scenario.details_404).2
     = log Scenario.details_404 ++ [EvAcquire; EvFetch Scenario.url]
  /\ log (Bulk.attempt_once Scenario.url Scenario.bulk_404).2
     = log Scenario.bulk_404 ++ [EvAcquire]
       ++ (if jitter Scenario.bulk_404 (reqs Scenario.bulk_404) =? 0 then []
           else [EvSleep (jitter Scenario.bulk_404 (reqs Scenario.bulk_404))])
       ++ [EvFetch Scenario.url].
Proof.
  apply (rate_bound_per_window 3 0 1040 Scenario.burst
           [(1040, Limiter.Poll 0); (1040, Limiter.Poll 1);
            (1040, Limiter.Poll 2); (1045, Limiter.Poll 3)]
           Scenario.held_back Scenario.url Scenario.bulk_404 Scenario.details_404).
  - lia.
  - split; repeat constructor; cbn; lia.
  - reflexivity.
  - intros k. unfold Scenario.held_back, JITTER_MS. destruct (k <? 3)%nat; lia.
Defined.

(** The bound of three bucketfuls is reached: with [MAX_RPS] = 3, three
    requests granted at 990 ms and held back 149 ms, three granted at
    1001 ms and three at 2000 ms all leave in the second that starts at
    1001 ms, though only six tokens are granted in it. *)
Lemma nine_requests_leave_in_one_second :
  sent_in 3 1001 Scenario.held_back 3 Scenario.squeezed = 9
  /\ Limiter.released_in 3 1001 3 Scenario.squeezed = 6
  /\ map fst (departures Scenario.held_back (Limiter.run 3 3 Scenario.squeezed))
     = [1139; 1139; 1139; 1001; 1001; 1001; 2000; 2000; 2000]
  /\ Limiter.refill_times Scenario.squeezed = [1000; 2000].
Proof.
  split; [vm_compute; reflexivity|]. split; [vm_compute; reflexivity|].
  split; vm_compute; reflexivity.
Qed.

End Requests.

(** C8, counterexample: with [MAX_RPS] = 3, a schedule in time order with
    refills at 1000 and 2000 ms releases six requests in the second that
    starts at 1040 ms. *)
Lemma six_requests_in_one_second :
  Limiter.released_in 3 1040 0 Scenario.burst = 6
  /\ map fst (Limiter.run 3 0 Scenario.burst) = [1040; 1040; 1040; 2010; 2010; 2010]
  /\ Limiter.refill_times Scenario.burst = [1000; 2000].
Proof. repeat split; vm_compute; reflexivity. Qed.

Section Checkpoint.
Import Js Eff Bulk.
#[local] Open Scope string_scope.
#[local] Open Scope list_scope.
#[local] Open Scope Z_scope.

Lemma entry_of_stored (m : meta) (c : string) (l : Z) :
  entry_of m c l = default (fresh_entry c l) (stored m c l).
Proof.
  unfold entry_of, stored, getMeta.
  destruct (m !! c) as [g|] eqn:E; cbn.
  - rewrite E. cbn. destruct (g !! l); reflexivity.
  - rewrite lookup_insert_eq. cbn. rewrite lookup_empty. reflexivity.
Qed.

Lemma stored_getMeta (m : meta) (c : string) (l : Z) (c' : string) (l' : Z) :
  stored (getMeta m c l).2 c' l' =
  if decide (c' = c /\ l' = l) then Some (entry_of m c l) else stored m c' l'.
Proof.
  rewrite entry_of_stored. unfold stored, getMeta.
  destruct (m !! c) as [g|] eqn:E; cbn.
  - rewrite E. cbn. destruct (g !! l) as [e|] eqn:E2; cbn.
    + destruct (decide _) as [[-> ->]|]; [|reflexivity].
      rewrite E. cbn. now rewrite E2.
    + destruct (decide (c' = c)) as [->|Hc].
      * rewrite lookup_insert_eq. cbn.
        destruct (decide (l' = l)) as [->|Hl].
        -- rewrite lookup_insert_eq. now rewrite decide_True.
        -- rewrite lookup_insert_ne by done. rewrite decide_False by naive_solver.
           rewrite E. reflexivity.
      * rewrite lookup_insert_ne by done. rewrite decide_False by naive_solver.
        reflexivity.
  - rewrite lookup_insert_eq. cbn. rewrite lookup_empty. cbn.
    destruct (decide (c' = c)) as [->|Hc].
    + rewrite lookup_insert_eq. cbn.
      destruct (decide (l' = l)) as [->|Hl].
      * rewrite lookup_insert_eq. now rewrite decide_True.
      * rewrite lookup_insert_ne by done. rewrite decide_False by naive_solver.
        rewrite lookup_empty, E. reflexivity.
    + rewrite !lookup_insert_ne by done. rewrite decide_False by naive_solver.
      reflexivity.
Qed.

Lemma getMeta_stored_some (m : meta) (c : string) (l : Z) (e : entry) :
  stored m c l = Some e -> getMeta m c l = (e, m).
Proof.
  unfold stored, getMeta. destruct (m !! c) as [g|] eqn:E; cbn; [|done].
  intros E2. rewrite E. cbn. now rewrite E2.
Qed.

(** X1: [getMeta] is an insert-if-missing followed by a lookup: after the
    call the scope holds the entry that is returned, every other scope holds
    what it held, an entry that was there is returned as it is with the
    document unchanged, a missing one is created fresh (offset 0, not
    completed, no pages, no items), and a second call returns the same
    entry and changes nothing. *)
Theorem getMeta_stores_entry (m : meta) (c : string) (l : Z) :
  stored (getMeta m c l).2 c l = Some (getMeta m c l).1
  /\ (forall c' l', (c', l') <> (c, l) ->
        stored (getMeta m c l).2 c' l' = stored m c' l')
  /\ (forall e, stored m c l = Some e -> getMeta m c l = (e, m))
  /\ (stored m c l = None -> (getMeta m c l).1 = fresh_entry c l)
  /\ getMeta (getMeta m c l).2 c l = ((getMeta m c l).1, (getMeta m c l).2).
Proof.
  assert (H1 : stored (getMeta m c l).2 c l = Some (getMeta m c l).1).
  { rewrite stored_getMeta, decide_True by done. reflexivity. }
  split; [exact H1|]. split; [|split; [|split]].
  - intros c' l' Hne. rewrite stored_getMeta, decide_False; [reflexivity|].
    intros [-> ->]. now apply Hne.
  - apply getMeta_stored_some.
  - intros Hn. change ((getMeta m c l).1) with (entry_of m c l).
    rewrite entry_of_stored, Hn. reflexivity.
  - now apply getMeta_stored_some.
Qed.

Lemma grows_refl (m : meta) : grows m m.
Proof. intros c l. now left. Qed.

Lemma grows_trans (m1 m2 m3 : meta) : grows m1 m2 -> grows m2 m3 -> grows m1 m3.
Proof.
  intros H12 H23 c l. destruct (H12 c l) as [E|[E1 E2]], (H23 c l) as [F|[F1 F2]].
  - left. congruence.
  - right. split; congruence.
  - right. split; congruence.
  - congruence.
Qed.

Lemma grows_getMeta (m : meta) (c : string) (l : Z) : grows m (getMeta m c l).2.
Proof.
  intros c' l'. rewrite stored_getMeta.
  destruct (decide _) as [[-> ->]|]; [|now left].
  rewrite entry_of_stored. destruct (stored m c l); cbn; [now left|now right].
Qed.

Lemma grows_keeps (m m' : meta) (c : string) (l : Z) :
  grows m m' -> is_Some (stored m c l) -> stored m' c l = stored m c l.
Proof.
  intros Hg [e He]. destruct (Hg c l) as [E|[E _]]; [exact E|congruence].
Qed.

Lemma scaffold_levels (c : string) (lvls : list Z) :
  forall m : meta,
    grows m (foldl (fun m2 lvl => (getMeta m2 c lvl).2) m lvls)
    /\ (forall l, l ∈ lvls ->
          is_Some (stored (foldl (fun m2 lvl => (getMeta m2 c lvl).2) m lvls) c l)).
Proof.
  induction lvls as [|l0 ls IH]; intros m; cbn [foldl].
  - split; [apply grows_refl|]. intros l Hl. inversion Hl.
  - destruct (IH (getMeta m c l0).2) as [Hg Hp]. split.
    + eapply grows_trans; [apply grows_getMeta|exact Hg].
    + intros l Hl. apply elem_of_cons in Hl as [->|Hl]; [|now apply Hp].
      erewrite grows_keeps; [| exact Hg |].
      * rewrite stored_getMeta, decide_True by done. eauto.
      * rewrite stored_getMeta, decide_True by done. eauto.
Qed.

Lemma scaffold_grows (cs : list string) :
  forall m : meta,
    grows m (scaffold cs m)
    /\ (forall c l, c ∈ cs -> l ∈ eqfLevel -> is_Some (stored (scaffold cs m) c l)).
Proof.
  unfold scaffold. induction cs as [|c0 rest IH]; intros m; cbn [foldl].
  - split; [apply grows_refl|]. intros c l Hc. inversion Hc.
  - destruct (scaffold_levels c0 eqfLevel m) as [Hg0 Hp0].
    destruct (IH (foldl (fun m2 lvl => (getMeta m2 c0 lvl).2) m eqfLevel))
      as [Hg Hp].
    split; [eapply grows_trans; eassumption|].
    intros c l Hc Hl. apply elem_of_cons in Hc as [->|Hc]; [|now apply Hp].
    erewrite grows_keeps; [| exact Hg |]; now apply Hp0.
Qed.

Lemma entry_of_getMeta_any (m : meta) (c : string) (l : Z) (c' : string) (l' : Z) :
  entry_of (getMeta m c l).2 c' l' = entry_of m c' l'.
Proof.
  rewrite (entry_of_stored (getMeta m c l).2), stored_getMeta.
  destruct (decide _) as [[-> ->]|]; [reflexivity|].
  now rewrite <- entry_of_stored.
Qed.

(** The scaffold of one country: the scopes of the list get their entry,
    every other scope holds what it held. *)
Lemma scaffold_levels_stored (c : string) (lvls : list Z) :
  forall (m : meta) (c' : string) (l' : Z),
    stored (foldl (fun m2 lvl => (getMeta m2 c lvl).2) m lvls) c' l'
    = if decide (c' = c /\ l' ∈ lvls) then Some (entry_of m c' l') else stored m c' l'.
Proof.
  induction lvls as [|l0 ls IH]; intros m c' l'; cbn [foldl].
  - rewrite decide_False; [reflexivity|]. intros [_ H]. inversion H.
  - rewrite IH, entry_of_getMeta_any, stored_getMeta.
    destruct (decide (c' = c /\ l' ∈ ls)) as [[-> Hin]|Hn].
    + rewrite decide_True; [reflexivity|]. split; [reflexivity|]. now right.
    + destruct (decide (c' = c /\ l' = l0)) as [[-> ->]|Hn0].
      * rewrite decide_True; [reflexivity|]. split; [reflexivity|]. now left.
      * rewrite decide_False; [reflexivity|].
        intros [-> Hin]. apply elem_of_cons in Hin as [->|Hin]; tauto.
Qed.

Lemma entry_of_scaffold_levels (c : string) (lvls : list Z) (m : meta)
  (c' : string) (l' : Z) :
  entry_of (foldl (fun m2 lvl => (getMeta m2 c lvl).2) m lvls) c' l' = entry_of m c' l'.
Proof.
  rewrite (entry_of_stored (foldl _ _ _)), scaffold_levels_stored.
  destruct (decide _); [reflexivity|]. now rewrite <- entry_of_stored.
Qed.

(** The scaffold: the targeted scopes get their entry, every other scope
    holds what it held. *)
Lemma scaffold_stored (cs : list string) :
  forall (m : meta) (c : string) (l : Z),
    stored (scaffold cs m) c l
    = if decide (c ∈ cs /\ l ∈ eqfLevel) then Some (entry_of m c l) else stored m c l.
Proof.
  unfold scaffold. induction cs as [|c0 rest IH]; intros m c l; cbn [foldl].
  - rewrite decide_False; [reflexivity|]. intros [H _]. inversion H.
  - rewrite IH, entry_of_scaffold_levels, scaffold_levels_stored.
    destruct (decide (c ∈ rest /\ l ∈ eqfLevel)) as [[Hin Hl]|Hn].
    + rewrite decide_True; [reflexivity|]. split; [now right|exact Hl].
    + destruct (decide (c = c0 /\ l ∈ eqfLevel)) as [[-> Hl]|Hn0].
      * rewrite decide_True; [reflexivity|]. split; [now left|exact Hl].
      * rewrite decide_False; [reflexivity|].
        intros [Hin Hl]. apply elem_of_cons in Hin as [->|Hin]; tauto.
Qed.

(** X2: the scaffold that [main] builds before the pool starts keeps every
    entry the loaded document has, gives every level of every targeted
    country an entry (the one it had, or a fresh one), and changes nothing
    else: a scope that is not targeted holds what it held, so no entry is
    added for it. *)
Theorem scaffold_keeps_progress (cs : list string) (m : meta) :
  (forall c l e, stored m c l = Some e -> stored (scaffold cs m) c l = Some e)
  /\ (forall c l, c ∈ cs -> l ∈ eqfLevel ->
         stored (scaffold cs m) c l = Some (entry_of m c l))
  /\ (forall c l, stored (scaffold cs m) c l = None
                  \/ stored (scaffold cs m) c l = Some (entry_of m c l))
  /\ (forall c l, c ∉ cs \/ l ∉ eqfLevel ->
         stored (scaffold cs m) c l = stored m c l).
Proof.
  destruct (scaffold_grows cs m) as [Hg Hp].
  assert (H3 : forall c l, stored (scaffold cs m) c l = None
                           \/ stored (scaffold cs m) c l = Some (entry_of m c l)).
  { intros c l. rewrite entry_of_stored.
    destruct (Hg c l) as [E|[E1 E2]].
    - rewrite E. destruct (stored m c l); cbn; [now right|now left].
    - rewrite E1, E2. now right. }
  split; [|split; [|split; [exact H3|]]].
  - intros c l e He. rewrite (grows_keeps m _ c l Hg); [exact He|eauto].
  - intros c l Hc Hl. destruct (Hp c l Hc Hl) as [e He].
    destruct (H3 c l) as [E|E]; [congruence|exact E].
  - intros c l Hout. rewrite scaffold_stored, decide_False; [reflexivity|]. tauto.
Qed.

(** X3: the countries of a run are a sublist of [country_code] without
    repetition, in the order of the table.  A filter that is not empty
    selects the listed codes that the table knows, so a filter of unknown
    codes selects no country at all; no filter, or an empty one, selects
    all of them. *)
Theorem countries_selects (f : option (list string)) :
  sublist (countries f) country_code
  /\ NoDup (countries f)
  /\ (forall x rest c, f = Some (x :: rest) ->
         (c ∈ countries f <-> c ∈ country_code /\ c ∈ x :: rest))
  /\ (forall x rest, f = Some (x :: rest) ->
         (forall c, c ∈ x :: rest -> c ∉ country_code) -> countries f = [])
  /\ (f = None \/ f = Some [] -> countries f = country_code).
Proof.
  assert (Hnd : NoDup country_code).
  { apply (bool_decide_unpack _). vm_compute. exact I. }
  split; [|split; [|split; [|split]]].
  - destruct f as [[|x rest]|]; cbn [countries]; try reflexivity. apply sublist_filter.
  - destruct f as [[|x rest]|]; cbn [countries]; try exact Hnd. now apply NoDup_filter.
  - intros x rest c ->. cbn [countries]. rewrite list_elem_of_filter. tauto.
  - intros x rest -> Hn. cbn [countries].
    apply elem_of_nil_inv. intros c Hc. apply list_elem_of_filter in Hc as [Hc1 Hc2].
    exact (Hn c Hc1 Hc2).
  - intros [->| ->]; reflexivity.
Qed.

Lemma first_object_array_spec (vals : list value) :
  first_object_array vals = []
  \/ (VArr (first_object_array vals) ∈ vals
      /\ exists x xs, first_object_array vals = x :: xs /\ typeof_object x = true).
Proof.
  induction vals as [|v rest IH]; [now left|].
  assert (Hrest : first_object_array rest = []
                  \/ (VArr (first_object_array rest) ∈ v :: rest
                      /\ exists x xs, first_object_array rest = x :: xs
                                      /\ typeof_object x = true)).
  { destruct IH as [E|[Hin Hx]]; [now left|right]. split; [now right|exact Hx]. }
  destruct v as [| |b|n|s|[|x xs]|fields]; cbn [first_object_array]; try exact Hrest.
  destruct (typeof_object x) eqn:Hx; [|exact Hrest].
  right. split; [now left|]. eauto.
Qed.

(** X4: what [extractItems] makes of the shapes a body can have.  A value
    that is neither an object nor an array has no items, nor has [null]; an
    array is its own list of items; an [items] array wins over every other
    field, even when it is empty; [results] is next.  An object with none
    of the known fields yields its first property that is a non-empty array
    whose first element has type object, or nothing. *)
Theorem extractItems_shapes :
  (forall json, typeof_object json = false -> extractItems json = [])
  /\ extractItems VNull = []
  /\ (forall l, extractItems (VArr l) = l)
  /\ (forall fields l, assoc "items" fields = VArr l -> extractItems (VObj fields) = l)
  /\ (forall fields l,
         isArray (assoc "items" fields) = false ->
         assoc "results" fields = VArr l -> extractItems (VObj fields) = l)
  /\ (forall fields,
         Forall (fun v => isArray v = false)
                [assoc "items" fields; assoc "results" fields;
                 prop (assoc "hits" fields) "hits"; prop (assoc "data" fields) "items";
                 prop (assoc "data" fields) "results"] ->
         extractItems (VObj fields) = first_object_array (map snd fields)
         /\ (extractItems (VObj fields) = []
             \/ exists x xs, extractItems (VObj fields) = x :: xs
                             /\ typeof_object x = true
                             /\ VArr (x :: xs) ∈ map snd fields)).
Proof.
  split; [|split; [|split; [|split; [|split]]]].
  - intros json Hj. unfold extractItems. rewrite Hj. cbn. now rewrite orb_true_r.
  - reflexivity.
  - intros l. reflexivity.
  - intros fields l Hi. unfold extractItems.
    cbn [truthy typeof_object negb orb prop]. rewrite Hi.
    rewrite filter_cons_True by done. reflexivity.
  - intros fields l Hi Hr. unfold extractItems.
    cbn [truthy typeof_object negb orb prop]. rewrite Hr.
    rewrite filter_cons_False by (rewrite Hi; done).
    rewrite filter_cons_True by done. reflexivity.
  - intros fields Hall.
    assert (E : extractItems (VObj fields) = first_object_array (map snd fields)).
    { unfold extractItems. cbn [truthy typeof_object negb orb prop isArray].
      inversion Hall as [|? ? H1 Hall1]; subst.
      inversion Hall1 as [|? ? H2 Hall2]; subst.
      inversion Hall2 as [|? ? H3 Hall3]; subst.
      inversion Hall3 as [|? ? H4 Hall4]; subst.
      inversion Hall4 as [|? ? H5 _]; subst.
      rewrite filter_cons_False by (rewrite H1; done).
      rewrite filter_cons_False by (rewrite H2; done).
      rewrite filter_cons_False by (rewrite H3; done).
      rewrite filter_cons_False by (rewrite H4; done).
      rewrite filter_cons_False by (rewrite H5; done).
      rewrite filter_cons_False by done. reflexivity. }
    split; [exact E|]. rewrite E.
    destruct (first_object_array_spec (map snd fields)) as [E0|[Hin (x & xs & Ex & Hx)]].
    + now left.
    + right. exists x, xs. rewrite Ex in Hin. auto.
Qed.

(** X5: [inferFromFromFile] never throws.  It returns a multiple of the
    page size between 0 and the number of lines of the file, the largest
    one when the file can be read, and 0 when the file is missing or the
    read fails; it changes neither the files nor the in-memory document and
    sends no request. *)
Theorem inferFromFromFile_aligned (f : string) (w : world) :
  exists x w1,
    inferFromFromFile f w = (Returned x, w1)
    /\ x mod PAGE_SIZE = 0
    /\ 0 <= x <= Z.of_nat (length (default [] (ndjson w !! f)))
    /\ (x = 0 \/ Z.of_nat (length (default [] (ndjson w !! f))) < x + PAGE_SIZE)
    /\ (ndjson w !! f = None -> x = 0)
    /\ (forall code, faults w (ios w) = Some code -> x = 0)
    /\ (faults w (ios w) = None ->
        x = Z.of_nat (length (default [] (ndjson w !! f))) / PAGE_SIZE * PAGE_SIZE)
    /\ heap w1 = heap w /\ docs w1 = docs w /\ ndjson w1 = ndjson w
    /\ log w1 = log w /\ reqs w1 = reqs w.
Proof.
  unfold inferFromFromFile, PAGE_SIZE. run.
  destruct (faults w (ios w)) eqn:Hf; rd.
  - eexists _, _. split; [reflexivity|]. rd.
    repeat split; try reflexivity; try lia; auto. discriminate.
  - destruct (ndjson w !! f) as [lines|] eqn:Hl; rd.
    + eexists _, _. split; [reflexivity|]. rd. cbn [default]. unfold id.
      pose proof (Z_div_mod_eq_full (Z.of_nat (length lines)) 10) as Hd.
      pose proof (Z.mod_pos_bound (Z.of_nat (length lines)) 10 ltac:(lia)) as Hm.
      repeat split; try reflexivity; try lia; try discriminate.
      apply Z_mod_mult.
    + eexists _, _. split; [reflexivity|]. rd. cbn [default length].
      repeat split; try reflexivity; try lia; auto.
Qed.

End Checkpoint.

(* ===================================================================== *)
(** ** Operations that end                                                *)
(* ===================================================================== *)

Section Ends.
Import Js Eff.
Context {H D : Type}.
#[local] Open Scope string_scope.
#[local] Open Scope list_scope.
#[local] Open Scope Z_scope.

Lemma ends_ret {A} (a : A) : ends (H:=H) (D:=D) (ret a).
Proof. intros w. reflexivity. Qed.

Lemma ends_throw {A} (e : error) : ends (H:=H) (D:=D) (throw (A:=A) e).
Proof. intros w. reflexivity. Qed.

Lemma ends_bind {A B} (op : M (H:=H) (D:=D) A) (k : A -> M B) :
  ends op -> (forall a, ends (k a)) -> ends (bind op k).
Proof.
  intros Hop Hk w. unfold bind. specialize (Hop w).
  destruct (op w) as [[a|e|] w1]; cbn [fst] in *; [apply Hk|reflexivity|discriminate].
Qed.

Lemma ends_try_catch {A} (op : M (H:=H) (D:=D) A) (h : error -> M A) :
  ends op -> (forall e, ends (h e)) -> ends (try_catch op h).
Proof.
  intros Hop Hh w. unfold try_catch. specialize (Hop w).
  destruct (op w) as [[a|e|] w1]; cbn [fst] in *; [reflexivity|apply Hh|discriminate].
Qed.

Lemma ends_try_finally {A} (op : M (H:=H) (D:=D) A) (f : M unit) :
  ends op -> ends f -> ends (try_finally op f).
Proof.
  intros Hop Hf w. unfold try_finally. specialize (Hop w).
  destruct (op w) as [[a|e|] w1]; cbn [fst] in *; try discriminate;
    specialize (Hf w1); destruct (f w1) as [[[]|e'|] w2]; cbn [fst] in *;
    try discriminate; reflexivity.
Qed.

Lemma ends_pure {A} (op : M (H:=H) (D:=D) A) :
  (forall w, exists a w1, op w = (Returned a, w1)) -> ends op.
Proof. intros Hop w. destruct (Hop w) as (a & w1 & ->). reflexivity. Qed.

Lemma ends_get_heap : ends (H:=H) (D:=D) get_heap.
Proof. intros w. reflexivity. Qed.

Lemma ends_set_heap (h : H) : ends (D:=D) (set_heap h).
Proof. intros w. reflexivity. Qed.

Lemma ends_emit (e : event D) : ends (H:=H) (emit e).
Proof. intros w. reflexivity. Qed.

Lemma ends_now : ends (H:=H) (D:=D) now.
Proof. intros w. reflexivity. Qed.

Lemma ends_sleep (ms : Z) : ends (H:=H) (D:=D) (sleep ms).
Proof. intros w. reflexivity. Qed.

Lemma ends_io_fault : ends (H:=H) (D:=D) io_fault.
Proof. intros w. reflexivity. Qed.

Lemma ends_fetch (url : string) : ends (H:=H) (D:=D) (fetch url).
Proof. intros w. unfold fetch. destruct (net w (reqs w) url); reflexivity. Qed.

Lemma ends_rateLimit : ends (H:=H) (D:=D) rateLimit.
Proof. intros w. reflexivity. Qed.

Lemma ends_draw_jitter : ends (H:=H) (D:=D) draw_jitter.
Proof. intros w. reflexivity. Qed.

Lemma ends_fresh_tag : ends (H:=H) (D:=D) fresh_tag.
Proof. intros w. reflexivity. Qed.

Lemma ends_warn (msg : string) : ends (H:=H) (D:=D) (warn msg).
Proof. intros w. reflexivity. Qed.

Lemma ends_console_error (msg : string) : ends (H:=H) (D:=D) (console_error msg).
Proof. intros w. reflexivity. Qed.

Lemma ends_writeFile (path : string) (d : D) : ends (H:=H) (writeFile path d).
Proof. intros w. unfold writeFile. run. destruct (faults w (ios w)); reflexivity. Qed.

Lemma ends_rename (src dst : string) : ends (H:=H) (D:=D) (rename src dst).
Proof.
  intros w. unfold rename. run. destruct (faults w (ios w)); rd; [reflexivity|].
  destruct (docs w !! src); reflexivity.
Qed.

Lemma ends_unlink (path : string) : ends (H:=H) (D:=D) (unlink path).
Proof.
  intros w. unfold unlink. run. destruct (faults w (ios w)); rd; [reflexivity|].
  destruct (docs w !! path); reflexivity.
Qed.

Lemma ends_readDoc (path : string) : ends (H:=H) (D:=D) (readDoc path).
Proof.
  intros w. unfold readDoc. run. destruct (faults w (ios w)); rd; [reflexivity|].
  destruct (docs w !! path) as [[d|]|]; reflexivity.
Qed.

Lemma ends_mkdir (dir : string) : ends (H:=H) (D:=D) (mkdir dir).
Proof. intros w. unfold mkdir. run. destruct (faults w (ios w)); reflexivity. Qed.

Lemma ends_access (path : string) : ends (H:=H) (D:=D) (access path).
Proof.
  intros w. unfold access. run. destruct (faults w (ios w)); rd; [reflexivity|].
  destruct (ndjson w !! path); reflexivity.
Qed.

Lemma ends_readLines (path : string) : ends (H:=H) (D:=D) (readLines path).
Proof.
  intros w. unfold readLines. run. destruct (faults w (ios w)); rd; [reflexivity|].
  destruct (ndjson w !! path); reflexivity.
Qed.

Lemma ends_writeLines (path : string) (l : list value) :
  ends (H:=H) (D:=D) (writeLines path l).
Proof. intros w. unfold writeLines. run. destruct (faults w (ios w)); reflexivity. Qed.

Lemma ends_appendLines (path : string) (l : list value) :
  ends (H:=H) (D:=D) (appendLines path l).
Proof. intros w. unfold appendLines. run. destruct (faults w (ios w)); reflexivity. Qed.

Lemma ends_unlinkLines (path : string) : ends (H:=H) (D:=D) (unlinkLines path).
Proof.
  intros w. unfold unlinkLines. run. destruct (faults w (ios w)); rd; [reflexivity|].
  destruct (ndjson w !! path); reflexivity.
Qed.

End Ends.

(** The primitive operations end. *)
Ltac ends_prim :=
  first
    [ apply ends_ret | apply ends_throw | apply ends_get_heap | apply ends_set_heap
    | apply ends_emit | apply ends_now | apply ends_sleep | apply ends_io_fault
    | apply ends_fetch | apply ends_writeFile | apply ends_rename | apply ends_unlink
    | apply ends_readDoc | apply ends_mkdir | apply ends_access | apply ends_readLines
    | apply ends_writeLines | apply ends_appendLines | apply ends_unlinkLines
    | apply ends_rateLimit | apply ends_draw_jitter | apply ends_fresh_tag
    | apply ends_warn | apply ends_console_error ].

(** Decompose a goal [ends op] along the structure of [op]. *)
Ltac ends_step :=
  first
    [ progress intros
    | ends_prim
    | apply ends_bind
    | apply ends_try_catch
    | apply ends_try_finally
    | match goal with
      | |- ends (match ?x with _ => _ end) => destruct x
      | |- ends (let '(_, _) := ?x in _) => destruct x
      end ].
Ltac ends_tac := repeat ends_step.

(* ===================================================================== *)
(** ** The page loop ends, and touches one scope                          *)
(* ===================================================================== *)

Section Termination.
Import Js Eff Bulk.
#[local] Open Scope string_scope.
#[local] Open Scope list_scope.
#[local] Open Scope Z_scope.

Lemma ends_attempt_once (url : string) : ends (attempt_once url).
Proof.
  unfold attempt_once. ends_tac.
Qed.

Lemma ends_retry_loop (url : string) (delay : Z) (remaining : nat) :
  forall attempt, ends (retry_loop url delay attempt remaining).
Proof.
  induction remaining as [|r IH]; intros attempt; cbn [retry_loop];
    (apply ends_try_catch; [apply ends_attempt_once|]); intros e.
  - apply ends_throw.
  - apply ends_bind; [apply ends_sleep | intros _; apply IH].
Qed.

Lemma ends_saveMeta : ends saveMeta.
Proof. intros w. destruct (bulk_saveMeta_spec w) as (w1 & new & -> & _). reflexivity. Qed.

Lemma ends_appendNdjson (f : string) (items : list value) : ends (appendNdjson f items).
Proof. destruct items; cbn [appendNdjson]; ends_tac. Qed.

Lemma ends_modify_entry (c : string) (l : Z) (f : entry -> entry) :
  ends (modify_entry c l f).
Proof. intros w. rewrite modify_entry_run. reflexivity. Qed.

Lemma ends_inferFromFromFile (f : string) : ends (inferFromFromFile f).
Proof. unfold inferFromFromFile. ends_tac. Qed.

Lemma ends_reset_offset (c : string) (l : Z) (msg : string) (x : Z) :
  ends (reset_offset c l msg x).
Proof.
  unfold reset_offset. ends_tac; first [apply ends_modify_entry | apply ends_saveMeta].
Qed.

Lemma ends_resume_offset (c : string) (l : Z) (e : entry) : ends (resume_offset c l e).
Proof.
  unfold resume_offset, restart_if_missing, align_with_file.
  apply ends_bind.
  - apply ends_try_catch; [ends_tac|]. intros _.
    destruct (_ >? _); [apply ends_reset_offset | apply ends_ret].
  - intros from1. destruct (_ >? _); [|apply ends_ret].
    apply ends_bind; [apply ends_inferFromFromFile|]. intros inferred.
    destruct (negb _); [apply ends_reset_offset | apply ends_ret].
Qed.

Lemma ends_markCompleteM (c : string) (l : Z) : ends (markCompleteM c l).
Proof. intros w. rewrite markCompleteM_run. reflexivity. Qed.

Lemma ends_markUpdatedM (c : string) (l from' n : Z) : ends (markUpdatedM c l from' n).
Proof. intros w. rewrite markUpdatedM_run. reflexivity. Qed.

Lemma ends_complete_and_save (c : string) (l : Z) :
  ends (markCompleteM c l ;; saveMeta)%eff.
Proof. apply ends_bind; [apply ends_markCompleteM | intros _; apply ends_saveMeta]. Qed.

(** The safety cap bounds the loop: with more fuel than pages left under
    the cap, the run comes to an end. *)
Lemma page_loop_ends (c : string) (l : Z) (fuel : nat) :
  forall (from' : Z) (seen : jsset) (w : world),
    Z.max 0 (MAX_PAGES_PER_LEVEL - totalPages (entry_of (heap w) c l)) < Z.of_nat fuel ->
    ended (page_loop fuel c l from' seen w).1 = true.
Proof.
  induction fuel as [|fuel IH]; intros from' seen w Hfuel; [lia|].
  cbn [page_loop]. unfold bind at 1, read_entry at 1, bind at 1, get_heap at 1.
  unfold ret at 1. fold (entry_of (heap w) c l).
  destruct (totalPages (entry_of (heap w) c l) >=? MAX_PAGES_PER_LEVEL) eqn:Hcap.
  - apply (ends_bind _ _ (ends_warn _) (fun _ => ends_complete_and_save c l)).
  - rewrite Z.geb_leb in Hcap. apply Z.leb_gt in Hcap.
    unfold bind at 1.
    pose proof (ends_retry_loop (buildUrl c l from') 800 MAX_RETRIES 0 w) as He0.
    destruct (quiet_retry_loop (buildUrl c l from') 800 MAX_RETRIES 0 w) as (Hh0 & _).
    fold (fetchWithRetry (buildUrl c l from') MAX_RETRIES 800) in He0, Hh0.
    destruct (fetchWithRetry (buildUrl c l from') MAX_RETRIES 800 w)
      as [[res|e|] w0]; cbn [fst snd] in He0, Hh0; [|reflexivity|discriminate].
    destruct (parsed res) as [json|]; [|reflexivity].
    destruct (extractItems json) as [|it items]; [apply ends_complete_and_save|].
    destruct (dedup seen (it :: items)) as [kept seen']. unfold SAVE_TO_DISK.
    unfold bind at 1.
    pose proof (ends_appendNdjson (file (entry_of (heap w) c l)) kept w0) as He1.
    destruct (quiet_appendNdjson (file (entry_of (heap w) c l)) kept w0) as (Hh1 & _).
    destruct (appendNdjson (file (entry_of (heap w) c l)) kept w0)
      as [[[]|e|] w1]; cbn [fst snd] in He1, Hh1; [|reflexivity|discriminate].
    unfold bind at 1. rewrite markUpdatedM_run. unfold bind at 1.
    match goal with |- context [saveMeta ?w'] =>
      destruct (bulk_saveMeta_spec w') as (w3 & new & E & Henv & _) end.
    rewrite E. destruct Henv as (Hh3 & _). rdh Hh3.
    unfold bind at 1, sleep at 1. apply IH. rd.
    rewrite Hh3, entry_of_set_entry. cbn [markUpdated totalPages].
    rewrite Hh1, Hh0. lia.
Qed.

End Termination.

(* ===================================================================== *)
(** ** What a scope's work does to the other scopes                      *)
(* ===================================================================== *)

Section Scope.
Import Js Eff Bulk.
#[local] Open Scope string_scope.
#[local] Open Scope list_scope.
#[local] Open Scope Z_scope.

Lemma stored_set_entry (m : meta) (c : string) (l : Z) (f : entry -> entry)
  (c' : string) (l' : Z) :
  stored (set_entry m c l f) c' l' =
  if decide (c' = c /\ l' = l) then Some (f (entry_of m c l)) else stored m c' l'.
Proof.
  unfold set_entry.
  pose proof (stored_getMeta m c l c' l') as Hg. unfold stored in *.
  destruct (decide (c' = c)) as [->|Hc].
  - rewrite lookup_insert_eq. cbn.
    destruct (decide (l' = l)) as [->|Hl].
    + rewrite lookup_insert_eq. now rewrite decide_True.
    + rewrite lookup_insert_ne by done.
      rewrite decide_False in Hg |- * by naive_solver. rewrite <- Hg.
      destruct ((getMeta m c l).2 !! c); cbn; [reflexivity|apply lookup_empty].
  - rewrite lookup_insert_ne by done.
    rewrite decide_False in Hg |- * by naive_solver. exact Hg.
Qed.

Lemma advances_refl (c : string) (l : Z) (m : meta) : advances c l m m.
Proof. repeat split; auto; lia. Qed.

Lemma advances_trans (c : string) (l : Z) (m1 m2 m3 : meta) :
  advances c l m1 m2 -> advances c l m2 m3 -> advances c l m1 m3.
Proof.
  intros (A1 & A2 & A3 & A4 & A5) (B1 & B2 & B3 & B4 & B5). repeat split.
  - intros c' l' Hne. rewrite B1, A1 by done. reflexivity.
  - congruence.
  - lia.
  - lia.
  - auto.
Qed.

Lemma advances_getMeta (c : string) (l : Z) (m : meta) :
  advances c l m (getMeta m c l).2.
Proof.
  unfold advances. rewrite entry_of_getMeta. repeat split; auto; try lia.
  intros c' l' Hne. rewrite stored_getMeta, decide_False; [reflexivity|].
  intros [-> ->]. now apply Hne.
Qed.

Lemma advances_set_entry (c : string) (l : Z) (m : meta) (f : entry -> entry) :
  (forall e, file (f e) = file e /\ totalPages e <= totalPages (f e)
             /\ totalItems e <= totalItems (f e)
             /\ (completed e = true -> completed (f e) = true)) ->
  advances c l m (set_entry m c l f).
Proof.
  intros Hf. unfold advances. rewrite entry_of_set_entry.
  destruct (Hf (entry_of m c l)) as (F1 & F2 & F3 & F4). repeat split; auto.
  intros c' l' Hne. rewrite stored_set_entry, decide_False; [reflexivity|].
  intros [-> ->]. now apply Hne.
Qed.

Lemma advances_country (c : string) (l : Z) (m m' : meta) :
  advances c l m m' -> country_kept c m m'.
Proof. intros (A1 & _) c' l' Hne. apply A1. intros [= -> _]. now apply Hne. Qed.

Section Moves.
Variable R : meta -> meta -> Prop.
Hypothesis R_refl : forall m, R m m.
Hypothesis R_trans : forall m1 m2 m3, R m1 m2 -> R m2 m3 -> R m1 m3.

Lemma moves_quiet {A} (op : M A) : quiet op -> moves R op.
Proof. intros Hq w. destruct (Hq w) as (-> & _). apply R_refl. Qed.

Lemma moves_still {A} (op : M A) : (forall w, heap (op w).2 = heap w) -> moves R op.
Proof. intros Hq w. rewrite Hq. apply R_refl. Qed.

Lemma moves_ret {A} (a : A) : moves R (ret a).
Proof. intros w. apply R_refl. Qed.

Lemma moves_bind {A B} (op : M A) (k : A -> M B) :
  moves R op -> (forall a, moves R (k a)) -> moves R (bind op k).
Proof.
  intros Hop Hk w. unfold bind. specialize (Hop w).
  destruct (op w) as [[a|e|] w1]; cbn [snd] in *; [|assumption..].
  eapply R_trans; [exact Hop | apply Hk].
Qed.

Lemma moves_try_catch {A} (op : M A) (h : error -> M A) :
  moves R op -> (forall e, moves R (h e)) -> moves R (try_catch op h).
Proof.
  intros Hop Hh w. unfold try_catch. specialize (Hop w).
  destruct (op w) as [[a|e|] w1]; cbn [snd] in *; [assumption| |assumption].
  eapply R_trans; [exact Hop | apply Hh].
Qed.

Lemma moves_saveMeta : moves R saveMeta.
Proof. apply moves_still. intros w. apply (saveMeta_saved_from "" 0 w). Qed.

Lemma moves_mkdir (dir : string) : moves R (mkdir dir).
Proof.
  apply moves_still. intros w. unfold mkdir. run.
  destruct (faults w (ios w)); reflexivity.
Qed.

Lemma moves_fetchWithRetry (url : string) (retries : nat) (delay : Z) :
  moves R (fetchWithRetry url retries delay).
Proof. apply moves_quiet, quiet_retry_loop. Qed.

Lemma moves_appendNdjson (f : string) (items : list value) :
  moves R (appendNdjson f items).
Proof. apply moves_quiet, quiet_appendNdjson. Qed.

Lemma moves_warn (msg : string) : moves R (warn msg).
Proof. apply moves_quiet, quiet_warn. Qed.

Lemma moves_console_error (msg : string) : moves R (console_error msg).
Proof. apply moves_still. reflexivity. Qed.

Lemma moves_sleep (ms : Z) : moves R (sleep ms).
Proof. apply moves_quiet, quiet_sleep. Qed.

Lemma moves_inferFromFromFile (f : string) : moves R (inferFromFromFile f).
Proof.
  unfold inferFromFromFile. apply moves_try_catch; [|intros _; apply moves_ret].
  apply moves_bind; [apply moves_quiet, quiet_readLines|]. intros buf. apply moves_ret.
Qed.

Lemma moves_access (path : string) : moves R (access path).
Proof. apply moves_quiet, quiet_access. Qed.

Lemma moves_read_entry (c : string) (l : Z) : moves R (read_entry c l).
Proof. apply moves_still. reflexivity. Qed.

End Moves.

Lemma moves_weaken {A} (R R' : meta -> meta -> Prop) (op : M A) :
  (forall m m', R m m' -> R' m m') -> moves R op -> moves R' op.
Proof. intros Hw Hop w. apply Hw, Hop. Qed.

Section OneScope.
Variables (c : string) (l : Z).

Lemma moves_modify_entry (f : entry -> entry) :
  (forall e, file (f e) = file e /\ totalPages e <= totalPages (f e)
             /\ totalItems e <= totalItems (f e)
             /\ (completed e = true -> completed (f e) = true)) ->
  moves (advances c l) (modify_entry c l f).
Proof. intros Hf w. rewrite modify_entry_run. rd. now apply advances_set_entry. Qed.

Lemma moves_markUpdatedM (from' : Z) (n : nat) :
  moves (advances c l) (markUpdatedM c l from' (Z.of_nat n)).
Proof.
  intros w. rewrite markUpdatedM_run. rd. apply advances_set_entry.
  intros e. cbn. repeat split; auto; lia.
Qed.

Lemma moves_markCompleteM : moves (advances c l) (markCompleteM c l).
Proof.
  intros w. rewrite markCompleteM_run. rd. apply advances_set_entry.
  intros e. cbn. repeat split; auto; lia.
Qed.

Lemma moves_getMetaM : moves (advances c l) (getMetaM c l).
Proof. intros w. rewrite getMetaM_run. rd. apply advances_getMeta. Qed.

Let Rrefl := advances_refl c l.
Let Rtrans := advances_trans c l.

Lemma moves_reset_offset (msg : string) (x : Z) :
  moves (advances c l) (reset_offset c l msg x).
Proof.
  unfold reset_offset.
  apply moves_bind; [assumption | now apply moves_warn |]. intros _.
  apply moves_bind; [assumption | |].
  { apply moves_modify_entry. intros e. cbn. repeat split; auto; lia. }
  intros _. apply moves_bind; [assumption | now apply moves_saveMeta |].
  intros _. now apply moves_ret.
Qed.

Lemma moves_resume_offset (e : entry) : moves (advances c l) (resume_offset c l e).
Proof.
  unfold resume_offset, restart_if_missing, align_with_file.
  apply moves_bind; [assumption | |].
  - apply moves_try_catch; [assumption | |].
    + apply moves_bind; [assumption | now apply moves_access |].
      intros _. now apply moves_ret.
    + intros _. destruct (_ >? _); [apply moves_reset_offset | now apply moves_ret].
  - intros from1. destruct (_ >? _); [|now apply moves_ret].
    apply moves_bind; [assumption | now apply moves_inferFromFromFile |].
    intros inferred. destruct (negb _); [apply moves_reset_offset | now apply moves_ret].
Qed.

Lemma moves_complete_and_save : moves (advances c l) (markCompleteM c l ;; saveMeta)%eff.
Proof.
  apply moves_bind; [assumption | apply moves_markCompleteM |].
  intros _. now apply moves_saveMeta.
Qed.

Lemma moves_page_loop (fuel : nat) :
  forall (from' : Z) (seen : jsset), moves (advances c l) (page_loop fuel c l from' seen).
Proof.
  induction fuel as [|fuel IH]; intros from' seen; cbn [page_loop].
  - intros w. apply Rrefl.
  - apply moves_bind; [assumption | now apply moves_read_entry |]. intros e.
    destruct (_ >=? _).
    { apply moves_bind; [assumption | now apply moves_warn |]. intros _.
      apply moves_complete_and_save. }
    apply moves_bind; [assumption | now apply moves_fetchWithRetry |]. intros res.
    destruct (parsed res) as [json|]; [|now apply moves_warn].
    destruct (extractItems json) as [|it items]; [apply moves_complete_and_save|].
    destruct (dedup seen (it :: items)) as [kept seen'].
    apply moves_bind; [assumption | |].
    { destruct SAVE_TO_DISK; [now apply moves_appendNdjson | now apply moves_ret]. }
    intros _. apply moves_bind; [assumption | apply moves_markUpdatedM |].
    intros _. apply moves_bind; [assumption | now apply moves_saveMeta |].
    intros _. apply moves_bind; [assumption | now apply moves_sleep |].
    intros _. apply IH.
Qed.

Lemma moves_fetchAllFor (fuel : nat) : moves (advances c l) (fetchAllFor fuel c l).
Proof.
  unfold fetchAllFor.
  apply moves_bind; [assumption | apply moves_getMetaM |]. intros e.
  destruct (completed e); [now apply moves_ret|].
  apply moves_bind; [assumption | now apply moves_mkdir |]. intros _.
  apply moves_bind; [assumption | apply moves_resume_offset |]. intros from0.
  apply moves_bind; [assumption | apply moves_page_loop |]. intros _.
  now apply moves_read_entry.
Qed.

End OneScope.

Lemma country_kept_refl (c : string) (m : meta) : country_kept c m m.
Proof. intros c' l' _. reflexivity. Qed.

Lemma country_kept_trans (c : string) (m1 m2 m3 : meta) :
  country_kept c m1 m2 -> country_kept c m2 m3 -> country_kept c m1 m3.
Proof. intros H12 H23 c' l' Hne. rewrite H23, H12 by done. reflexivity. Qed.

Lemma moves_process_levels (fuel : nat) (c : string) (levels : list Z) :
  moves (country_kept c) (process_levels fuel c levels).
Proof.
  pose proof (country_kept_refl c) as Hr. pose proof (country_kept_trans c) as Ht.
  induction levels as [|lvl rest IH]; cbn [process_levels]; [now apply moves_ret|].
  apply moves_bind; [assumption | | intros _; exact IH].
  apply moves_try_catch; [assumption | |].
  - apply moves_bind; [assumption | | intros _; now apply moves_ret].
    apply (moves_weaken (advances c lvl)); [apply advances_country|].
    apply moves_fetchAllFor.
  - intros err. apply moves_bind; [assumption | now apply moves_console_error |].
    intros _. now apply moves_saveMeta.
Qed.

Lemma entry_of_kept (c : string) (l l' : Z) (m m' : meta) :
  advances c l m m' -> l' <> l -> entry_of m' c l' = entry_of m c l'.
Proof.
  intros (A1 & _) Hne. rewrite !entry_of_stored, A1; [reflexivity|].
  intros [= ->]. now apply Hne.
Qed.

(** [fetchAllFor] comes to an end when it has more fuel than the cap leaves
    pages. *)
Lemma fetchAllFor_ends (fuel : nat) (c : string) (l : Z) (w : world) :
  Z.max 0 (MAX_PAGES_PER_LEVEL - totalPages (entry_of (heap w) c l)) < Z.of_nat fuel ->
  ended (fetchAllFor fuel c l w).1 = true.
Proof.
  intros Hfuel. unfold fetchAllFor. unfold bind at 1. rewrite getMetaM_run.
  destruct (completed _); [reflexivity|].
  match goal with |- context [bind (mkdir OUT_DIR) _ ?w'] => set (w1 := w') end.
  assert (H1 : totalPages (entry_of (heap w1) c l) = totalPages (entry_of (heap w) c l)).
  { subst w1. rd. now rewrite entry_of_getMeta. }
  clearbody w1. unfold bind at 1.
  pose proof (ends_mkdir OUT_DIR w1) as He2.
  pose proof (moves_mkdir (advances c l) (advances_refl c l) OUT_DIR w1) as Hm2.
  destruct (mkdir OUT_DIR w1) as [[[]|e2|] w2]; cbn [fst snd] in He2, Hm2;
    [|reflexivity|discriminate].
  unfold bind at 1.
  pose proof (ends_resume_offset c l (entry_of (heap w) c l) w2) as He3.
  pose proof (moves_resume_offset c l (entry_of (heap w) c l) w2) as Hm3.
  destruct (resume_offset c l (entry_of (heap w) c l) w2) as [[from0|e3|] w3];
    cbn [fst snd] in He3, Hm3; [|reflexivity|discriminate].
  unfold bind at 1.
  assert (He4 : ended (page_loop fuel c l from0 [] w3).1 = true).
  { apply page_loop_ends.
    destruct Hm2 as (_ & _ & T2 & _), Hm3 as (_ & _ & T3 & _). lia. }
  destruct (page_loop fuel c l from0 [] w3) as [[[]|e4|] w4]; cbn [fst] in He4;
    [reflexivity|reflexivity|discriminate].
Qed.

Lemma process_levels_returns (fuel : nat) (c : string) (levels : list Z) :
  forall w : world,
    NoDup levels ->
    Forall (fun l => Z.max 0 (MAX_PAGES_PER_LEVEL - totalPages (entry_of (heap w) c l))
                     < Z.of_nat fuel) levels ->
    exists w1, process_levels fuel c levels w = (Returned tt, w1).
Proof.
  induction levels as [|lvl rest IH]; intros w Hnd Hall; cbn [process_levels].
  { eexists. reflexivity. }
  apply NoDup_cons in Hnd as [Hnotin Hnd].
  apply Forall_cons in Hall as [Hlvl Hrest].
  pose proof (fetchAllFor_ends fuel c lvl w Hlvl) as He.
  pose proof (moves_fetchAllFor c lvl fuel w) as Hm.
  assert (Hstep : exists w1,
    try_catch (fetchAllFor fuel c lvl ;; ret tt)%eff
      (fun err =>
         console_error ("Error " +:+ c +:+ " EQF " +:+ pretty lvl +:+ ": "
                        +:+ message err) ;; saveMeta)%eff w = (Returned tt, w1)
    /\ advances c lvl (heap w) (heap w1)).
  { unfold try_catch, bind at 1.
    destruct (fetchAllFor fuel c lvl w) as [[e|err|] w1]; cbn [fst snd] in He, Hm;
      [| |discriminate].
    - eexists. split; [reflexivity|exact Hm].
    - unfold bind, console_error, emit.
      match goal with |- context [saveMeta ?w'] =>
        destruct (bulk_saveMeta_spec w') as (w2 & new & E & Henv & _) end.
      rewrite E. eexists. split; [reflexivity|].
      destruct Henv as (Hh & _). rdh Hh. rewrite Hh. exact Hm. }
  destruct Hstep as (w1 & E & Hadv). unfold bind at 1. rewrite E.
  apply IH; [exact Hnd|].
  rewrite Forall_forall in Hrest |- *. intros l' Hl'.
  rewrite (entry_of_kept c lvl l' _ _ Hadv); [now apply Hrest|].
  intros ->. now apply Hnotin.
Qed.

End Scope.

(* ===================================================================== *)
(** ** The retry executors under any network                             *)
(* ===================================================================== *)

Section RetryMore.
Import Js Eff.
#[local] Open Scope string_scope.
#[local] Open Scope list_scope.
#[local] Open Scope Z_scope.

Lemma bulk_failing_log_jitter (w w2 : Bulk.world) (url : string) (delayMs : Z)
  (r : nat) :
  jitter w2 = jitter w ->
  forall a n, bulk_failing_log w2 url delayMs a r n = bulk_failing_log w url delayMs a r n.
Proof.
  intros Hj. induction r as [|r IHr]; intros a n; cbn [bulk_failing_log];
    unfold bulk_attempt_log; rewrite Hj; [reflexivity|].
  now rewrite IHr.
Qed.

(** One attempt of the bulk executor answered by an ok response. *)
Lemma bulk_attempt_ok (w : Bulk.world) (url : string) (res : response) :
  net w (reqs w) url = Responds res -> ok res = true ->
  exists w1,
    Bulk.attempt_once url w = (Returned res, w1)
    /\ same_store w w1 /\ reqs w1 = S (reqs w)
    /\ log w1 = log w ++ bulk_attempt_log w url (reqs w).
Proof.
  unfold Bulk.attempt_once, bulk_attempt_log. intros Hn Hok. run.
  destruct (jitter w (reqs w) =? 0); rd; rewrite Hn; rd; rewrite Hok; cbn [negb];
    (eexists; split; [reflexivity|]; rd;
     split; [repeat split|]; split; [reflexivity|]; now rewrite <- ?app_assoc).
Qed.

(** One attempt of the bulk executor, whatever the answer. *)
Lemma bulk_attempt_any (w : Bulk.world) (url : string) :
  exists r w1,
    Bulk.attempt_once url w = (r, w1)
    /\ same_store w w1 /\ reqs w1 = S (reqs w)
    /\ match r with
       | Returned res => ok res = true
       | Thrown _ => True
       | Diverged => False
       end.
Proof.
  destruct (net w (reqs w) url) as [e|res] eqn:Hn.
  - destruct (bulk_attempt_fails w url) as (w1 & E & Hs & Hr & _).
    { unfold fails. now rewrite Hn. }
    eauto 10.
  - destruct (ok res) eqn:Hok.
    + destruct (bulk_attempt_ok w url res Hn Hok) as (w1 & E & Hs & Hr & _). eauto 10.
    + destruct (bulk_attempt_fails w url) as (w1 & E & Hs & Hr & _).
      { unfold fails. now rewrite Hn. }
      eauto 10.
Qed.

Lemma same_store_sleep {H D} (w w1 : world H D) (ms : Z) :
  same_store w w1 -> same_store w (sleep ms w1).2.
Proof. intros (?&?&?&?&?&?&?&?). repeat split; rd; done. Qed.

(** The bulk executor under any network: it ends, it only returns ok
    responses, it throws only with its budget used up, and it touches
    nothing but the network. *)
Lemma bulk_retry_any (url : string) (delayMs : Z) (remaining : nat) :
  forall (attempt : nat) (w : Bulk.world),
    exists r w1,
      Bulk.retry_loop url delayMs attempt remaining w = (r, w1)
      /\ same_store w w1
      /\ (reqs w < reqs w1 <= reqs w + S remaining)%nat
      /\ settled (fun res => ok res = true) (S remaining) w r w1.
Proof.
  induction remaining as [|r IH]; intros attempt w;
    destruct (bulk_attempt_any w url) as (r0 & w1 & E & Hs & Hr & Hk);
    cbn [Bulk.retry_loop]; unfold try_catch at 1; rewrite E;
    destruct r0 as [res|e|]; try contradiction.
  - exists (Returned res), w1. repeat split; try apply Hs; try lia. exact Hk.
  - exists (Thrown e), w1. unfold throw. repeat split; try apply Hs; try lia.
    cbn [settled]. lia.
  - exists (Returned res), w1. repeat split; try apply Hs; try lia. exact Hk.
  - unfold bind at 1.
    pose proof (same_store_sleep w w1 (delayMs * 2 ^ Z.of_nat attempt) Hs) as Hs2.
    assert (Hr2 : reqs (sleep (delayMs * 2 ^ Z.of_nat attempt) w1).2 = S (reqs w))
      by exact Hr.
    destruct (sleep (delayMs * 2 ^ Z.of_nat attempt) w1) as [[[]|?|] w2] eqn:Es;
      try discriminate Es.
    cbn [snd] in Hs2, Hr2.
    destruct (IH (S attempt) w2) as (r3 & w3 & E3 & Hs3 & Hr3 & Hk3).
    exists r3, w3. rewrite E3. split; [reflexivity|].
    split; [apply (same_store_trans _ w2); assumption|]. split; [lia|].
    destruct r3; cbn [settled] in *; [exact Hk3|lia|exact Hk3].
Qed.

(** After [k] failed answers and an ok one, the bulk executor returns that
    response: [k + 1] requests, a backoff after each failure. *)
Lemma bulk_retry_recovers (url : string) (delayMs : Z) (res : response) (k : nat) :
  forall (remaining attempt : nat) (w : Bulk.world),
    (k <= remaining)%nat ->
    (forall n, (n < k)%nat -> fails w url (reqs w + n)) ->
    net w (reqs w + k)%nat url = Responds res -> ok res = true ->
    exists w1,
      Bulk.retry_loop url delayMs attempt remaining w = (Returned res, w1)
      /\ same_store w w1
      /\ reqs w1 = (reqs w + S k)%nat
      /\ log w1 = log w ++ bulk_failing_log w url delayMs attempt k (reqs w).
Proof.
  induction k as [|k IH]; intros remaining attempt w Hk Hf Hn Hok.
  - rewrite Nat.add_0_r in Hn.
    destruct (bulk_attempt_ok w url res Hn Hok) as (w1 & E & Hs & Hr & Hl).
    exists w1. destruct remaining; cbn [Bulk.retry_loop bulk_failing_log];
      unfold try_catch; rewrite E, app_nil_r; (repeat split; try apply Hs; [lia|done]).
  - destruct remaining as [|r]; [lia|].
    destruct (bulk_attempt_fails w url) as (w1 & E & Hs & Hr & Hl).
    { specialize (Hf 0%nat). rewrite Nat.add_0_r in Hf. apply Hf. lia. }
    cbn [Bulk.retry_loop bulk_failing_log]. unfold try_catch at 1. rewrite E.
    unfold bind at 1, sleep at 1.
    match goal with |- context [Bulk.retry_loop _ _ _ _ ?w'] => set (w2 := w') end.
    assert (Hs2 : same_store w w2).
    { unfold w2. destruct Hs as (?&?&?&?&?&?&?&?). repeat split; rd; done. }
    assert (Hn2 : net w2 = net w) by apply Hs2.
    assert (Hr2 : reqs w2 = S (reqs w)) by exact Hr.
    assert (Hl2 : log w2 = log w ++ bulk_attempt_log w url (reqs w)
                           ++ [EvSleep (delayMs * 2 ^ Z.of_nat attempt)]).
    { unfold w2. rd. rewrite Hl. now rewrite <- app_assoc. }
    assert (Hj : jitter w2 = jitter w) by apply Hs2.
    clearbody w2.
    destruct (IH r (S attempt) w2) as (w3 & E3 & Hs3 & Hr3 & Hl3).
    + lia.
    + intros n Hlt. unfold fails. rewrite Hn2, Hr2.
      replace (S (reqs w) + n)%nat with (reqs w + S n)%nat by lia.
      apply Hf. lia.
    + rewrite Hn2, Hr2. replace (S (reqs w) + k)%nat with (reqs w + S k)%nat by lia.
      exact Hn.
    + exact Hok.
    + exists w3. rewrite E3. split; [reflexivity|].
      split; [apply (same_store_trans _ w2); assumption|]. split; [lia|].
      rewrite Hl3, Hl2, Hr2, (bulk_failing_log_jitter w w2) by exact Hj.
      rewrite <- !app_assoc. reflexivity.
Qed.

(** One attempt of the detail executor, whatever the answer. *)
Lemma details_attempt_any (w : Details.world) (url : string) :
  exists r w1,
    Details.attempt_once url w = (r, w1)
    /\ same_store w w1 /\ reqs w1 = S (reqs w)
    /\ log w1 = log w ++ [EvAcquire; EvFetch url]
    /\ match r with
       | Returned v =>
           exists res, net w (reqs w) url = Responds res /\ ok res = true
                       /\ (parsed res = Some v
                           \/ (parsed res = None /\ jsonType res = false
                               /\ v = VObj [("_raw", VStr (text res))]))
       | Thrown e =>
           e = details_error (net w (reqs w) url)
           \/ exists res, net w (reqs w) url = Responds res /\ ok res = true
                          /\ jsonType res = true /\ parsed res = None
       | Diverged => False
       end.
Proof.
  unfold Details.attempt_once. run.
  destruct (net w (reqs w) url) as [e|res]; rd.
  - eexists _, _. split; [reflexivity|]. rd. split; [repeat split|].
    split; [reflexivity|]. split; [now rewrite <- app_assoc|]. now left.
  - destruct (ok res) eqn:Hok; cbn [negb].
    + destruct (jsonType res) eqn:Hj, (parsed res) as [json|] eqn:Hp;
        (eexists _, _; split; [reflexivity|]; rd; split; [repeat split|];
         split; [reflexivity|]; split; [now rewrite <- app_assoc|]); eauto 10.
    + cbn [details_error].
      destruct ((status res >=? 500) || (status res =? 429));
        (eexists _, _; split; [reflexivity|]; rd; split; [repeat split|];
         split; [reflexivity|]; split; [now rewrite <- app_assoc|]); now left.
Qed.

(** The detail executor under any network. *)
Lemma details_retry_any (url : string) (remaining : nat) :
  forall (attempt : nat) (w : Details.world),
    exists r w1,
      Details.retry_loop url attempt remaining w = (r, w1)
      /\ same_store w w1
      /\ (reqs w < reqs w1 <= reqs w + S remaining)%nat
      /\ settled (fun _ => True) (S remaining) w r w1.
Proof.
  induction remaining as [|r IH]; intros attempt w;
    destruct (details_attempt_any w url) as (r0 & w1 & E & Hs & Hr & _ & Hk);
    cbn [Details.retry_loop]; unfold try_catch at 1; rewrite E;
    destruct r0 as [v|e|]; try contradiction.
  - exists (Returned v), w1. repeat split; try apply Hs; lia.
  - exists (Thrown e), w1. unfold throw. repeat split; try apply Hs; try lia.
    cbn [settled]. lia.
  - exists (Returned v), w1. repeat split; try apply Hs; lia.
  - unfold bind at 1.
    pose proof (same_store_sleep w w1 (400 * 2 ^ Z.of_nat attempt) Hs) as Hs2.
    assert (Hr2 : reqs (sleep (400 * 2 ^ Z.of_nat attempt) w1).2 = S (reqs w))
      by exact Hr.
    destruct (sleep (400 * 2 ^ Z.of_nat attempt) w1) as [[[]|?|] w2] eqn:Es;
      try discriminate Es.
    cbn [snd] in Hs2, Hr2.
    destruct (IH (S attempt) w2) as (r3 & w3 & E3 & Hs3 & Hr3 & Hk3).
    exists r3, w3. rewrite E3. split; [reflexivity|].
    split; [apply (same_store_trans _ w2); assumption|]. split; [lia|].
    destruct r3; cbn [settled] in *; [exact Hk3|lia|exact Hk3].
Qed.

(** The level executor under any network: it returns, a page only of
    status 200, the failure value only after all its requests. *)
Lemma levels_retry_any (url : string) (remaining : nat) :
  forall (attempt : nat) (w : Levels.world),
    exists r w1,
      Levels.page_retry url attempt remaining w = (Returned r, w1)
      /\ same_store w w1
      /\ (reqs w <= reqs w1 <= reqs w + remaining)%nat
      /\ match r with
         | Levels.PageOk _ st => st = 200 /\ (reqs w < reqs w1)%nat
         | Levels.PageFailed _ => reqs w1 = (reqs w + remaining)%nat
         end.
Proof.
  induction remaining as [|r IH]; intros attempt w.
  - eexists _, w. cbn [Levels.page_retry]. unfold ret. split; [reflexivity|].
    split; [apply same_store_refl|]. split; lia.
  - cbn [Levels.page_retry]. run.
    destruct (net w (reqs w) url) as [e|res]; rd.
    2: destruct (status res =? 200) eqn:Hst; rd.
    2: destruct (parsed res) as [json|]; rd.
    2:{ eexists _, _. split; [reflexivity|]. rd. split; [repeat split|].
        split; [lia|]. split; [lia|lia]. }
    all: match goal with |- context [Levels.page_retry _ _ _ ?w'] => set (w2 := w') end.
    all: assert (Hs2 : same_store w w2) by (unfold w2; repeat split);
      assert (Hr2 : reqs w2 = S (reqs w)) by reflexivity; clearbody w2.
    all: destruct (IH (S attempt) w2) as (r3 & w3 & E3 & Hs3 & Hr3 & Hk3).
    all: exists r3, w3; rewrite E3; split; [reflexivity|];
      split; [apply (same_store_trans _ w2); assumption|]; split; [lia|].
    all: destruct r3; [destruct Hk3; split; [assumption|lia] | lia].
Qed.

(** After [k] failed answers and an ok one that parses, the detail
    executor returns the parsed body. *)
Lemma details_retry_recovers (url : string) (res : response) (json : value) (k : nat) :
  forall (remaining attempt : nat) (w : Details.world),
    (k <= remaining)%nat ->
    (forall n, (n < k)%nat -> fails w url (reqs w + n)) ->
    net w (reqs w + k)%nat url = Responds res -> ok res = true ->
    parsed res = Some json ->
    exists w1 new,
      Details.retry_loop url attempt remaining w = (Returned json, w1)
      /\ same_store w w1
      /\ reqs w1 = (reqs w + S k)%nat
      /\ log w1 = log w ++ new
      /\ sleeps new = map (fun i => 400 * 2 ^ Z.of_nat i) (seq attempt k).
Proof.
  induction k as [|k IH]; intros remaining attempt w Hk Hf Hn Hok Hp.
  - rewrite Nat.add_0_r in Hn.
    destruct (details_attempt_any w url) as (r0 & w1 & E & Hs & Hr & Hl & Hc).
    assert (r0 = Returned json) as ->.
    { destruct r0 as [v|e|]; [| |contradiction].
      - destruct Hc as (res' & Hn' & _ & [Hv|(Hv & _)]); congruence.
      - exfalso. destruct Hc as [->|(res' & Hn' & _ & _ & Hv)]; [|congruence].
        revert E. unfold Details.attempt_once. run. rewrite Hn. rd.
        rewrite Hok, Hp. cbn [negb]. destruct (jsonType res); discriminate. }
    exists w1, [EvAcquire; EvFetch url].
    destruct remaining; cbn [Details.retry_loop]; unfold try_catch; rewrite E;
      (repeat split; try apply Hs; [lia|done]).
  - destruct remaining as [|r]; [lia|].
    destruct (details_attempt_fails w url) as (w1 & E & Hs & Hr & Hl).
    { specialize (Hf 0%nat). rewrite Nat.add_0_r in Hf. apply Hf. lia. }
    cbn [Details.retry_loop]. unfold try_catch at 1. rewrite E.
    unfold bind at 1, sleep at 1.
    match goal with |- context [Details.retry_loop _ _ _ ?w'] => set (w2 := w') end.
    assert (Hs2 : same_store w w2).
    { unfold w2. destruct Hs as (?&?&?&?&?&?&?&?). repeat split; rd; done. }
    assert (Hn2 : net w2 = net w) by apply Hs2.
    assert (Hr2 : reqs w2 = S (reqs w)) by exact Hr.
    assert (Hl2 : log w2 = log w ++ [EvAcquire; EvFetch url]
                           ++ [EvSleep (400 * 2 ^ Z.of_nat attempt)]).
    { unfold w2. rd. rewrite Hl. now rewrite <- app_assoc. }
    clearbody w2.
    destruct (IH r (S attempt) w2) as (w3 & new & E3 & Hs3 & Hr3 & Hl3 & Hsl).
    + lia.
    + intros n Hlt. unfold fails. rewrite Hn2, Hr2.
      replace (S (reqs w) + n)%nat with (reqs w + S n)%nat by lia.
      apply Hf. lia.
    + rewrite Hn2, Hr2. replace (S (reqs w) + k)%nat with (reqs w + S k)%nat by lia.
      exact Hn.
    + exact Hok.
    + exact Hp.
    + exists w3. eexists. rewrite E3. split; [reflexivity|].
      split; [apply (same_store_trans _ w2); assumption|]. split; [lia|].
      rewrite Hl3, Hl2, <- !app_assoc. split; [reflexivity|].
      rewrite !sleeps_app, Hsl. reflexivity.
Qed.

(** After [k] answers that the level executor goes round again for and a
    page of status 200 that parses, it returns that page. *)
Lemma levels_retry_recovers (url : string) (res : response) (json : value) (k : nat) :
  forall (remaining attempt : nat) (w : Levels.world),
    (k < remaining)%nat ->
    (forall n, (n < k)%nat -> page_fails w url (reqs w + n)) ->
    net w (reqs w + k)%nat url = Responds res -> status res = 200 ->
    parsed res = Some json ->
    exists w1 new,
      Levels.page_retry url attempt remaining w
      = (Returned (Levels.PageOk json 200), w1)
      /\ same_store w w1
      /\ reqs w1 = (reqs w + S k)%nat
      /\ log w1 = log w ++ new
      /\ sleeps new = map (fun i => 800 * 2 ^ Z.of_nat i) (seq attempt k).
Proof.
  induction k as [|k IH]; intros remaining attempt w Hk Hf Hn Hst Hp;
    (destruct remaining as [|r]; [lia|]); cbn [Levels.page_retry].
  - rewrite Nat.add_0_r in Hn. run. rewrite Hn. rd. rewrite Hst. cbn [Z.eqb Pos.eqb].
    rewrite Hp. rd. eexists _, [EvFetch url]. split; [reflexivity|]. rd.
    split; [repeat split|]. split; [lia|]. split; reflexivity.
  - replace (Z.of_nat (S attempt) - 1) with (Z.of_nat attempt) by lia.
    run. pose proof (Hf 0%nat ltac:(lia)) as Hf0. unfold page_fails in Hf0.
    rewrite Nat.add_0_r in Hf0.
    destruct (net w (reqs w) url) as [e|res0]; rd.
    2: destruct (status res0 =? 200) eqn:Hs0; rd.
    2: destruct Hf0 as [Hf0|Hf0]; [discriminate|]; rewrite Hf0; rd.
    all: match goal with |- context [Levels.page_retry _ _ _ ?w'] => set (w2 := w') end.
    all: assert (Hs2 : same_store w w2) by (unfold w2; repeat split);
      assert (Hn2 : net w2 = net w) by apply Hs2;
      assert (Hr2 : reqs w2 = S (reqs w)) by reflexivity.
    all: destruct (IH r (S attempt) w2) as (w3 & new & E3 & Hs3 & Hr3 & Hl3 & Hsl);
      [ lia
      | intros n Hlt; unfold page_fails; rewrite Hn2, Hr2;
        replace (S (reqs w) + n)%nat with (reqs w + S n)%nat by lia; apply Hf; lia
      | rewrite Hn2, Hr2;
        replace (S (reqs w) + k)%nat with (reqs w + S k)%nat by lia; exact Hn
      | exact Hst | exact Hp | ].
    all: rewrite E3; eexists w3, _; split; [reflexivity|];
      split; [apply (same_store_trans _ w2); assumption|]; split; [lia|].
    all: rewrite Hl3; unfold w2 at 1; rd; rewrite <- !app_assoc;
      split; [reflexivity|]; rewrite !sleeps_app, Hsl; reflexivity.
Qed.

(** A body announced as JSON that does not parse is a failure like any
    other: every attempt throws. *)
Lemma details_bad_json_exhausted (url : string) (res : response) (remaining : nat) :
  forall (attempt : nat) (w : Details.world),
    (forall n, net w n url = Responds res) ->
    ok res = true -> jsonType res = true -> parsed res = None ->
    exists w1,
      Details.retry_loop url attempt remaining w
      = (Thrown (Error None "Unexpected token in JSON"), w1)
      /\ net w1 = net w /\ reqs w1 = (reqs w + S remaining)%nat.
Proof.
  induction remaining as [|r IH]; intros attempt w Hn Hok Hj Hp;
    cbn [Details.retry_loop]; unfold try_catch at 1, Details.attempt_once; run;
    rewrite Hn; rd; rewrite Hok, Hj, Hp; cbn [negb]; rd.
  - eexists. split; [reflexivity|]. rd. split; [reflexivity|lia].
  - match goal with |- context [Details.retry_loop _ _ _ ?w'] => set (w2 := w') end.
    destruct (IH (S attempt) w2) as (w3 & E3 & Hn3 & Hr3); try assumption.
    exists w3. rewrite E3. split; [reflexivity|]. split; [exact Hn3|].
    rewrite Hr3. unfold w2. rd. lia.
Qed.

(** X6: the retry budget bounds the requests of every executor, whatever
    the network does.  [fetchWithRetry] of the bulk and of the detail
    fetcher sends at least one request and at most [retries + 1], returns
    (the bulk one only responses that are ok) or throws, and throws only
    when the budget is used up; [fetchPageWithRetry] always returns, after
    at most six requests, a page only of status 200 and its failure value
    only after all six.  None of them touches a file or the in-memory
    state. *)
Theorem retry_budget_bounds_requests (wb : Bulk.world) (wd : Details.world)
  (wl : Levels.world) (url : string) (retries : nat) (delayMs : Z) :
  (exists r w1,
     Bulk.fetchWithRetry url retries delayMs wb = (r, w1)
     /\ same_store wb w1
     /\ (reqs wb < reqs w1 <= reqs wb + S retries)%nat
     /\ settled (fun res => ok res = true) (S retries) wb r w1)
  /\ (exists r w1,
        Details.fetchWithRetry url retries wd = (r, w1)
        /\ same_store wd w1
        /\ (reqs wd < reqs w1 <= reqs wd + S retries)%nat
        /\ settled (fun _ => True) (S retries) wd r w1)
  /\ (exists r w1,
        Levels.fetchPageWithRetry url wl = (Returned r, w1)
        /\ same_store wl w1
        /\ (reqs wl <= reqs w1 <= reqs wl + 6)%nat
        /\ match r with
           | Levels.PageOk _ st => st = 200 /\ (reqs wl < reqs w1)%nat
           | Levels.PageFailed _ => reqs w1 = (reqs wl + 6)%nat
           end).
Proof.
  split; [|split].
  - apply bulk_retry_any.
  - apply details_retry_any.
  - apply (levels_retry_any url 6 0 wl).
Qed.

(** X7: the executors recover within their budget.  When the first [k]
    answers are failures and the next one is a page of status 200 that
    parses, with [k] at most [retries] (and less than six for the level
    executor), each executor returns that page after exactly [k + 1]
    requests, having slept one backoff after each failure (delayMs * 2^i
    in the bulk fetcher, 400 * 2^i in the detail fetcher, 800 * 2^i in the
    level fetcher); the rest of the budget is not used.  For the level
    executor a body of status 200 that does not parse counts as a
    failure. *)
Theorem retries_recover (wb : Bulk.world) (wd : Details.world) (wl : Levels.world)
  (url : string) (retries k : nat) (delayMs : Z) (res : response) (json : value) :
  (k <= retries)%nat -> (k < 6)%nat ->
  (forall n, (n < k)%nat -> fails wb url (reqs wb + n)) ->
  net wb (reqs wb + k)%nat url = Responds res ->
  (forall n, (n < k)%nat -> fails wd url (reqs wd + n)) ->
  net wd (reqs wd + k)%nat url = Responds res ->
  (forall n, (n < k)%nat -> page_fails wl url (reqs wl + n)) ->
  net wl (reqs wl + k)%nat url = Responds res ->
  status res = 200 -> parsed res = Some json ->
  (exists w1,
     Bulk.fetchWithRetry url retries delayMs wb = (Returned res, w1)
     /\ same_store wb w1
     /\ reqs w1 = (reqs wb + S k)%nat
     /\ log w1 = log wb ++ bulk_failing_log wb url delayMs 0 k (reqs wb))
  /\ (exists w1 new,
        Details.fetchWithRetry url retries wd = (Returned json, w1)
        /\ same_store wd w1
        /\ reqs w1 = (reqs wd + S k)%nat
        /\ log w1 = log wd ++ new
        /\ sleeps new = map (fun i => 400 * 2 ^ Z.of_nat i) (seq 0 k))
  /\ (exists w1 new,
        Levels.fetchPageWithRetry url wl = (Returned (Levels.PageOk json 200), w1)
        /\ same_store wl w1
        /\ reqs w1 = (reqs wl + S k)%nat
        /\ log w1 = log wl ++ new
        /\ sleeps new = map (fun i => 800 * 2 ^ Z.of_nat i) (seq 0 k)).
Proof.
  intros Hk Hk6 Hfb Hnb Hfd Hnd Hfl Hnl Hst Hp.
  assert (Hok : ok res = true) by (unfold ok; rewrite Hst; reflexivity).
  split; [|split].
  - now apply bulk_retry_recovers.
  - now apply (details_retry_recovers url res json k).
  - now apply (levels_retry_recovers url res json k 6 0 wl).
Qed.

Lemma retries_recover_witness :
  (exists w1,
     Bulk.fetchWithRetry Scenario.url 3 800 Scenario.bulk_flaky
     = (Returned (Scenario.page [Scenario.item 1]), w1)
     /\ same_store Scenario.bulk_flaky w1
     /\ reqs w1 = (reqs Scenario.bulk_flaky + 3)%nat
     /\ log w1 = log Scenario.bulk_flaky
                 ++ bulk_failing_log Scenario.bulk_flaky Scenario.url 800 0 2
                      (reqs Scenario.bulk_flaky))
  /\ (exists w1 new,
        Details.fetchWithRetry Scenario.url 3 Scenario.details_flaky
        = (Returned (VObj [("items", VArr [Scenario.item 1])]), w1)
        /\ same_store Scenario.details_flaky w1
        /\ reqs w1 = (reqs Scenario.details_flaky + 3)%nat
        /\ log w1 = log Scenario.details_flaky ++ new
        /\ sleeps new = map (fun i => 400 * 2 ^ Z.of_nat i) (seq 0 2))
  /\ (exists w1 new,
        Levels.fetchPageWithRetry Scenario.url Scenario.levels_stumbling
        = (Returned (Levels.PageOk (VObj [("items", VArr [Scenario.item 1])]) 200), w1)
        /\ same_store Scenario.levels_stumbling w1
        /\ reqs w1 = (reqs Scenario.levels_stumbling + 3)%nat
        /\ log w1 = log Scenario.levels_stumbling ++ new
        /\ sleeps new = map (fun i => 800 * 2 ^ Z.of_nat i) (seq 0 2)).
Proof.
  apply (retries_recover Scenario.bulk_flaky Scenario.details_flaky
           Scenario.levels_stumbling Scenario.url 3 2 800
           (Scenario.page [Scenario.item 1])
           (VObj [("items", VArr [Scenario.item 1])])).
  - lia.
  - lia.
  - intros n Hn. destruct n as [|[|n]]; [reflexivity|reflexivity|lia].
  - reflexivity.
  - intros n Hn. destruct n as [|[|n]]; [reflexivity|reflexivity|lia].
  - reflexivity.
  - intros n Hn. destruct n as [|[|n]]; [exact I | right; reflexivity | lia].
  - reflexivity.
  - reflexivity.
  - reflexivity.
Defined.

(** X8: what the detail executor makes of an ok response whose body is not
    JSON.  When the content type says json, parsing throws inside the
    [try], so the response is retried like a failure and the executor
    throws after [retries + 1] requests; otherwise the body is returned at
    once, wrapped as [{ _raw: text }]. *)
Theorem details_body_not_json (w : Details.world) (url : string) (retries : nat)
  (res : response) :
  (forall n, net w n url = Responds res) ->
  ok res = true -> parsed res = None ->
  if jsonType res
  then exists e w1,
         Details.fetchWithRetry url retries w = (Thrown e, w1)
         /\ reqs w1 = (reqs w + S retries)%nat
  else exists w1,
         Details.fetchWithRetry url retries w
         = (Returned (VObj [("_raw", VStr (text res))]), w1)
         /\ reqs w1 = S (reqs w).
Proof.
  intros Hn Hok Hp. destruct (jsonType res) eqn:Hj.
  - destruct (details_bad_json_exhausted url res retries 0 w Hn Hok Hj Hp)
      as (w1 & E & _ & Hr).
    eauto.
  - unfold Details.fetchWithRetry.
    destruct retries; cbn [Details.retry_loop]; unfold try_catch, Details.attempt_once;
      run; rewrite Hn; rd; rewrite Hok, Hj, Hp; cbn [negb]; rd;
      (eexists; split; reflexivity).
Qed.

Lemma details_body_not_json_witness :
  (exists e w1,
     Details.fetchWithRetry Scenario.url 3 Scenario.details_bad_json = (Thrown e, w1)
     /\ reqs w1 = (reqs Scenario.details_bad_json + 4)%nat)
  /\ (exists w1,
        Details.fetchWithRetry Scenario.url 3 Scenario.details_text
        = (Returned (VObj [("_raw", VStr "<html>")]), w1)
        /\ reqs w1 = S (reqs Scenario.details_text)).
Proof.
  split.
  - apply (details_body_not_json Scenario.details_bad_json Scenario.url 3
             Scenario.bad_json); reflexivity.
  - apply (details_body_not_json Scenario.details_text Scenario.url 3
             Scenario.garbled); reflexivity.
Defined.

End RetryMore.

(* ===================================================================== *)
(** ** Runs of the bulk fetcher                                          *)
(* ===================================================================== *)

Section BulkRuns.
Import Js Eff Bulk.
#[local] Open Scope string_scope.
#[local] Open Scope list_scope.
#[local] Open Scope Z_scope.

(** X9: work on one scope leaves the other scopes alone.  Whatever the
    network and the disk do, [fetchAllFor] changes no entry of another
    country or level in the in-memory document, keeps the output file of
    its own entry, never lowers its page and item counters and never takes
    back its completed flag; [processCountry] changes no entry of another
    country. *)
Theorem fetchAllFor_touches_one_scope (fuel : nat) (c : string) (l : Z) (w : world) :
  (forall c' l', (c', l') <> (c, l) ->
     stored (heap (fetchAllFor fuel c l w).2) c' l' = stored (heap w) c' l')
  /\ file (entry_of (heap (fetchAllFor fuel c l w).2) c l) = file (entry_of (heap w) c l)
  /\ totalPages (entry_of (heap w) c l)
     <= totalPages (entry_of (heap (fetchAllFor fuel c l w).2) c l)
  /\ totalItems (entry_of (heap w) c l)
     <= totalItems (entry_of (heap (fetchAllFor fuel c l w).2) c l)
  /\ (completed (entry_of (heap w) c l) = true ->
      completed (entry_of (heap (fetchAllFor fuel c l w).2) c l) = true)
  /\ (forall c' l', c' <> c ->
        stored (heap (processCountry fuel c w).2) c' l' = stored (heap w) c' l').
Proof.
  destruct (moves_fetchAllFor c l fuel w) as (A1 & A2 & A3 & A4 & A5).
  repeat (split; [assumption|]).
  exact (moves_process_levels fuel c eqfLevel w).
Qed.

(** X10: the safety cap makes the crawl end.  With more fuel than the cap
    leaves pages to the scope (or one unit when the cap is reached), the
    run of [fetchAllFor] returns or throws, whatever the server answers;
    and when that holds for the eight levels, [processCountry] returns. *)
Theorem crawl_ends_under_cap (fuel : nat) (c : string) (l : Z) (w : world) :
  Z.max 0 (MAX_PAGES_PER_LEVEL - totalPages (entry_of (heap w) c l)) < Z.of_nat fuel ->
  Forall (fun l' => Z.max 0 (MAX_PAGES_PER_LEVEL - totalPages (entry_of (heap w) c l'))
                    < Z.of_nat fuel) eqfLevel ->
  ended (fetchAllFor fuel c l w).1 = true
  /\ exists w1, processCountry fuel c w = (Returned tt, w1).
Proof.
  intros Hl Hall. split; [now apply fetchAllFor_ends|].
  apply process_levels_returns; [|exact Hall].
  apply (bool_decide_unpack _). vm_compute. exact I.
Qed.

Lemma crawl_ends_under_cap_witness :
  ended (fetchAllFor (Z.to_nat 10001) "DEU" 3 Scenario.bulk_pages).1 = true
  /\ exists w1, processCountry (Z.to_nat 10001) "DEU" Scenario.bulk_pages = (Returned tt, w1).
Proof.
  apply (crawl_ends_under_cap (Z.to_nat 10001) "DEU" 3 Scenario.bulk_pages).
  - vm_compute. reflexivity.
  - repeat (apply Forall_cons; split; [vm_compute; reflexivity|]). constructor.
Defined.

Lemma fetchAllFor_completed (fuel : nat) (c : string) (l : Z) (w : world) (e : entry) :
  stored (heap w) c l = Some e -> completed e = true ->
  fetchAllFor fuel c l w = (Returned e, w).
Proof.
  intros Hs Hc. unfold fetchAllFor, bind at 1. rewrite getMetaM_run.
  unfold entry_of. rewrite (getMeta_stored_some _ _ _ _ Hs). cbn [fst snd].
  rewrite Hc. destruct w. reflexivity.
Qed.

(** X11: a completed scope is skipped without any effect.  When the eight
    levels of a country are completed in the in-memory document,
    [processCountry] and each [fetchAllFor] return at once and leave the
    world as it was: no request, no file operation, no change of the
    document. *)
Theorem completed_scope_is_skipped (fuel : nat) (c : string) (w : world) :
  Forall (fun l => exists e, stored (heap w) c l = Some e /\ completed e = true)
         eqfLevel ->
  processCountry fuel c w = (Returned tt, w)
  /\ Forall (fun l => fetchAllFor fuel c l w = (Returned (entry_of (heap w) c l), w))
            eqfLevel.
Proof.
  intros Hall. split.
  - unfold processCountry. induction Hall as [|l ls (e & Hs & Hc) _ IH];
      cbn [process_levels]; [reflexivity|].
    unfold bind at 1, try_catch, bind at 1.
    rewrite (fetchAllFor_completed fuel c l w e Hs Hc). exact IH.
  - eapply Forall_impl; [exact Hall|]. intros l (e & Hs & Hc). cbn beta.
    rewrite entry_of_stored, Hs. cbn [default]. now apply fetchAllFor_completed.
Qed.

Lemma completed_scope_is_skipped_witness :
  processCountry 0 "DEU" Scenario.bulk_done = (Returned tt, Scenario.bulk_done)
  /\ Forall (fun l => fetchAllFor 0 "DEU" l Scenario.bulk_done
                      = (Returned (entry_of (heap Scenario.bulk_done) "DEU" l),
                         Scenario.bulk_done))
            eqfLevel.
Proof.
  apply (completed_scope_is_skipped 0 "DEU" Scenario.bulk_done).
  repeat (apply Forall_cons; split; [eexists; split; vm_compute; reflexivity|]).
  constructor.
Defined.

(** X12: a body that is not JSON stops the level and changes nothing.  The
    loop ends after one request with a warning; the entry is not marked
    completed, its offset stays, the checkpoint is not saved and no file
    operation takes place, so the next run asks for the same page again. *)
Theorem garbled_page_stops_level (fuel : nat) (c : string) (l from' : Z)
  (seen : jsset) (w : world) (res : response) :
  totalPages (entry_of (heap w) c l) < MAX_PAGES_PER_LEVEL ->
  net w (reqs w) (buildUrl c l from') = Responds res ->
  ok res = true -> parsed res = None ->
  exists w1,
    page_loop (S fuel) c l from' seen w = (Returned tt, w1)
    /\ heap w1 = heap w /\ docs w1 = docs w /\ ndjson w1 = ndjson w
    /\ ios w1 = ios w /\ reqs w1 = S (reqs w)
    /\ last (log w1)
       = Some (EvWarn ("Non-JSON for " +:+ c +:+ " EQF " +:+ pretty l +:+ " @ from="
                       +:+ pretty from' +:+ ". Stopping this level.")).
Proof.
  intros Hp Hn Hok Hj.
  cbn [page_loop]. unfold bind at 1, read_entry at 1, bind at 1, get_heap at 1.
  unfold ret at 1. fold (entry_of (heap w) c l).
  replace (totalPages (entry_of (heap w) c l) >=? MAX_PAGES_PER_LEVEL) with false
    by (symmetry; rewrite Z.geb_leb; apply Z.leb_gt; exact Hp).
  unfold bind at 1.
  destruct (fetchWithRetry_ok w (buildUrl c l from') res MAX_RETRIES 800 Hn Hok)
    as (w0 & E & Hs & Hr).
  rewrite E, Hj. unfold warn, emit, emit_w. eexists. split; [reflexivity|]. rd.
  destruct Hs as (Hh & Hd & Hnd & Hi & _).
  repeat split; try assumption. apply last_snoc.
Qed.

Lemma garbled_page_stops_level_witness :
  exists w1,
    page_loop 1 "DEU" 3 0 [] Scenario.bulk_garbled = (Returned tt, w1)
    /\ heap w1 = heap Scenario.bulk_garbled /\ docs w1 = docs Scenario.bulk_garbled
    /\ ndjson w1 = ndjson Scenario.bulk_garbled
    /\ ios w1 = ios Scenario.bulk_garbled /\ reqs w1 = S (reqs Scenario.bulk_garbled)
    /\ last (log w1)
       = Some (EvWarn ("Non-JSON for " +:+ "DEU" +:+ " EQF " +:+ pretty 3 +:+ " @ from="
                       +:+ pretty 0 +:+ ". Stopping this level.")).
Proof.
  apply (garbled_page_stops_level 0 "DEU" 3 0 [] Scenario.bulk_garbled Scenario.garbled);
    reflexivity.
Defined.

(** X13: an ok body without items completes the level, whatever its shape:
    the JSON values [null], a number, a string, a boolean, the empty array
    and the empty object are all taken for the page after the last one.
    The entry is marked completed at its offset, the checkpoint is saved
    and nothing is appended. *)
Theorem itemless_body_completes_level (fuel : nat) (c : string) (l from' : Z)
  (seen : jsset) (w : world) (res : response) (json : value) :
  no_faults w ->
  totalPages (entry_of (heap w) c l) < MAX_PAGES_PER_LEVEL ->
  net w (reqs w) (buildUrl c l from') = Responds res ->
  ok res = true -> parsed res = Some json ->
  typeof_object json = false \/ json = VNull \/ json = VArr [] \/ json = VObj [] ->
  exists w1,
    page_loop (S fuel) c l from' seen w = (Returned tt, w1)
    /\ completed (entry_of (heap w1) c l) = true
    /\ from (entry_of (heap w1) c l) = from (entry_of (heap w) c l)
    /\ ndjson w1 = ndjson w
    /\ docs w1 !! META_PATH = Some (Doc (heap w1)).
Proof.
  intros Hnf Hp Hn Hok Hj Hshape.
  assert (He : extractItems json = []).
  { destruct Hshape as [H|[->|[->| ->]]]; [|reflexivity..].
    unfold extractItems. rewrite H. cbn. now rewrite orb_true_r. }
  destruct (page_loop_empty fuel c l from' seen w res json Hnf Hp Hn Hok Hj He)
    as (w1 & t & E & Hent & Hnd & Hd).
  exists w1. rewrite Hent. cbn [markComplete completed from]. auto.
Qed.

Lemma itemless_body_completes_level_witness :
  exists w1,
    page_loop 1 "DEU" 3 0 [] Scenario.bulk_null = (Returned tt, w1)
    /\ completed (entry_of (heap w1) "DEU" 3) = true
    /\ from (entry_of (heap w1) "DEU" 3) = from (entry_of (heap Scenario.bulk_null) "DEU" 3)
    /\ ndjson w1 = ndjson Scenario.bulk_null
    /\ docs w1 !! META_PATH = Some (Doc (heap w1)).
Proof.
  apply (itemless_body_completes_level 0 "DEU" 3 0 [] Scenario.bulk_null
           Scenario.null_body VNull); try reflexivity.
  - intros n. reflexivity.
  - right. left. reflexivity.
Defined.

(** [loadMeta] never throws; it falls back on the empty document. *)
Lemma loadMeta_run (w : world) :
  exists w1,
    loadMeta w
    = (Returned (match faults w (ios w) with
                 | None => on_disk w
                 | Some _ => ∅
                 end), w1)
    /\ heap w1 = heap w /\ docs w1 = docs w /\ ndjson w1 = ndjson w
    /\ reqs w1 = reqs w
    /\ log w1 = log w /\ ios w1 = S (ios w) /\ faults w1 = faults w.
Proof.
  unfold loadMeta, on_disk. run. destruct (faults w (ios w)); rd.
  - eexists. split; [reflexivity|]. repeat split.
  - destruct (docs w !! META_PATH) as [[d|]|]; rd;
      (eexists; split; [reflexivity|]; repeat split).
Qed.

(** X15: what [saveMeta] wrote, [loadMeta] reads: on a disk without faults
    a save followed by a load returns the in-memory document, and neither
    changes it. *)
Theorem checkpoint_round_trip (w : world) :
  no_faults w ->
  exists w1 w2,
    saveMeta w = (Returned tt, w1)
    /\ loadMeta w1 = (Returned (heap w), w2)
    /\ heap w2 = heap w.
Proof.
  intros Hnf. destruct (bulk_saveMeta_ok w Hnf) as (w1 & E & Henv & Hd & _).
  destruct (loadMeta_run w1) as (w2 & E2 & Hh2 & _).
  exists w1, w2. split; [exact E|].
  destruct Henv as (Hh & _ & Hf & _).
  rewrite E2. unfold on_disk. rewrite Hf, Hnf, Hd. split; [reflexivity|]. congruence.
Qed.

Lemma checkpoint_round_trip_witness :
  exists w1 w2,
    saveMeta Scenario.bulk_file_missing = (Returned tt, w1)
    /\ loadMeta w1 = (Returned (heap Scenario.bulk_file_missing), w2)
    /\ heap w2 = heap Scenario.bulk_file_missing.
Proof.
  apply (checkpoint_round_trip Scenario.bulk_file_missing). intros n. reflexivity.
Defined.

(** X16: the start of [main] rewrites the checkpoint file with the scaffold
    of what it could read.  On a disk without faults the file afterwards
    holds every entry it held before and an entry for every level of every
    targeted country; a file that is missing or does not parse counts as
    the empty document, so all its progress is replaced by fresh entries. *)
Theorem main_init_keeps_progress (cs : list string) (w : world) :
  no_faults w ->
  exists w1,
    main_init cs w = (Returned tt, w1)
    /\ heap w1 = scaffold cs (on_disk w)
    /\ docs w1 !! META_PATH = Some (Doc (scaffold cs (on_disk w)))
    /\ (forall c l e, stored (on_disk w) c l = Some e -> stored (heap w1) c l = Some e)
    /\ (forall c l, c ∈ cs -> l ∈ eqfLevel -> is_Some (stored (heap w1) c l)).
Proof.
  intros Hnf. unfold main_init. unfold bind at 1.
  destruct (loadMeta_run w) as (w0 & E0 & Hh0 & Hd0 & Hn0 & _ & Hl0 & Hi0 & Hf0).
  rewrite E0, Hnf. unfold bind at 1, set_heap at 1.
  match goal with |- context [saveMeta ?w'] =>
    destruct (bulk_saveMeta_ok w') as (w1 & E & Henv & Hd & _) end.
  { intros n. rd. rewrite Hf0. apply Hnf. }
  rewrite E. exists w1. split; [reflexivity|]. rdh Hd.
  destruct Henv as (Hh & _). rdh Hh.
  destruct (scaffold_grows cs (on_disk w)) as (Hg & Hpres).
  rewrite Hh. repeat split; auto.
  intros c l e He. rewrite (grows_keeps _ _ c l Hg); [exact He|eauto].
Qed.

Lemma main_init_keeps_progress_witness :
  exists w1,
    main_init ["DEU"; "FRA"] Scenario.bulk_resumed = (Returned tt, w1)
    /\ heap w1 = scaffold ["DEU"; "FRA"] (on_disk Scenario.bulk_resumed)
    /\ docs w1 !! META_PATH
       = Some (Doc (scaffold ["DEU"; "FRA"] (on_disk Scenario.bulk_resumed)))
    /\ (forall c l e, stored (on_disk Scenario.bulk_resumed) c l = Some e ->
                      stored (heap w1) c l = Some e)
    /\ (forall c l, c ∈ ["DEU"; "FRA"] -> l ∈ eqfLevel -> is_Some (stored (heap w1) c l)).
Proof.
  apply (main_init_keeps_progress ["DEU"; "FRA"] Scenario.bulk_resumed).
  intros n. reflexivity.
Defined.

(** X17: [appendNdjson] and its temp file.  With no items nothing is done,
    not even the output file is created.  When the write and the read of
    the temp file succeed and the append fails, the call throws the error
    of the append after three file operations, the output file is as it
    was, and the temp file stays on disk with the items in it. *)
Theorem appendNdjson_leaves_temp (f : string) (it : value) (rest : list value)
  (w : world) (code : string) :
  faults w (ios w) = None -> faults w (S (ios w)) = None ->
  faults w (S (S (ios w))) = Some code ->
  (exists w1,
     appendNdjson f (it :: rest) w = (Thrown (fs_error code ("append " +:+ f)), w1)
     /\ ndjson w1 !! f = ndjson w !! f
     /\ ndjson w1 !! (f +:+ "." +:+ pretty (clock w) +:+ ".tmp") = Some (it :: rest)
     /\ ios w1 = (ios w + 3)%nat)
  /\ appendNdjson f [] w = (Returned tt, w).
Proof.
  intros H0 H1 H2. split; [|reflexivity].
  cbn [appendNdjson]. run. rewrite H0. rd. rewrite H1. rd.
  rewrite lookup_insert_eq. rd. rewrite H2. rd.
  eexists. split; [reflexivity|]. rd.
  pose proof (tmp_ne_file f (clock w)) as Hne.
  rewrite lookup_insert_ne by done. rewrite lookup_insert_eq.
  repeat split. lia.
Qed.

Lemma appendNdjson_leaves_temp_witness :
  (exists w1,
     appendNdjson "files/DEU_eqf3.ndjson" [Scenario.item 1] Scenario.bulk_append_fails
     = (Thrown (fs_error "ENOSPC" ("append " +:+ "files/DEU_eqf3.ndjson")), w1)
     /\ ndjson w1 !! "files/DEU_eqf3.ndjson"
        = ndjson Scenario.bulk_append_fails !! "files/DEU_eqf3.ndjson"
     /\ ndjson w1 !! ("files/DEU_eqf3.ndjson" +:+ "."
                      +:+ pretty (clock Scenario.bulk_append_fails) +:+ ".tmp")
        = Some [Scenario.item 1]
     /\ ios w1 = (ios Scenario.bulk_append_fails + 3)%nat)
  /\ appendNdjson "files/DEU_eqf3.ndjson" [] Scenario.bulk_append_fails
     = (Returned tt, Scenario.bulk_append_fails).
Proof.
  apply (appendNdjson_leaves_temp "files/DEU_eqf3.ndjson" (Scenario.item 1) []
           Scenario.bulk_append_fails "ENOSPC"); reflexivity.
Defined.

End BulkRuns.

(* ===================================================================== *)
(** ** The worker pool of the bulk fetcher *)
(* ===================================================================== *)

Section PoolFacts.
Import Pool.
Context {A : Type}.
Implicit Types (p : pool A) (items : list A).
#[local] Open Scope list_scope.
#[local] Open Scope nat_scope.

Lemma enter_conserves (i : nat) p :
  map snd (calls (enter i p)) ++ queue (enter i p) = map snd (calls p) ++ queue p.
Proof.
  unfold enter. destruct (queue p) as [|x rest]; cbn [calls queue]; [reflexivity|].
  rewrite map_app, <- app_assoc. reflexivity.
Qed.

Lemma enter_length (i : nat) p : length (workers (enter i p)) = length (workers p).
Proof.
  unfold enter. destruct (queue p); cbn [workers]; apply length_insert.
Qed.

Lemma enter_busy (i : nat) p :
  i < length (workers p) -> busy_prefix i p -> busy_prefix (S i) (enter i p).
Proof.
  unfold busy_prefix, enter. intros Hi Hb.
  destruct (queue p) as [|x rest] eqn:Hq; cbn [queue workers]; [done|].
  intros _ j Hj. destruct (decide (j = i)) as [->|Hne].
  - exists x. now apply list_lookup_insert_eq.
  - rewrite list_lookup_insert_ne by done. apply Hb; [done|lia].
Qed.

Lemma enter_keeps_busy (i n : nat) p :
  i < length (workers p) -> busy_prefix n p -> busy_prefix n (enter i p).
Proof.
  unfold busy_prefix, enter. intros Hi Hb.
  destruct (queue p) as [|x rest] eqn:Hq; cbn [queue workers]; [done|].
  intros _ j Hj. destruct (decide (j = i)) as [->|Hne].
  - exists x. now apply list_lookup_insert_eq.
  - rewrite list_lookup_insert_ne by done. apply Hb; [done|lia].
Qed.

Lemma start_from (n : nat) :
  forall (k : nat) p,
    k + n <= length (workers p) -> busy_prefix k p ->
    let p' := foldl (fun p i => enter i p) p (seq k n) in
    map snd (calls p') ++ queue p' = map snd (calls p) ++ queue p
    /\ length (workers p') = length (workers p)
    /\ busy_prefix (k + n) p'.
Proof.
  induction n as [|n IH]; intros k p Hk Hb; cbn [seq foldl].
  - rewrite Nat.add_0_r. auto.
  - destruct (IH (S k) (enter k p)) as (C & L & B).
    + rewrite enter_length. lia.
    + apply enter_busy; [lia|exact Hb].
    + cbn zeta in *. rewrite C, L, enter_conserves, enter_length.
      replace (k + S n) with (S k + n) by lia. auto.
Qed.

Lemma start_spec items (c : nat) :
  map snd (calls (start items c)) ++ queue (start items c) = items
  /\ length (workers (start items c)) = c
  /\ busy_prefix c (start items c).
Proof.
  unfold start.
  destruct (start_from c 0 (Pool items (replicate c Over) [])) as (C & L & B).
  - cbn [workers]. rewrite length_replicate. lia.
  - intros _ j Hj. lia.
  - cbn zeta in *. cbn [calls queue workers map app] in *.
    rewrite length_replicate in L. auto.
Qed.

Lemma settle_conserves p (e : nat * bool) :
  map snd (calls (settle p e)) ++ queue (settle p e) = map snd (calls p) ++ queue p.
Proof.
  unfold settle. destruct (workers p !! e.1) as [[x|]|]; [|reflexivity..].
  destruct e.2; [apply enter_conserves|reflexivity].
Qed.

Lemma settle_length p (e : nat * bool) :
  length (workers (settle p e)) = length (workers p).
Proof.
  unfold settle. destruct (workers p !! e.1) as [[x|]|]; [|reflexivity..].
  destruct e.2; [apply enter_length|]. cbn [workers]. apply length_insert.
Qed.

Lemma settle_busy (n : nat) p (e : nat * bool) :
  e.2 = true -> busy_prefix n p -> busy_prefix n (settle p e).
Proof.
  unfold settle. intros He Hb.
  destruct (workers p !! e.1) as [[x|]|] eqn:Hw; [|assumption..].
  rewrite He. apply enter_keeps_busy; [|exact Hb].
  now apply lookup_lt_Some in Hw.
Qed.

Lemma run_conserves (sched : list (nat * bool)) :
  forall p,
    map snd (calls (foldl settle p sched)) ++ queue (foldl settle p sched)
    = map snd (calls p) ++ queue p
    /\ length (workers (foldl settle p sched)) = length (workers p).
Proof.
  induction sched as [|e sched IH]; intros p; cbn [foldl]; [auto|].
  destruct (IH (settle p e)) as (C & L).
  rewrite C, L, settle_conserves, settle_length. auto.
Qed.

Lemma run_busy (n : nat) (sched : list (nat * bool)) :
  forall p,
    Forall (fun e => e.2 = true) sched -> busy_prefix n p ->
    busy_prefix n (foldl settle p sched).
Proof.
  induction sched as [|e sched IH]; intros p Hall Hb; cbn [foldl]; [assumption|].
  apply Forall_cons in Hall as [He Hall]. apply IH; [exact Hall|].
  now apply settle_busy.
Qed.

Lemma omap_length_le {B C} (f : B -> option C) (l : list B) :
  length (omap f l) <= length l.
Proof.
  induction l as [|x l IH]; cbn; [lia|]. destruct (f x); cbn; lia.
Qed.

Lemma drained_no_prefix (n : nat) p :
  0 < n -> drained p = true -> busy_prefix n p -> queue p = [].
Proof.
  intros Hn Hd Hb. destruct (queue p) as [|x rest] eqn:Hq; [reflexivity|exfalso].
  destruct (Hb ltac:(congruence) 0%nat Hn) as (y & Hw).
  unfold drained in Hd. destruct (workers p) as [|w0 ws]; [discriminate|].
  cbn in Hw. injection Hw as ->. discriminate.
Qed.

(** X18: [runPool] hands every item to [workerFn] once, in order.  At every
    moment of every schedule of settlements the items already handed out,
    followed by the items still queued, are the input list; at most
    [concurrency] calls are in flight; when no call rejects and the pool
    has drained, the calls made are exactly the items, each once and in
    input order.  With a concurrency of zero no worker is started, so the
    pool is done at once and no item is processed. *)
Theorem runPool_hands_out_each_item_once (items : list A) (concurrency : nat)
  (sched : list (nat * bool)) :
  map snd (calls (run items concurrency sched)) ++ queue (run items concurrency sched)
  = items
  /\ length (in_flight (run items concurrency sched)) <= concurrency
  /\ (Forall (fun e => e.2 = true) sched -> 0 < concurrency ->
      drained (run items concurrency sched) = true ->
      map snd (calls (run items concurrency sched)) = items)
  /\ (concurrency = 0 ->
      calls (run items concurrency sched) = []
      /\ drained (run items concurrency sched) = true).
Proof.
  destruct (start_spec items concurrency) as (C0 & L0 & B0).
  destruct (run_conserves sched (start items concurrency)) as (C & L).
  fold (run items concurrency sched) in C, L.
  split; [congruence|]. split; [|split].
  - unfold in_flight. etransitivity; [apply omap_length_le|]. lia.
  - intros Hall Hc Hd.
    pose proof (run_busy concurrency sched _ Hall B0) as Hb.
    fold (run items concurrency sched) in Hb.
    rewrite (drained_no_prefix concurrency _ Hc Hd Hb), app_nil_r in C.
    congruence.
  - intros ->. unfold run, start. cbn [seq foldl replicate].
    assert (Hfix : forall p : pool A, workers p = [] -> foldl settle p sched = p).
    { induction sched as [|e sched IH]; intros p Hp; cbn [foldl]; [reflexivity|].
      unfold settle at 2. rewrite Hp. cbn. now apply IH. }
    rewrite Hfix by reflexivity. split; reflexivity.
Qed.

End PoolFacts.

(* ===================================================================== *)
(** ** What an operation requests *)
(* ===================================================================== *)

Section Asks.
Import Js Eff.
Context {H D : Type}.
Variable P : string -> Prop.
#[local] Open Scope string_scope.
#[local] Open Scope list_scope.
#[local] Open Scope Z_scope.

Lemma fetched_app (l1 l2 : list (event D)) :
  fetched (l1 ++ l2) = fetched l1 ++ fetched l2.
Proof. unfold fetched. apply omap_app. Qed.

Lemma asks_ret {A} (a : A) : asks (H:=H) (D:=D) P (ret a).
Proof. intros w. exists []. split; [symmetry; apply app_nil_r|constructor]. Qed.

Lemma asks_throw {A} (e : error) : asks (H:=H) (D:=D) P (throw (A:=A) e).
Proof. intros w. exists []. split; [symmetry; apply app_nil_r|constructor]. Qed.

Lemma asks_diverge {A} : asks (H:=H) (D:=D) P (diverge (A:=A)).
Proof. intros w. exists []. split; [symmetry; apply app_nil_r|constructor]. Qed.

Lemma asks_bind {A B} (op : M (H:=H) (D:=D) A) (k : A -> M B) :
  asks P op -> (forall a, asks P (k a)) -> asks P (bind op k).
Proof.
  intros Hop Hk w. unfold bind. destruct (Hop w) as (n1 & E1 & F1).
  destruct (op w) as [[a|e|] w1]; cbn [snd] in *; eauto.
  destruct (Hk a w1) as (n2 & E2 & F2). exists (n1 ++ n2). split.
  - rewrite E2, E1. now rewrite app_assoc.
  - rewrite fetched_app. now apply Forall_app.
Qed.

Lemma asks_try_catch {A} (op : M (H:=H) (D:=D) A) (h : error -> M A) :
  asks P op -> (forall e, asks P (h e)) -> asks P (try_catch op h).
Proof.
  intros Hop Hh w. unfold try_catch. destruct (Hop w) as (n1 & E1 & F1).
  destruct (op w) as [[a|e|] w1]; cbn [snd] in *; eauto.
  destruct (Hh e w1) as (n2 & E2 & F2). exists (n1 ++ n2). split.
  - rewrite E2, E1. now rewrite app_assoc.
  - rewrite fetched_app. now apply Forall_app.
Qed.

(** An operation that leaves the log as it is, or adds one event that is
    not a request. *)
Lemma asks_quietly {A} (op : M (H:=H) (D:=D) A) :
  (forall w, log (op w).2 = log w
             \/ exists e, log (op w).2 = log w ++ [e] /\ fetched [e] = []) ->
  asks P op.
Proof.
  intros Hop w. destruct (Hop w) as [E|(e & E & F)].
  - exists []. split; [rewrite E; symmetry; apply app_nil_r|constructor].
  - exists [e]. split; [exact E|]. rewrite F. constructor.
Qed.

Lemma asks_warn (msg : string) : asks (H:=H) (D:=D) P (warn msg).
Proof. apply asks_quietly. intros w. right. eexists. split; reflexivity. Qed.

Lemma asks_console_error (msg : string) : asks (H:=H) (D:=D) P (console_error msg).
Proof. apply asks_quietly. intros w. right. eexists. split; reflexivity. Qed.

Lemma asks_sleep (ms : Z) : asks (H:=H) (D:=D) P (sleep ms).
Proof. apply asks_quietly. intros w. right. eexists. split; reflexivity. Qed.

Lemma asks_writeFile (path : string) (d : D) : asks (H:=H) P (writeFile path d).
Proof.
  apply asks_quietly. intros w. right. unfold writeFile. run.
  destruct (faults w (ios w)); rd; eexists; split; reflexivity.
Qed.

Lemma asks_readDoc (path : string) : asks (H:=H) (D:=D) P (readDoc path).
Proof.
  apply asks_quietly. intros w. left. unfold readDoc. run.
  destruct (faults w (ios w)); rd; [reflexivity|].
  destruct (docs w !! path) as [[d|]|]; reflexivity.
Qed.

Lemma asks_readLines (path : string) : asks (H:=H) (D:=D) P (readLines path).
Proof.
  apply asks_quietly. intros w. left. unfold readLines. run.
  destruct (faults w (ios w)); rd; [reflexivity|].
  destruct (ndjson w !! path); reflexivity.
Qed.

Lemma asks_appendLines (path : string) (l : list value) :
  asks (H:=H) (D:=D) P (appendLines path l).
Proof.
  apply asks_quietly. intros w. left. unfold appendLines. run.
  destruct (faults w (ios w)); reflexivity.
Qed.

Lemma asks_fetch (url : string) : P url -> asks (H:=H) (D:=D) P (fetch url).
Proof.
  intros Hu w. exists [EvFetch url]. unfold fetch.
  destruct (net w (reqs w) url); (split; [reflexivity|]); cbn; constructor; auto.
Qed.

End Asks.

Lemma asks_weaken {H D A} (P Q : string -> Prop) (op : Eff.M (H:=H) (D:=D) A) :
  (forall u, P u -> Q u) -> asks P op -> asks Q op.
Proof.
  intros HPQ Hop w. destruct (Hop w) as (new & E & F). exists new.
  split; [exact E|]. eapply Forall_impl; eassumption.
Qed.

Ltac asks_prim :=
  first
    [ apply asks_ret | apply asks_throw | apply asks_diverge | apply asks_warn
    | apply asks_console_error | apply asks_sleep | apply asks_writeFile
    | apply asks_readDoc | apply asks_readLines | apply asks_appendLines ].

Ltac asks_step :=
  first
    [ progress intros
    | asks_prim
    | apply asks_bind
    | apply asks_try_catch
    | match goal with
      | |- asks _ (match ?x with _ => _ end) => destruct x
      | |- asks _ (let '(_, _) := ?x in _) => destruct x
      end ].
Ltac asks_tac := repeat asks_step.

(* ===================================================================== *)
(** ** Runs of the level fetcher *)
(* ===================================================================== *)

Section LevelsMore.
Import Js Eff.
#[local] Open Scope string_scope.
#[local] Open Scope list_scope.
#[local] Open Scope Z_scope.

Lemma set_has_false (s : jsset) (v : value) :
  set_has s v = false <-> forall p, key_of v = Some p -> p ∉ keys s.
Proof.
  unfold set_has. destruct (key_of v) as [q|]; [|naive_solver].
  rewrite bool_decide_eq_false. naive_solver.
Qed.

Lemma proper_set_add (s : jsset) (v : value) : proper s -> proper (set_add s v).
Proof.
  unfold proper, set_add. intros Hs. destruct (set_has s v) eqn:Hv; [exact Hs|].
  rewrite keys_app. unfold keys at 2. cbn [omap list_omap].
  destruct (key_of v) as [p|] eqn:Hk; cbn.
  - apply NoDup_app. split; [exact Hs|]. split; [|apply NoDup_singleton].
    intros q Hq Hq'. apply list_elem_of_singleton in Hq' as ->.
    exact (proj1 (set_has_false s v) Hv p Hk Hq).
  - now rewrite app_nil_r.
Qed.

Lemma proper_foldl (arr : list value) :
  forall acc : jsset, proper acc -> proper (foldl set_add acc arr).
Proof.
  induction arr as [|a rest IH]; intros acc Hacc; cbn [foldl]; [exact Hacc|].
  apply IH, proper_set_add, Hacc.
Qed.

Lemma proper_new_Set (arr : list value) : proper (new_Set arr).
Proof. apply proper_foldl. constructor. Qed.

Lemma foldl_set_add_proper (s : jsset) :
  forall acc : jsset, proper (acc ++ s) -> foldl set_add acc s = acc ++ s.
Proof.
  induction s as [|v s IH]; intros acc Hp; cbn [foldl]; [now rewrite app_nil_r|].
  assert (Hv : set_has acc v = false).
  { apply set_has_false. intros p Hk Hin. unfold proper in Hp.
    rewrite keys_app in Hp. unfold keys at 2 in Hp. cbn [omap list_omap] in Hp.
    rewrite Hk in Hp. apply NoDup_app in Hp as (_ & Hd & _).
    apply (Hd p Hin). now left. }
  unfold set_add at 2. rewrite Hv.
  rewrite IH; rewrite <- app_assoc; [reflexivity|exact Hp].
Qed.

(** [new Set([...s])] is [s] again. *)
Lemma new_Set_proper (s : jsset) : proper s -> new_Set s = s.
Proof. intros Hs. unfold new_Set. now rewrite foldl_set_add_proper. Qed.

(** X19: the index file gives back the set that was saved.  For a set
    without duplicates, as [new Set] and [Set.add] always produce, and
    with no fault at the write and at the read, [saveIndex] followed by
    [loadIndex] returns the same set in the same order, and the index
    file holds it. *)
Theorem index_round_trip (level : Z) (s : jsset) (w : Levels.world) :
  proper s -> faults w (ios w) = None -> faults w (S (ios w)) = None ->
  (exists w1 w2,
     Levels.saveIndex level s w = (Returned tt, w1)
     /\ Levels.loadIndex level w1 = (Returned s, w2)
     /\ docs w2 !! Levels.indexPathFor level = Some (Doc (Levels.DIndex s)))
  /\ (forall arr, proper (new_Set arr))
  /\ (forall v, proper (set_add s v)).
Proof.
  intros Hs H0 H1. split; [|split; [apply proper_new_Set|]].
  2:{ intros v. now apply proper_set_add. }
  unfold Levels.saveIndex, Levels.loadIndex, Levels.existsDoc. run. rewrite H0. rd.
  eexists _, _. split; [reflexivity|]. rd.
  rewrite lookup_insert_eq. rewrite bool_decide_eq_true_2 by eauto. cbn [negb]. rd.
  rewrite H1. rd. rewrite lookup_insert_eq. rd. rewrite (new_Set_proper s Hs).
  split; [reflexivity|]. rd. now rewrite lookup_insert_eq.
Qed.

Lemma index_round_trip_witness :
  (exists w1 w2,
     Levels.saveIndex 1 [VStr "u1"; VStr "u2"] Scenario.levels_404 = (Returned tt, w1)
     /\ Levels.loadIndex 1 w1 = (Returned [VStr "u1"; VStr "u2"], w2)
     /\ docs w2 !! Levels.indexPathFor 1
        = Some (Doc (Levels.DIndex [VStr "u1"; VStr "u2"])))
  /\ (forall arr, proper (new_Set arr))
  /\ (forall v, proper (set_add [VStr "u1"; VStr "u2"] v)).
Proof.
  apply (index_round_trip 1 [VStr "u1"; VStr "u2"] Scenario.levels_404);
    [|reflexivity|reflexivity].
  apply (bool_decide_unpack _). vm_compute. exact I.
Defined.

(** The courses that [appendUniqueCoursesToNdjson] writes and the set it
    leaves. *)
Lemma unique_courses_spec (courses : list value) :
  forall uriSet : jsset,
    sublist (Levels.unique_courses courses uriSet).1 courses
    /\ Forall (fun c => truthy (uri_of c) = true) (Levels.unique_courses courses uriSet).1
    /\ (Levels.unique_courses courses uriSet).2
       = uriSet ++ map uri_of (Levels.unique_courses courses uriSet).1.
Proof.
  induction courses as [|c rest IH]; intros uriSet; cbn [Levels.unique_courses].
  - cbn. rewrite app_nil_r. repeat split; constructor.
  - fold (uri_of c). destruct (truthy (uri_of c)) eqn:Ht; cbn [negb].
    2:{ destruct (IH uriSet) as (S1 & S2 & S3). split; [now apply sublist_cons|]. auto. }
    destruct (set_has uriSet (uri_of c)) eqn:Hhas.
    { destruct (IH uriSet) as (S1 & S2 & S3). split; [now apply sublist_cons|]. auto. }
    destruct (IH (set_add uriSet (uri_of c))) as (S1 & S2 & S3).
    destruct (Levels.unique_courses rest (set_add uriSet (uri_of c)))
      as [written uriSet']. cbn [fst snd] in *.
    split; [now apply sublist_skip|]. split; [now constructor|].
    rewrite S3. unfold set_add. rewrite Hhas. cbn [map]. now rewrite <- app_assoc.
Qed.

(** X20: what the level fetcher appends of a page.  The records written
    are a sub-sequence of the courses of the page, in page order; each has
    a truthy [uri] that was not in the set before; the set afterwards is
    the old one followed by the uris of the written records, so the count
    the function returns is the growth of the set and no uri is written
    twice, neither within a page nor across pages. *)
Theorem unique_courses_written_once (courses : list value) (uriSet : jsset) :
  sublist (Levels.unique_courses courses uriSet).1 courses
  /\ Forall (fun c => truthy (uri_of c) = true /\ set_has uriSet (uri_of c) = false)
            (Levels.unique_courses courses uriSet).1
  /\ (Levels.unique_courses courses uriSet).2
     = uriSet ++ map uri_of (Levels.unique_courses courses uriSet).1
  /\ length (Levels.unique_courses courses uriSet).2
     = (length uriSet + length (Levels.unique_courses courses uriSet).1)%nat
  /\ (proper uriSet -> proper (Levels.unique_courses courses uriSet).2).
Proof.
  destruct (unique_courses_spec courses uriSet) as (S1 & S2 & S3).
  destruct (unique_courses_fresh courses uriSet) as (F1 & _).
  split; [exact S1|]. split; [|split; [exact S3|split]].
  - rewrite Forall_forall in S2, F1 |- *. intros c Hc. split; [now apply S2|now apply F1].
  - rewrite S3 at 1. rewrite length_app, length_map. reflexivity.
  - intros Hp. clear S1 S2 S3 F1. revert uriSet Hp.
    induction courses as [|c rest IH]; intros uriSet Hp; cbn [Levels.unique_courses];
      [exact Hp|].
    destruct (negb _); [now apply IH|].
    destruct (set_has uriSet _) eqn:Hh; [now apply IH|].
    specialize (IH (set_add uriSet (if truthy c then prop c "uri" else c))
                   (proper_set_add _ _ Hp)).
    destruct (Levels.unique_courses rest _) as [written s']. exact IH.
Qed.

Lemma string_app_inv_head (s t u : string) : s +:+ t = s +:+ u -> t = u.
Proof. induction s as [|a s IH]; cbn; [auto|]. intros [= H]. auto. Qed.

Lemma index_ne_progress (level : Z) :
  Levels.indexPathFor level <> Levels.progressPathFor level.
Proof.
  unfold Levels.indexPathFor, Levels.progressPathFor. intros H.
  do 3 apply string_app_inv_head in H. discriminate.
Qed.

(** A run resumes after the page that the progress file names. *)
Lemma processLevel_resumes (fuel : nat) (level : Z) (w : Levels.world)
  (idx : list value) (p : Levels.progress) :
  docs w !! Levels.indexPathFor level = Some (Doc (Levels.DIndex idx)) ->
  docs w !! Levels.progressPathFor level = Some (Doc (Levels.DProgress p)) ->
  faults w (ios w) = None -> faults w (S (ios w)) = None ->
  exists w2,
    Levels.processLevel fuel level w
    = Levels.level_loop fuel level (Levels.lastFrom p + Levels.SIZE)
        (Levels.totalSaved p) (new_Set idx) w2
    /\ docs w2 = docs w /\ ndjson w2 = ndjson w /\ reqs w2 = reqs w
    /\ net w2 = net w /\ log w2 = log w /\ faults w2 = faults w
    /\ ios w2 = S (S (ios w)).
Proof.
  intros Hi Hp H0 H1. unfold Levels.processLevel, Levels.loadIndex,
    Levels.loadProgress, Levels.existsDoc. run.
  rewrite Hi. rewrite bool_decide_eq_true_2 by eauto. cbn [negb]. rd.
  rewrite H0. rd. rewrite Hi. rd. rewrite Hp.
  rewrite bool_decide_eq_true_2 by eauto. cbn [negb]. rd.
  rewrite H1. rd. rewrite Hp. rd.
  eexists. split; [reflexivity|]. rd. repeat split.
Qed.

(** A page that cannot be fetched ends the run: the progress file is
    written for the page before it, the index as it stands. *)
Lemma level_loop_unreachable (fuel : nat) (level from' total : Z) (s : jsset)
  (w : Levels.world) :
  (forall n, fails200 w (Levels.buildUrl level from') n) ->
  faults w (ios w) = None -> faults w (S (ios w)) = None ->
  exists w1,
    Levels.level_loop (S fuel) level from' total s w = (Returned total, w1)
    /\ docs w1
       = <[Levels.indexPathFor level := Doc (Levels.DIndex s)]>
           (<[Levels.progressPathFor level :=
                Doc (Levels.DProgress (Levels.Progress (Z.max 0 (from' - Levels.SIZE)) total))]>
              (docs w))
    /\ ndjson w1 = ndjson w /\ reqs w1 = (reqs w + 6)%nat /\ net w1 = net w
    /\ faults w1 = faults w /\ ios w1 = S (S (ios w)).
Proof.
  intros Hf H0 H1. cbn [Levels.level_loop]. unfold bind at 1.
  destruct (levels_retry_exhausted (Levels.buildUrl level from') 6 0 w Hf)
    as (w0 & new & E & Hs & Hr & _).
  unfold Levels.fetchPageWithRetry, Levels.MAX_RETRIES. rewrite E.
  destruct Hs as (Hh & Hd & Hnd & Hi & Hfa & Hn & _).
  unfold Levels.saveProgress, Levels.saveIndex. run.
  rewrite Hfa, Hi, H0. rd. rewrite H1. rd.
  eexists. split; [reflexivity|]. rd. rewrite Hd. repeat split; assumption.
Qed.

Lemma asks_existsDoc (P : string -> Prop) (path : string) :
  asks P (Levels.existsDoc path).
Proof. apply asks_quietly. intros w. now left. Qed.

Lemma asks_existsLines (P : string -> Prop) (path : string) :
  asks P (Levels.existsLines path).
Proof. apply asks_quietly. intros w. now left. Qed.

Lemma asks_page_retry (P : string -> Prop) (url : string) (remaining : nat) :
  P url -> forall attempt, asks P (Levels.page_retry url attempt remaining).
Proof.
  intros Hu. induction remaining as [|r IH]; intros attempt; cbn [Levels.page_retry].
  - apply asks_ret.
  - apply asks_bind.
    + apply asks_try_catch.
      * apply asks_bind; [now apply asks_fetch|]. asks_tac.
      * asks_tac.
    + intros [result|]; [apply asks_ret|apply IH].
Qed.

Lemma asks_regenerateFinalJson (P : string -> Prop) (level lastFrom : Z) :
  asks P (Levels.regenerateFinalJson level lastFrom).
Proof.
  unfold Levels.regenerateFinalJson.
  apply asks_bind; [apply asks_existsLines|]. asks_tac.
Qed.

Lemma asks_appendUnique (P : string -> Prop) (level : Z) (courses : list value)
  (s : jsset) :
  asks P (Levels.appendUniqueCoursesToNdjson level courses s).
Proof. unfold Levels.appendUniqueCoursesToNdjson. asks_tac. Qed.

(** The loop of a level requests only pages at or after its offset. *)
Lemma asks_level_loop (level : Z) (fuel : nat) :
  forall (from' total : Z) (s : jsset),
    asks (fun u => exists f, from' <= f /\ u = Levels.buildUrl level f)
         (Levels.level_loop fuel level from' total s).
Proof.
  induction fuel as [|fuel IH]; intros from' total s; cbn [Levels.level_loop].
  - apply asks_diverge.
  - apply asks_bind.
    { apply asks_page_retry. exists from'. split; [lia|reflexivity]. }
    intros [data st|err].
    2:{ unfold Levels.saveProgress, Levels.saveIndex. asks_tac. }
    destruct (nullish data); [apply asks_throw|].
    destruct (prop data "courses") as [| | | | |cs|];
      try (unfold Levels.saveProgress, Levels.saveIndex; asks_tac; fail).
    destruct cs as [|c cs].
    { apply asks_bind; [apply asks_regenerateFinalJson|].
      unfold Levels.saveProgress, Levels.saveIndex. asks_tac. }
    apply asks_bind; [apply asks_appendUnique|]. intros [appended s'].
    apply asks_bind; [unfold Levels.saveIndex; asks_tac|]. intros _.
    apply asks_bind; [unfold Levels.saveProgress; asks_tac|]. intros _.
    apply asks_bind; [apply asks_regenerateFinalJson|]. intros _.
    destruct (Levels.last_page _).
    + apply asks_bind; [apply asks_regenerateFinalJson|].
      unfold Levels.saveProgress, Levels.saveIndex. asks_tac.
    + eapply asks_weaken; [|apply IH]. cbn. intros u (f & Hf & ->).
      exists f. split; [unfold Levels.SIZE in Hf; lia|reflexivity].
Qed.

Lemma string_length_app (s t : string) :
  String.length (s +:+ t) = (String.length s + String.length t)%nat.
Proof.
  induction s as [|a s IH]; [reflexivity|].
  change (S (String.length (s +:+ t)) = S (String.length s + String.length t)).
  now rewrite IH.
Qed.

Lemma string_app_inv_tail (s1 : string) :
  forall s2 t : string, s1 +:+ t = s2 +:+ t -> s1 = s2.
Proof.
  induction s1 as [|a s1 IH]; intros [|b s2] t E.
  - reflexivity.
  - apply (f_equal String.length) in E. rewrite !string_length_app in E.
    cbn [String.length] in E. lia.
  - apply (f_equal String.length) in E. rewrite !string_length_app in E.
    cbn [String.length] in E. lia.
  - change (String a (s1 +:+ t) = String b (s2 +:+ t)) in E.
    injection E as -> E. f_equal. eapply IH, E.
Qed.

(** Two offsets give two URLs. *)
Lemma buildUrl_from_inj (level f g : Z) :
  Levels.buildUrl level f = Levels.buildUrl level g -> f = g.
Proof.
  unfold Levels.buildUrl. intros E.
  repeat (apply string_app_inv_head in E).
  apply string_app_inv_tail in E. now apply (inj pretty) in E.
Qed.

(** A run that finds the progress [lastFrom = 0] starts its loop at
    [SIZE] and so requests only pages from that offset on. *)
Lemma processLevel_asks_after (fuel : nat) (level t : Z) (w : Levels.world) :
  docs w !! Levels.progressPathFor level
  = Some (Doc (Levels.DProgress (Levels.Progress 0 t))) ->
  faults w (ios w) = None -> faults w (S (ios w)) = None ->
  exists new,
    log (Levels.processLevel fuel level w).2 = log w ++ new
    /\ Forall (fun u => exists f, Levels.SIZE <= f /\ u = Levels.buildUrl level f)
              (fetched new).
Proof.
  intros Hp H0 H1.
  assert (Hidx : exists s w1 pre,
             Levels.loadIndex level w = (Returned s, w1)
             /\ docs w1 = docs w /\ faults w1 = faults w
             /\ (ios w1 = ios w \/ ios w1 = S (ios w))
             /\ log w1 = log w ++ pre /\ fetched pre = []).
  { unfold Levels.loadIndex, Levels.existsDoc. run.
    destruct (docs w !! Levels.indexPathFor level) as [cnt|] eqn:Hd.
    - rewrite bool_decide_eq_true_2 by eauto. cbn [negb]. rd. rewrite H0. rd.
      rewrite Hd. destruct cnt as [d|]; rd.
      + eexists _, _, []. split; [reflexivity|]. rd. rewrite app_nil_r. auto 10.
      + eexists _, _, [_]. split; [reflexivity|]. rd. auto 10.
    - rewrite bool_decide_eq_false_2 by (intros [? ?]; discriminate). cbn [negb].
      eexists _, w, []. split; [reflexivity|]. rewrite app_nil_r. auto 10. }
  destruct Hidx as (s & w1 & pre & E1 & Hd1 & Hf1 & Hi1 & Hl1 & Hq1).
  assert (Hf : faults w1 (ios w1) = None).
  { rewrite Hf1. destruct Hi1 as [-> | ->]; assumption. }
  assert (Hprog : exists w2,
             Levels.loadProgress level w1 = (Returned (Some (Levels.Progress 0 t)), w2)
             /\ log w2 = log w1).
  { unfold Levels.loadProgress, Levels.existsDoc. run. rewrite Hd1, Hp.
    rewrite bool_decide_eq_true_2 by eauto. cbn [negb]. rd. rewrite Hf. rd.
    rewrite Hd1, Hp. rd. eexists. split; reflexivity. }
  destruct Hprog as (w2 & E2 & Hl2).
  unfold Levels.processLevel. unfold bind at 1. rewrite E1.
  unfold bind at 1. rewrite E2. cbn [Levels.lastFrom Levels.totalSaved].
  destruct (asks_level_loop level fuel (0 + Levels.SIZE) t s w2) as (new & E & F).
  exists (pre ++ new). split.
  - rewrite E, Hl2, Hl1. now rewrite app_assoc.
  - rewrite fetched_app, Hq1. cbn [app]. eapply Forall_impl; [exact F|].
    cbn. intros u (f & Hf' & ->). exists f. split; [lia|reflexivity].
Qed.

(** X21: a first page that cannot be fetched is skipped by the run that
    resumes.  On a fresh level whose page 0 fails all six requests,
    [processLevel] returns, having saved the progress
    [lastFrom = max 0 (0 - SIZE) = 0].  A run that finds the progress file
    as this run left it, and whose first two file operations do not fail,
    starts its loop at [lastFrom + SIZE]: every URL it requests is that of
    an offset of at least [SIZE], and the URL of offset 0 is not among
    them. *)
Theorem failed_first_page_is_skipped (fuel : nat) (level : Z) (w : Levels.world) :
  docs w !! Levels.indexPathFor level = None ->
  docs w !! Levels.progressPathFor level = None ->
  no_faults w ->
  (forall n, fails200 w (Levels.buildUrl level 0) n) ->
  exists w1,
    Levels.processLevel (S fuel) level w = (Returned 0, w1)
    /\ reqs w1 = (reqs w + 6)%nat
    /\ docs w1 !! Levels.progressPathFor level
       = Some (Doc (Levels.DProgress (Levels.Progress 0 0)))
    /\ (forall fuel2, exists w2,
          Levels.processLevel fuel2 level w1
          = Levels.level_loop fuel2 level Levels.SIZE 0 [] w2
          /\ reqs w2 = reqs w1 /\ log w2 = log w1 /\ ndjson w2 = ndjson w1)
    /\ (forall fuel2 (w' : Levels.world),
          docs w' !! Levels.progressPathFor level
          = docs w1 !! Levels.progressPathFor level ->
          faults w' (ios w') = None -> faults w' (S (ios w')) = None ->
          exists new,
            log (Levels.processLevel fuel2 level w').2 = log w' ++ new
            /\ Forall (fun u => exists f, Levels.SIZE <= f
                                          /\ u = Levels.buildUrl level f)
                      (fetched new)
            /\ Levels.buildUrl level 0 ∉ fetched new).
Proof.
  intros Hi Hp Hnf Hf.
  destruct (level_loop_unreachable fuel level 0 0 [] w Hf (Hnf _) (Hnf _))
    as (w1 & E & Hd & Hnd & Hr & Hn & Hfa & Hio).
  exists w1. split.
  { unfold Levels.processLevel, Levels.loadIndex, Levels.loadProgress,
      Levels.existsDoc. unfold bind at 1, bind at 1. rewrite Hi.
    rewrite bool_decide_eq_false_2 by (intros [? ?]; discriminate). cbn [negb].
    unfold ret at 1. unfold bind at 1, bind at 1. rewrite Hp.
    rewrite bool_decide_eq_false_2 by (intros [? ?]; discriminate). cbn [negb].
    unfold ret at 1. exact E. }
  split; [exact Hr|].
  assert (Hprog : docs w1 !! Levels.progressPathFor level
                  = Some (Doc (Levels.DProgress (Levels.Progress 0 0)))).
  { rewrite Hd, lookup_insert_ne by apply index_ne_progress.
    now rewrite lookup_insert_eq. }
  split; [exact Hprog|]. split.
  - intros fuel2.
    destruct (processLevel_resumes fuel2 level w1 [] (Levels.Progress 0 0))
      as (w2 & E2 & _ & Hnd2 & Hr2 & _ & Hl2 & _).
    + rewrite Hd. now rewrite lookup_insert_eq.
    + exact Hprog.
    + rewrite Hfa. apply Hnf.
    + rewrite Hfa. apply Hnf.
    + exists w2. split; [exact E2|]. auto.
  - intros fuel2 w' Hp' H0 H1. rewrite Hprog in Hp'.
    destruct (processLevel_asks_after fuel2 level 0 w' Hp' H0 H1) as (new & El & F).
    exists new. split; [exact El|]. split; [exact F|].
    intros Hin. rewrite Forall_forall in F. destruct (F _ Hin) as (f & Hf' & Hu).
    apply buildUrl_from_inj in Hu. unfold Levels.SIZE in Hf'. lia.
Qed.

Lemma failed_first_page_is_skipped_witness :
  exists w1,
    Levels.processLevel 1 1 Scenario.levels_503 = (Returned 0, w1)
    /\ reqs w1 = (reqs Scenario.levels_503 + 6)%nat
    /\ docs w1 !! Levels.progressPathFor 1
       = Some (Doc (Levels.DProgress (Levels.Progress 0 0)))
    /\ (forall fuel2, exists w2,
          Levels.processLevel fuel2 1 w1
          = Levels.level_loop fuel2 1 Levels.SIZE 0 [] w2
          /\ reqs w2 = reqs w1 /\ log w2 = log w1 /\ ndjson w2 = ndjson w1)
    /\ (forall fuel2 (w' : Levels.world),
          docs w' !! Levels.progressPathFor 1
          = docs w1 !! Levels.progressPathFor 1 ->
          faults w' (ios w') = None -> faults w' (S (ios w')) = None ->
          exists new,
            log (Levels.processLevel fuel2 1 w').2 = log w' ++ new
            /\ Forall (fun u => exists f, Levels.SIZE <= f
                                          /\ u = Levels.buildUrl 1 f)
                      (fetched new)
            /\ Levels.buildUrl 1 0 ∉ fetched new).
Proof.
  apply (failed_first_page_is_skipped 0 1 Scenario.levels_503);
    [reflexivity | reflexivity | intros n; reflexivity | intros n; reflexivity].
Defined.

(** X22: the final file is rebuilt from the record file.  On a disk
    without faults [regenerateFinalJson] returns and leaves in the final
    file the given [lastFrom], the number of lines of the record file as
    [totalSaved] and those lines as [courses]; a missing record file
    counts as empty.  The record file is not changed and no request is
    sent. *)
Theorem regenerateFinalJson_counts_lines (level lastFrom : Z) (w : Levels.world) :
  no_faults w ->
  exists w1,
    Levels.regenerateFinalJson level lastFrom w = (Returned tt, w1)
    /\ docs w1 !! Levels.jsonPathFor level
       = Some (Doc (Levels.DFinal
                      (Levels.Progress lastFrom
                         (Z.of_nat (length (default [] (ndjson w !! Levels.ndjsonPathFor level)))))
                      (default [] (ndjson w !! Levels.ndjsonPathFor level))))
    /\ ndjson w1 = ndjson w /\ reqs w1 = reqs w.
Proof.
  intros Hnf. unfold Levels.regenerateFinalJson, Levels.existsLines. run.
  destruct (ndjson w !! Levels.ndjsonPathFor level) as [lines|] eqn:Hl.
  - rewrite bool_decide_eq_true_2 by eauto. cbn [negb]. rd.
    rewrite Hnf. rd. rewrite Hl. rd. rewrite Hnf. rd. rewrite Hnf. rd.
    rewrite lookup_insert_eq. rd. rewrite Hnf. rd.
    eexists. split; [reflexivity|]. rd. rewrite lookup_insert_eq. repeat split.
  - rewrite bool_decide_eq_false_2 by (intros [? ?]; discriminate). cbn [negb]. rd.
    rewrite Hnf. rd. eexists. split; [reflexivity|]. rd.
    rewrite lookup_insert_eq. repeat split.
Qed.

Lemma regenerateFinalJson_counts_lines_witness :
  exists w1,
    Levels.regenerateFinalJson 1 300 Scenario.levels_three_lines = (Returned tt, w1)
    /\ docs w1 !! Levels.jsonPathFor 1
       = Some (Doc (Levels.DFinal
                      (Levels.Progress 300
                         (Z.of_nat (length (default [] (ndjson Scenario.levels_three_lines
                                                        !! Levels.ndjsonPathFor 1)))))
                      (default [] (ndjson Scenario.levels_three_lines
                                     !! Levels.ndjsonPathFor 1))))
    /\ ndjson w1 = ndjson Scenario.levels_three_lines
    /\ reqs w1 = reqs Scenario.levels_three_lines.
Proof.
  apply (regenerateFinalJson_counts_lines 1 300 Scenario.levels_three_lines).
  intros n. reflexivity.
Defined.

(** One round of the level loop on a page with courses that is not flagged
    as the last: the loop goes on with the next offset. *)
Lemma level_loop_goes_on (fuel : nat) (level from' total : Z) (s : jsset)
  (w : Levels.world) (res : response) (data : value) (c : value) (cs : list value) :
  no_faults w ->
  net w (reqs w) (Levels.buildUrl level from') = Responds res ->
  status res = 200 -> parsed res = Some data ->
  prop data "courses" = VArr (c :: cs) ->
  Levels.last_page (coalesce (prop data "paginationInfos") VNull) = false ->
  exists w1 total' s',
    Levels.level_loop (S fuel) level from' total s w
    = Levels.level_loop fuel level (from' + Levels.SIZE) total' s' w1
    /\ net w1 = net w /\ faults w1 = faults w /\ reqs w1 = S (reqs w).
Proof.
  intros Hnf Hn Hst Hp Hc Hlast. cbn [Levels.level_loop]. unfold bind at 1.
  destruct (levels_retry_recovers (Levels.buildUrl level from') res data 0 6 0 w)
    as (w0 & new & E & Hs & Hr & _); try assumption; try lia.
  { now rewrite Nat.add_0_r. }
  unfold Levels.fetchPageWithRetry, Levels.MAX_RETRIES. rewrite E.
  destruct Hs as (Hh & Hd & Hnd & Hi & Hfa & Hn0 & _).
  assert (Hnl : nullish data = false) by (destruct data; try discriminate Hc; reflexivity).
  rewrite Hnl, Hc, Hlast.
  unfold Levels.appendUniqueCoursesToNdjson.
  destruct (Levels.unique_courses (c :: cs) s) as [written s'].
  assert (Hnf0 : no_faults w0) by (intros n; rewrite Hfa; apply Hnf).
  unfold Levels.saveIndex, Levels.saveProgress, Levels.regenerateFinalJson,
    Levels.existsLines. run.
  repeat (first [ rewrite Hnf0 | rewrite lookup_insert_eq
                | rewrite bool_decide_eq_true_2 by eauto ]; rd; cbn [negb]).
  eexists _, _, _. split; [reflexivity|]. rd. repeat split; try assumption. lia.
Qed.

(** The loaders of the level fetcher never throw. *)
Lemma levels_loaders_run (level : Z) (w : Levels.world) :
  (exists w1,
     Levels.loadIndex level w
     = (Returned (match docs w !! Levels.indexPathFor level, faults w (ios w) with
                  | Some (Doc (Levels.DIndex idx)), None => new_Set idx
                  | _, _ => []
                  end), w1)
     /\ docs w1 = docs w /\ ndjson w1 = ndjson w /\ reqs w1 = reqs w
     /\ net w1 = net w /\ faults w1 = faults w)
  /\ (exists w1,
        Levels.loadProgress level w
        = (Returned (match docs w !! Levels.progressPathFor level, faults w (ios w) with
                     | Some (Doc (Levels.DProgress p)), None => Some p
                     | _, _ => None
                     end), w1)
        /\ docs w1 = docs w /\ ndjson w1 = ndjson w /\ reqs w1 = reqs w
        /\ net w1 = net w /\ faults w1 = faults w).
Proof.
  split.
  - unfold Levels.loadIndex, Levels.existsDoc. run.
    destruct (docs w !! Levels.indexPathFor level) as [cnt|] eqn:Hd.
    + rewrite bool_decide_eq_true_2 by eauto. cbn [negb]. rd.
      destruct (faults w (ios w)); rd.
      * destruct cnt as [[]|]; (eexists; split; [reflexivity|]; repeat split).
      * rewrite Hd. destruct cnt as [[]|]; rd;
          (eexists; split; [reflexivity|]; repeat split).
    + rewrite bool_decide_eq_false_2 by (intros [? ?]; discriminate). cbn [negb].
      eexists; split; [reflexivity|]; repeat split.
  - unfold Levels.loadProgress, Levels.existsDoc. run.
    destruct (docs w !! Levels.progressPathFor level) as [cnt|] eqn:Hd.
    + rewrite bool_decide_eq_true_2 by eauto. cbn [negb]. rd.
      destruct (faults w (ios w)); rd.
      * destruct cnt as [[]|]; (eexists; split; [reflexivity|]; repeat split).
      * rewrite Hd. destruct cnt as [[]|]; rd;
          (eexists; split; [reflexivity|]; repeat split).
    + rewrite bool_decide_eq_false_2 by (intros [? ?]; discriminate). cbn [negb].
      eexists; split; [reflexivity|]; repeat split.
Qed.

(** X14: the loaders of a checkpoint never throw.  [loadMeta] of the bulk
    fetcher returns the document of the checkpoint file, or the empty
    document when the file is missing, cannot be read or does not parse;
    [loadIndex] and [loadProgress] of the level fetcher return the saved
    set and progress, or the empty set and [null] in the same cases.  None
    of them changes a file or sends a request. *)
Theorem loaders_fall_back (wb : Bulk.world) (level : Z) (w : Levels.world) :
  (exists w1,
     Bulk.loadMeta wb
     = (Returned (match faults wb (ios wb) with
                  | None => on_disk wb
                  | Some _ => ∅
                  end), w1)
     /\ heap w1 = heap wb /\ docs w1 = docs wb /\ ndjson w1 = ndjson wb
     /\ reqs w1 = reqs wb)
  /\ (exists w1,
        Levels.loadIndex level w
        = (Returned (match docs w !! Levels.indexPathFor level, faults w (ios w) with
                     | Some (Doc (Levels.DIndex idx)), None => new_Set idx
                     | _, _ => []
                     end), w1)
        /\ docs w1 = docs w /\ ndjson w1 = ndjson w /\ reqs w1 = reqs w)
  /\ (exists w1,
        Levels.loadProgress level w
        = (Returned (match docs w !! Levels.progressPathFor level, faults w (ios w) with
                     | Some (Doc (Levels.DProgress p)), None => Some p
                     | _, _ => None
                     end), w1)
        /\ docs w1 = docs w /\ ndjson w1 = ndjson w /\ reqs w1 = reqs w).
Proof.
  split; [|split].
  - destruct (loadMeta_run wb) as (w1 & E & H1 & H2 & H3 & H4 & _). eauto 10.
  - destruct (levels_loaders_run level w) as ((w1 & E & H1 & H2 & H3 & _) & _).
    eauto 10.
  - destruct (levels_loaders_run level w) as (_ & (w1 & E & H1 & H2 & H3 & _)).
    eauto 10.
Qed.

Lemma level_loop_diverges (level : Z) (res : response) (data c : value)
  (cs : list value) :
  status res = 200 -> parsed res = Some data ->
  prop data "courses" = VArr (c :: cs) ->
  Levels.last_page (coalesce (prop data "paginationInfos") VNull) = false ->
  forall (fuel : nat) (from' total : Z) (s : jsset) (w : Levels.world),
    no_faults w -> (forall n u, net w n u = Responds res) ->
    (Levels.level_loop fuel level from' total s w).1 = Diverged.
Proof.
  intros Hst Hp Hc Hlast fuel.
  induction fuel as [|fuel IH]; intros from' total s w Hnf Hn; [reflexivity|].
  destruct (level_loop_goes_on fuel level from' total s w res data c cs)
    as (w1 & total' & s' & E & Hn1 & Hf1 & _); auto.
  rewrite E. apply IH.
  - intros n. rewrite Hf1. apply Hnf.
  - intros n u. rewrite Hn1. apply Hn.
Qed.

(** X23: the level fetcher has no page cap.  Against a server that answers
    every request with a page of at least one course that is not flagged as
    the last one, the loop of [processLevel] never ends, whatever fuel the
    model is given, and so [main] never reaches the second level. *)
Theorem level_loop_has_no_cap (fuel : nat) (level : Z) (w : Levels.world)
  (res : response) (data c : value) (cs : list value) :
  status res = 200 -> parsed res = Some data ->
  prop data "courses" = VArr (c :: cs) ->
  Levels.last_page (coalesce (prop data "paginationInfos") VNull) = false ->
  no_faults w -> (forall n u, net w n u = Responds res) ->
  (Levels.processLevel fuel level w).1 = Diverged
  /\ (Levels.main fuel w).1 = Diverged.
Proof.
  intros Hst Hp Hc Hlast Hnf Hn.
  assert (Hpl : forall lvl, (Levels.processLevel fuel lvl w).1 = Diverged).
  { intros lvl. unfold Levels.processLevel. unfold bind at 1.
    destruct (levels_loaders_run lvl w) as ((w1 & E1 & _ & _ & _ & Hn1 & Hf1) & _).
    rewrite E1. unfold bind at 1.
    destruct (levels_loaders_run lvl w1) as (_ & (w2 & E2 & _ & _ & _ & Hn2 & Hf2)).
    rewrite E2.
    match goal with |- context [let '(_, _) := ?x in _] => destruct x as [from0 total0] end.
    apply (level_loop_diverges lvl res data c cs); try assumption.
    - intros n. rewrite Hf2, Hf1. apply Hnf.
    - intros n u. rewrite Hn2, Hn1. apply Hn. }
  split; [apply Hpl|].
  unfold Levels.main. cbn [Levels.main_loop]. unfold bind at 1, try_catch, bind at 1.
  specialize (Hpl 1). destruct (Levels.processLevel fuel 1 w) as [[t|e|] w1];
    cbn [fst] in Hpl; try discriminate. reflexivity.
Qed.

Lemma level_loop_has_no_cap_witness :
  (Levels.processLevel 1000 1 Scenario.levels_endless).1 = Diverged
  /\ (Levels.main 1000 Scenario.levels_endless).1 = Diverged.
Proof.
  apply (level_loop_has_no_cap 1000 1 Scenario.levels_endless Scenario.endless
           (VObj [("courses", VArr [Scenario.course "u1"])]) (Scenario.course "u1") []);
    try reflexivity.
  intros n. reflexivity.
Defined.

End LevelsMore.

(* ===================================================================== *)
(** ** Cursor drift: what is counted is what is appended *)
(* ===================================================================== *)

Section Drift.
Import Js Eff.
#[local] Open Scope string_scope.
#[local] Open Scope list_scope.
#[local] Open Scope Z_scope.









End Drift.

Section DriftCounts.
Import Js Eff Bulk.
#[local] Open Scope string_scope.
#[local] Open Scope list_scope.
#[local] Open Scope Z_scope.




End DriftCounts.

(* ===================================================================== *)
(** ** The detail fetcher: input, identifiers and counters *)
(* ===================================================================== *)

Section DetailsPure.
Import Js Eff Details.
#[local] Open Scope string_scope.
#[local] Open Scope list_scope.
#[local] Open Scope Z_scope.

Lemma pushRing_drop {A} (arr : list A) (x : A) (cap : nat) :
  (length arr <= cap)%nat ->
  pushRing arr x cap = drop (length (arr ++ [x]) - cap) (arr ++ [x])
  /\ (length (pushRing arr x cap) <= cap)%nat.
Proof.
  intros Hl. unfold pushRing. rewrite length_app. cbn [length].
  destruct (Nat.ltb_spec cap (length arr + 1)) as [Hgt|Hle].
  - replace (length arr + 1 - cap)%nat with 1%nat by lia.
    split; [destruct (arr ++ [x]); reflexivity|].
    destruct arr as [|a arr]; cbn in *; [lia|]. rewrite length_app. cbn. lia.
  - replace (length arr + 1 - cap)%nat with 0%nat by lia.
    split; [reflexivity|]. rewrite length_app. cbn. lia.
Qed.

Lemma pushRing_foldl {A} (cap : nat) (xs : list A) :
  forall arr : list A,
    (length arr <= cap)%nat ->
    foldl (fun a x => pushRing a x cap) arr xs
    = drop (length (arr ++ xs) - cap) (arr ++ xs).
Proof.
  induction xs as [|x xs IH]; intros arr Hl; cbn [foldl].
  - rewrite app_nil_r. replace (length arr - cap)%nat with 0%nat by lia. reflexivity.
  - destruct (pushRing_drop arr x cap Hl) as [E Hl'].
    rewrite IH by exact Hl'. rewrite E.
    rewrite length_app, length_drop, !length_app. cbn [length].
    replace (arr ++ x :: xs) with ((arr ++ [x]) ++ xs) by (now rewrite <- app_assoc).
    set (d := (length arr + 1 - cap)%nat).
    assert (Hd : (d <= length (arr ++ [x]))%nat)
      by (rewrite length_app; cbn [length]; lia).
    rewrite <- (drop_app_le _ _ _ Hd), drop_drop. f_equal.
    subst d. lia.
Qed.

(** X24: the ring buffer holds the last [cap] items.  After pushing the
    items of a list one by one into an empty buffer, the buffer is the
    list without its first [length xs - cap] items, in order, and its
    length is the smaller of the two; with [cap = 0] it stays empty. *)
Theorem pushRing_keeps_last {A} (cap : nat) (xs : list A) :
  foldl (fun arr x => pushRing arr x cap) [] xs = drop (length xs - cap) xs
  /\ length (foldl (fun arr x => pushRing arr x cap) [] xs) = Nat.min (length xs) cap.
Proof.
  rewrite (pushRing_foldl cap xs []) by (cbn; lia). cbn [app].
  split; [reflexivity|]. rewrite length_drop. lia.
Qed.

Lemma read_lines_filter (lines : list raw_line) :
  forall (n k k' : Z),
    k' <= k ->
    read_lines n k lines
    = filter (fun y => k < y.1) (read_lines n k' lines)
    /\ Forall (fun y => n < y.1 <= n + Z.of_nat (length lines)) (read_lines n k lines)
    /\ StronglySorted Z.lt (map fst (read_lines n k lines)).
Proof.
  induction lines as [|line rest IH]; intros n k k' Hk; cbn [read_lines length].
  - repeat split; constructor.
  - destruct (IH (n + 1) k k' Hk) as (E & B & Hsort).
    assert (B' : Forall (fun y => n < y.1 <= n + Z.of_nat (S (length rest)))
                        (read_lines (n + 1) k rest)).
    { eapply Forall_impl; [exact B|]. intros y Hy. cbn in Hy. lia. }
    assert (Hlow : Forall (Z.lt (n + 1)) (map fst (read_lines (n + 1) k rest))).
    { rewrite Forall_map. eapply Forall_impl; [exact B|]. intros y Hy. cbn in Hy.
      cbn. lia. }
    destruct (Z.leb_spec (n + 1) k) as [Hs|Hs].
    + split; [|split; assumption].
      destruct (Z.leb_spec (n + 1) k') as [Hs'|Hs']; [exact E|].
      destruct line; [exact E| |]; rewrite filter_cons_False by (cbn; lia); exact E.
    + destruct (Z.leb_spec (n + 1) k') as [Hs'|_]; [lia|].
      destruct line.
      * split; [exact E|split; assumption].
      * rewrite filter_cons_True by (cbn; lia). rewrite <- E.
        split; [reflexivity|]. split.
        -- constructor; [cbn; lia|exact B'].
        -- cbn [map fst]. constructor; assumption.
      * rewrite filter_cons_True by (cbn; lia). rewrite <- E.
        split; [reflexivity|]. split.
        -- constructor; [cbn; lia|exact B'].
        -- cbn [map fst]. constructor; assumption.
Qed.

Lemma read_lines_objs (lines : list raw_line) :
  forall n k : Z, k <= n -> map snd (read_lines n k lines) = omap yielded lines.
Proof.
  induction lines as [|line rest IH]; intros n k Hk; cbn [read_lines]; [reflexivity|].
  destruct (Z.leb_spec (n + 1) k) as [Hs|_]; [lia|].
  cbn [omap list_omap]. destruct line; cbn [yielded map snd]; rewrite IH by lia;
    reflexivity.
Qed.

(** The number under which a record is yielded is the position of its line
    in the file: the loop counts every line it reads. *)
Lemma read_lines_position (lines : list raw_line) :
  forall (n0 k n : Z) (v : value),
    (n, v) ∈ read_lines n0 k lines
    <-> k < n /\ n0 < n
        /\ exists line, lines !! Z.to_nat (n - n0 - 1) = Some line
                        /\ yielded line = Some v.
Proof.
  induction lines as [|line rest IH]; intros n0 k n v; cbn [read_lines].
  - split; [intros H; inversion H|]. intros (_ & _ & line & H & _). discriminate.
  - assert (Hrest : (n, v) ∈ read_lines (n0 + 1) k rest
                    <-> k < n /\ n0 + 1 < n
                        /\ exists line', (line :: rest) !! Z.to_nat (n - n0 - 1) = Some line'
                                         /\ yielded line' = Some v).
    { rewrite IH. split; intros (H1 & H2 & line' & H3 & H4); (split; [exact H1|]);
        (split; [exact H2|]); exists line'; (split; [|exact H4]).
      - replace (Z.to_nat (n - n0 - 1)) with (S (Z.to_nat (n - (n0 + 1) - 1))) by lia.
        exact H3.
      - replace (Z.to_nat (n - n0 - 1)) with (S (Z.to_nat (n - (n0 + 1) - 1))) in H3
          by lia.
        exact H3. }
    assert (Hhead : forall line', (line :: rest) !! Z.to_nat (n0 + 1 - n0 - 1) = Some line'
                                  <-> line' = line).
    { intros line'. replace (Z.to_nat (n0 + 1 - n0 - 1)) with 0%nat by lia. cbn.
      split; [now intros [= ->]|now intros ->]. }
    destruct (Z.leb_spec (n0 + 1) k) as [Hs|Hs].
    + rewrite Hrest. split; intros (H1 & H2 & H3); repeat split; auto; lia.
    + assert (Hskip : (n, v) ∈ read_lines (n0 + 1) k rest \/ (n = n0 + 1 /\ yielded line = Some v)
                      <-> k < n /\ n0 < n
                          /\ exists line', (line :: rest) !! Z.to_nat (n - n0 - 1) = Some line'
                                           /\ yielded line' = Some v).
      { rewrite Hrest. split.
        - intros [(H1 & H2 & H3)|[-> Hy]].
          + repeat split; auto; lia.
          + split; [lia|]. split; [lia|]. exists line. split; [now apply Hhead|exact Hy].
        - intros (H1 & H2 & line' & H3 & H4).
          destruct (decide (n = n0 + 1)) as [->|Hne].
          + right. split; [reflexivity|]. apply Hhead in H3 as ->. exact H4.
          + left. split; [exact H1|]. split; [lia|]. eauto. }
      rewrite <- Hskip. destruct line; cbn [yielded].
      * split; [now left|]. intros [H|[_ H]]; [exact H|discriminate].
      * rewrite elem_of_cons. split.
        -- intros [[= -> ->]|H]; [now right|now left].
        -- intros [H|[-> [= <-]]]; [now right|now left].
      * rewrite elem_of_cons. split.
        -- intros [[= -> ->]|H]; [now right|now left].
        -- intros [H|[-> [= <-]]]; [now right|now left].
Qed.

(** X25: reading an input file from a line on.  Reading after line [k]
    gives the records of a full read whose line number is above [k].  The
    number of a record is the position of its line in the file, counted
    from 1 with every line counted: the record [(n, v)] is yielded exactly
    when [n] is above [k] and line [n] of the file yields [v]; a blank line
    yields nothing, a line that does not parse yields [null].  So the
    numbers are above [k], at most the number of lines, and strictly
    increasing. *)
Theorem readNdjson_resumes (lines : list raw_line) (k : Z) :
  0 <= k ->
  readNdjsonWithLineNumbers lines k
  = filter (fun y => k < y.1) (readNdjsonWithLineNumbers lines 0)
  /\ Forall (fun y => k < y.1 <= Z.of_nat (length lines))
            (readNdjsonWithLineNumbers lines k)
  /\ StronglySorted Z.lt (map fst (readNdjsonWithLineNumbers lines k))
  /\ map snd (readNdjsonWithLineNumbers lines 0) = omap yielded lines
  /\ (forall n v,
        (n, v) ∈ readNdjsonWithLineNumbers lines k
        <-> k < n /\ exists line, lines !! Z.to_nat (n - 1) = Some line
                                  /\ yielded line = Some v).
Proof.
  intros Hk. unfold readNdjsonWithLineNumbers.
  destruct (read_lines_filter lines 0 k 0 Hk) as (E & B & Hsort).
  split; [exact E|]. split; [|split; [exact Hsort|split; [now apply read_lines_objs|]]].
  - rewrite E. apply Forall_forall. intros y Hy.
    apply list_elem_of_filter in Hy as [Hy1 Hy2].
    destruct (read_lines_filter lines 0 0 0 ltac:(lia)) as (_ & B0 & _).
    rewrite Forall_forall in B0. specialize (B0 y Hy2). cbn in B0, Hy1. lia.
  - intros n v. rewrite read_lines_position.
    replace (n - 0 - 1) with (n - 1) by lia.
    split; [intros (H1 & _ & H3); auto|]. intros (H1 & H3). repeat split; auto; lia.
Qed.

Lemma readNdjson_resumes_witness :
  readNdjsonWithLineNumbers Scenario.four_lines 2
  = filter (fun y => 2 < y.1) (readNdjsonWithLineNumbers Scenario.four_lines 0)
  /\ Forall (fun y => 2 < y.1 <= Z.of_nat (length Scenario.four_lines))
            (readNdjsonWithLineNumbers Scenario.four_lines 2)
  /\ StronglySorted Z.lt (map fst (readNdjsonWithLineNumbers Scenario.four_lines 2))
  /\ map snd (readNdjsonWithLineNumbers Scenario.four_lines 0)
     = omap yielded Scenario.four_lines
  /\ (forall n v,
        (n, v) ∈ readNdjsonWithLineNumbers Scenario.four_lines 2
        <-> 2 < n /\ exists line, Scenario.four_lines !! Z.to_nat (n - 1) = Some line
                                  /\ yielded line = Some v).
Proof.
  apply (readNdjson_resumes Scenario.four_lines 2). lia.
Defined.

(** X26: milestones fall on the multiples of one hundred.  While the count
    of attempts goes up by one and no milestone is pending, the next
    attempt reaches a milestone exactly when its number is a multiple of
    100. *)
Theorem milestone_every_hundred (n last : Z) :
  0 <= last <= n -> milestoneReached n last = false ->
  milestoneReached (n + 1) last = ((n + 1) mod 100 =? 0).
Proof.
  unfold milestoneReached. intros Hl Hm.
  pose proof (Z_div_mod_eq_full n 100) as Dn.
  pose proof (Z.mod_pos_bound n 100 ltac:(lia)) as Mn.
  pose proof (Z_div_mod_eq_full (n + 1) 100) as Dn1.
  pose proof (Z.mod_pos_bound (n + 1) 100 ltac:(lia)) as Mn1.
  pose proof (Z_div_mod_eq_full last 100) as Dl.
  pose proof (Z.mod_pos_bound last 100 ltac:(lia)) as Ml.
  assert (Hle : last / 100 <= n / 100) by (apply Z.div_le_mono; lia).
  lia.
Qed.

Lemma milestone_every_hundred_witness :
  milestoneReached (99 + 1) 0 = ((99 + 1) mod 100 =? 0).
Proof. apply (milestone_every_hundred 99 0); [lia|reflexivity]. Defined.

Lemma split_slash_cons (s : string) : exists seg segs, split_slash s = seg :: segs.
Proof.
  induction s as [|c rest (seg & segs & E)]; cbn [split_slash]; [eauto|].
  destruct (Ascii.eqb c _); [eauto|]. rewrite E. eauto.
Qed.

Lemma split_slash_slashless (s : string) :
  Forall (fun seg => has_slash seg = false) (split_slash s).
Proof.
  induction s as [|c rest IH]; cbn [split_slash]; [repeat constructor|].
  destruct (Ascii.eqb c (Ascii.ascii_of_nat 47)) eqn:Hc.
  - constructor; [reflexivity|exact IH].
  - destruct (split_slash rest) as [|seg segs]; [repeat constructor; cbn; now rewrite Hc|].
    inversion IH as [|? ? Hseg Hsegs]; subst.
    constructor; [cbn [has_slash]; now rewrite Hc, Hseg|exact Hsegs].
Qed.

Lemma last_segment_spec (s : string) (id : string) :
  last_segment s = Some id -> id <> "" /\ id ∈ split_slash s.
Proof.
  unfold last_segment. intros H.
  assert (Hin : forall x, x ∈ reverse (split_slash s) -> x ∈ split_slash s)
    by (intros x; now rewrite elem_of_reverse).
  destruct (reverse (split_slash s)) as [|a [|b rest]]; [discriminate| |].
  - destruct a as [|c a].
    + discriminate.
    + cbn in H. injection H as <-. split; [discriminate|]. apply Hin. now left.
  - destruct a as [|c a].
    + destruct (String.eqb b "") eqn:Hb; [discriminate|]. injection H as <-.
      split; [intros ->; discriminate|]. apply Hin. right. now left.
    + cbn in H. injection H as <-. split; [discriminate|]. apply Hin. now left.
Qed.

(** X27: the identifier that names the output file.  Whatever the URL
    parser makes of the uri, an identifier returned by [parseIdFromUri] is
    not empty, contains no slash, and is a segment of the path (of the
    whole string when the uri is not a URL); so [id + '.json'] is a plain
    file name in the country directory. *)
Theorem parseIdFromUri_names_a_file (pathname_of : string -> option string)
  (uri : value) :
  match parseIdFromUri pathname_of uri with
  | Some id =>
      id <> "" /\ has_slash id = false
      /\ id ∈ split_slash (default (to_string uri) (pathname_of (to_string uri)))
  | None => True
  end.
Proof.
  unfold parseIdFromUri.
  destruct (pathname_of (to_string uri)) as [pathname|]; cbn [default].
  - destruct (last (nonempty (split_slash pathname))) as [p|] eqn:Hl; [|exact I].
    destruct (String.eqb p "") eqn:Hp; [exact I|].
    apply last_Some in Hl as (l' & Hl).
    assert (Hin : p ∈ nonempty (split_slash pathname))
      by (rewrite Hl; apply elem_of_app; right; now left).
    unfold nonempty in Hin. apply list_elem_of_filter in Hin as [Hne Hin].
    split; [exact Hne|]. split; [|exact Hin].
    pose proof (split_slash_slashless pathname) as Hall.
    rewrite Forall_forall in Hall. now apply Hall.
  - destruct (last_segment (to_string uri)) as [id|] eqn:Hl; [|exact I].
    apply last_segment_spec in Hl as [Hne Hin].
    split; [exact Hne|]. split; [|exact Hin].
    pose proof (split_slash_slashless (to_string uri)) as Hall.
    rewrite Forall_forall in Hall. now apply Hall.
Qed.

End DetailsPure.

Section DetailsRuns.
Import Js Eff Details.
#[local] Open Scope string_scope.
#[local] Open Scope list_scope.
#[local] Open Scope Z_scope.

(** On a disk without faults the save installs the checkpoint. *)
Lemma details_save_ok (metaPath : string) (m : country_meta) (w : world) :
  no_faults w ->
  exists w1,
    saveCountryMeta metaPath m w = (Returned tt, w1)
    /\ same_env w w1
    /\ docs w1 !! metaPath = Some (Doc (DMeta m))
    /\ ios w1 = S (S (ios w)).
Proof.
  intros Hnf. unfold saveCountryMeta. cbn [rename_loop]. run.
  rewrite Hnf. rd. rewrite Hnf. rd. rewrite lookup_insert_eq.
  eexists. split; [reflexivity|]. rd. split; [repeat split|].
  split; [now rewrite lookup_insert_eq|reflexivity].
Qed.

(** X28: the checkpoint of a country gives back what was saved.  On a disk
    without faults [saveCountryMeta] followed by [loadCountryMeta] returns
    the saved counters; a checkpoint file that is missing or torn gives
    the initial counters, all zero with no line processed. *)
Theorem country_meta_round_trip (c : string) (m : country_meta) (w : world) :
  no_faults w ->
  (exists w1 w2,
     saveCountryMeta (metaPathFor c) m w = (Returned tt, w1)
     /\ loadCountryMeta c w1 = (Returned (metaPathFor c, m), w2))
  /\ (docs w !! metaPathFor c = None \/ docs w !! metaPathFor c = Some Torn ->
      exists w1,
        loadCountryMeta c w = (Returned (metaPathFor c, CountryMeta c 0 0 0 0 0 None), w1)).
Proof.
  intros Hnf. split.
  - destruct (details_save_ok (metaPathFor c) m w Hnf) as (w1 & E & Henv & Hd & _).
    exists w1. unfold loadCountryMeta. run.
    destruct Henv as (_ & _ & Hf & _). rewrite !Hf, !Hnf. rd. rewrite Hnf. rd.
    rewrite Hd. rd. eexists. split; [exact E|reflexivity].
  - intros Hd. unfold loadCountryMeta. run. rewrite !Hnf. rd. rewrite Hnf. rd.
    destruct Hd as [-> | ->]; rd; eexists; reflexivity.
Qed.

Lemma country_meta_round_trip_witness :
  (exists w1 w2,
     saveCountryMeta (metaPathFor "DEU") (CountryMeta "DEU" 7 3 2 1 4 (Some 9))
       Scenario.details_404 = (Returned tt, w1)
     /\ loadCountryMeta "DEU" w1
        = (Returned (metaPathFor "DEU", CountryMeta "DEU" 7 3 2 1 4 (Some 9)), w2))
  /\ (docs Scenario.details_404 !! metaPathFor "DEU" = None
      \/ docs Scenario.details_404 !! metaPathFor "DEU" = Some Torn ->
      exists w1,
        loadCountryMeta "DEU" Scenario.details_404
        = (Returned (metaPathFor "DEU", CountryMeta "DEU" 0 0 0 0 0 None), w1)).
Proof.
  apply (country_meta_round_trip "DEU" (CountryMeta "DEU" 7 3 2 1 4 (Some 9))
           Scenario.details_404).
  intros n. reflexivity.
Defined.

End DetailsRuns.

Section Task.
Import Js Eff Details.
#[local] Open Scope string_scope.
#[local] Open Scope list_scope.
#[local] Open Scope Z_scope.

Lemma counted_add (a s f a' s' f' : Z) (m1 m2 m3 : country_meta) :
  counted a s f m1 m2 -> counted a' s' f' m2 m3 -> counted (a + a') (s + s') (f + f') m1 m3.
Proof.
  intros (A1 & A2 & A3 & A4 & A5 & A6) (B1 & B2 & B3 & B4 & B5 & B6).
  repeat split; try congruence; lia.
Qed.

(** What the two counting steps do, whatever the disk does. *)
Lemma count_success_spec (metaPath : string) (w : world) :
  exists r w1,
    count_success metaPath w = (r, w1)
    /\ ended r = true
    /\ counted 0 1 0 (meta (heap w)) (meta (heap w1))
    /\ faults w1 = faults w /\ net w1 = net w /\ reqs w1 = reqs w
    /\ (no_faults w -> r = Returned tt).
Proof.
  unfold count_success, modify_meta, stamp, set_dirty, modify_meta. run.
  destruct (milestoneReached _ _); rd.
  - match goal with |- context [saveCountryMeta ?p ?m ?w'] =>
      destruct (details_save_spec p m w') as (r & w1 & new & E & Hr & Henv & _);
      pose proof (details_save_ok p m w') as Hok end.
    rewrite E. destruct Henv as (Hh & _ & Hf & Hn & Hq & _). rdh Hh. rdh Hf. rdh Hn. rdh Hq.
    destruct r as [[]|e|]; [| |contradiction].
    + eexists _, _. split; [reflexivity|]. rd. split; [reflexivity|].
      rewrite Hh. rd. split; [repeat split; cbn; lia|]. auto.
    + eexists _, _. split; [reflexivity|]. rd. split; [reflexivity|].
      rewrite Hh. rd. split; [repeat split; cbn; lia|].
      repeat split; try assumption. intros Hnf.
      destruct Hok as (w2 & E2 & _); [exact Hnf|]. congruence.
  - eexists _, _. split; [reflexivity|]. rd. split; [reflexivity|].
    split; [repeat split; cbn; lia|]. auto.
Qed.

Lemma count_failure_spec (metaPath : string) (w : world) :
  exists r w1,
    count_failure metaPath w = (r, w1)
    /\ ended r = true
    /\ counted 0 0 1 (meta (heap w)) (meta (heap w1))
    /\ faults w1 = faults w /\ net w1 = net w /\ reqs w1 = reqs w
    /\ (no_faults w -> r = Returned tt).
Proof.
  unfold count_failure, modify_meta, stamp, set_dirty, modify_meta. run.
  destruct (milestoneReached _ _); rd.
  - match goal with |- context [saveCountryMeta ?p ?m ?w'] =>
      destruct (details_save_spec p m w') as (r & w1 & new & E & Hr & Henv & _);
      pose proof (details_save_ok p m w') as Hok end.
    rewrite E. destruct Henv as (Hh & _ & Hf & Hn & Hq & _). rdh Hh. rdh Hf. rdh Hn. rdh Hq.
    destruct r as [[]|e|]; [| |contradiction].
    + eexists _, _. split; [reflexivity|]. rd. split; [reflexivity|].
      rewrite Hh. rd. split; [repeat split; cbn; lia|]. auto.
    + eexists _, _. split; [reflexivity|]. rd. split; [reflexivity|].
      rewrite Hh. rd. split; [repeat split; cbn; lia|].
      repeat split; try assumption. intros Hnf.
      destruct Hok as (w2 & E2 & _); [exact Hnf|]. congruence.
  - eexists _, _. split; [reflexivity|]. rd. split; [reflexivity|].
    split; [repeat split; cbn; lia|]. auto.
Qed.

Lemma writeFile_any (path : string) (d : doc) (w : world) :
  exists r w1,
    writeFile path d w = (r, w1)
    /\ ended r = true /\ heap w1 = heap w
    /\ faults w1 = faults w /\ net w1 = net w /\ reqs w1 = reqs w
    /\ (no_faults w -> r = Returned tt).
Proof.
  unfold writeFile. run. destruct (faults w (ios w)) eqn:Hf; rd.
  - eexists _, _. split; [reflexivity|]. rd. repeat split.
    intros Hnf. rewrite Hnf in Hf. discriminate.
  - eexists _, _. split; [reflexivity|]. rd. repeat split.
Qed.

(** The [try] block of a task. *)
Lemma task_body_spec (metaPath : string) (uri : value) (outPath : string) (w : world) :
  exists r w1,
    (modify_meta (fun m => CountryMeta (country m) (lastLine m)
                             (attempted m + 1) (succeeded m) (failed m)
                             (skippedExisting m) (lastUpdated m)) ;;
     let* data := fetchWithRetry (to_string uri) MAX_RETRIES in
     writeFile outPath (DData data) ;;
     count_success metaPath)%eff w = (r, w1)
    /\ faults w1 = faults w /\ net w1 = net w
    /\ (reqs w < reqs w1 <= reqs w + 4)%nat
    /\ match r with
       | Returned _ => counted 1 1 0 (meta (heap w)) (meta (heap w1))
       | Thrown _ =>
           counted 1 0 0 (meta (heap w)) (meta (heap w1))
           \/ (counted 1 1 0 (meta (heap w)) (meta (heap w1)) /\ ~ no_faults w)
       | Diverged => False
       end.
Proof.
  unfold bind at 1, modify_meta at 1, bind at 1, get_heap at 1, set_heap at 1.
  match goal with |- context [bind (fetchWithRetry _ _) _ ?w'] => set (w0 := w') end.
  assert (H0 : counted 1 0 0 (meta (heap w)) (meta (heap w0)))
    by (subst w0; repeat split; cbn; lia).
  assert (Hf0 : faults w0 = faults w) by reflexivity.
  assert (Hn0 : net w0 = net w) by reflexivity.
  assert (Hq0 : reqs w0 = reqs w) by reflexivity.
  clearbody w0. unfold bind at 1.
  destruct (details_retry_any (to_string uri) MAX_RETRIES 0 w0)
    as (r1 & w1 & E1 & Hs1 & Hr1 & Hk1).
  fold (fetchWithRetry (to_string uri) MAX_RETRIES) in E1. rewrite E1.
  destruct Hs1 as (Hh1 & _ & _ & _ & Hf1 & Hn1 & _).
  unfold MAX_RETRIES in Hr1.
  destruct r1 as [data|e|]; [| |contradiction].
  2:{ eexists _, _. split; [reflexivity|]. rewrite Hh1.
      repeat split; try congruence; try lia. now left. }
  unfold bind at 1.
  destruct (writeFile_any outPath (DData data) w1)
    as (r2 & w2 & E2 & He2 & Hh2 & Hf2 & Hn2 & Hq2 & Hok2).
  rewrite E2. destruct r2 as [[]|e|]; [| |discriminate].
  2:{ eexists _, _. split; [reflexivity|]. rewrite Hh2, Hh1.
      repeat split; try congruence; try lia. now left. }
  destruct (count_success_spec metaPath w2)
    as (r3 & w3 & E3 & He3 & Hc3 & Hf3 & Hn3 & Hq3 & Hok3).
  rewrite E3. eexists _, _. split; [reflexivity|].
  assert (Hc : counted 1 1 0 (meta (heap w)) (meta (heap w3))).
  { rewrite Hh2, Hh1 in Hc3. exact (counted_add 1 0 0 0 1 0 _ _ _ H0 Hc3). }
  repeat split; try congruence; try lia.
  destruct r3 as [[]|e|]; [exact Hc| |discriminate].
  right. split; [exact Hc|]. intros Hnf.
  assert (Hnf2 : no_faults w2) by (intros n; rewrite Hf2, Hf1, Hf0; apply Hnf).
  specialize (Hok3 Hnf2). discriminate.
Qed.

(** X29: what one task does to the counters.  Whatever the network and the
    disk do, a task ends, sends between one and four requests, counts
    exactly one attempt, and leaves the checkpoint marked dirty.  It counts
    one success or one failure; both only when the response was written
    and a later file operation of the same task failed.  On a disk without
    faults it returns and counts exactly one of the two. *)
Theorem task_counts_once (metaPath : string) (uri : value) (outPath : string)
  (w : world) :
  exists r w1,
    task metaPath uri outPath w = (r, w1)
    /\ ended r = true
    /\ dirty (heap w1) = true
    /\ (reqs w < reqs w1 <= reqs w + 4)%nat
    /\ (counted 1 1 0 (meta (heap w)) (meta (heap w1))
        \/ counted 1 0 1 (meta (heap w)) (meta (heap w1))
        \/ counted 1 1 1 (meta (heap w)) (meta (heap w1)))
    /\ (no_faults w ->
        r = Returned tt
        /\ (counted 1 1 0 (meta (heap w)) (meta (heap w1))
            \/ counted 1 0 1 (meta (heap w)) (meta (heap w1)))).
Proof.
  unfold task, try_finally, try_catch.
  destruct (task_body_spec metaPath uri outPath w) as (r & w1 & E & Hf & Hn & Hq & Hk).
  rewrite E. destruct r as [[]|e|]; [| |contradiction].
  - unfold set_dirty, bind, get_heap, set_heap. eexists _, _. split; [reflexivity|].
    rd. repeat split; try lia; auto.
  - destruct (count_failure_spec metaPath w1)
      as (r2 & w2 & E2 & He2 & Hc2 & Hf2 & Hn2 & Hq2 & Hok2).
    rewrite E2.
    assert (Hcases : (counted 1 0 1 (meta (heap w)) (meta (heap w2)))
                     \/ (counted 1 1 1 (meta (heap w)) (meta (heap w2)) /\ ~ no_faults w)).
    { destruct Hk as [Hk|[Hk Hnot]].
      - left. exact (counted_add 1 0 0 0 0 1 _ _ _ Hk Hc2).
      - right. split; [exact (counted_add 1 1 0 0 0 1 _ _ _ Hk Hc2)|exact Hnot]. }
    destruct r2 as [[]|e2|]; [| |discriminate];
      unfold set_dirty, bind, get_heap, set_heap;
      (eexists _, _; split; [reflexivity|]; rd;
       split; [reflexivity|]; split; [reflexivity|]; split; [lia|]; split;
       [destruct Hcases as [?|[? _]]; auto|]).
    + intros Hnf. split; [reflexivity|]. destruct Hcases as [?|[_ Hnot]]; [auto|].
      contradiction.
    + intros Hnf. exfalso.
      assert (Hnf1 : no_faults w1) by (intros n; rewrite Hf; apply Hnf).
      specialize (Hok2 Hnf1). discriminate.
Qed.

End Task.

(* ===================================================================== *)
(** ** The token bucket *)
(* ===================================================================== *)

Section BucketFacts.
Import Limiter.
Variable cap : Z.
#[local] Open Scope list_scope.
#[local] Open Scope Z_scope.

Lemma tokens_after_range (sched : list (Z * step)) :
  forall tokens : Z,
    0 <= tokens <= cap ->
    0 <= tokens_after cap tokens sched <= cap.
Proof.
  induction sched as [|[t [|wk]] rest IH]; intros tokens Ht; cbn [tokens_after].
  - exact Ht.
  - apply IH. unfold refill. lia.
  - destruct (Z.leb_spec tokens 0); apply IH; lia.
Qed.

Lemma run_app (s1 s2 : list (Z * step)) :
  forall tokens : Z,
    run cap tokens (s1 ++ s2)
    = run cap tokens s1 ++ run cap (tokens_after cap tokens s1) s2.
Proof.
  induction s1 as [|[t [|wk]] rest IH]; intros tokens; cbn [app run tokens_after].
  - reflexivity.
  - apply IH.
  - destruct (tokens <=? 0); [apply IH|]. cbn [app]. now rewrite IH.
Qed.

Lemma tokens_after_app (s1 s2 : list (Z * step)) :
  forall tokens : Z,
    tokens_after cap tokens (s1 ++ s2)
    = tokens_after cap (tokens_after cap tokens s1) s2.
Proof.
  induction s1 as [|[t [|wk]] rest IH]; intros tokens; cbn [app tokens_after].
  - reflexivity.
  - apply IH.
  - destruct (tokens <=? 0); apply IH.
Qed.

End BucketFacts.

(** X30: the bucket stays between empty and full.  Started within
    [0, MAX_RPS], the token count stays within it after any sequence of
    refills and polls, and the grants of a sequence depend on what came
    before only through that count.  After a refill the next poll is
    granted (for a positive rate) and leaves [MAX_RPS - 1] tokens; a poll
    on an empty bucket is not granted and changes nothing. *)
Theorem bucket_stays_in_range (MAX_RPS tokens : Z) (s1 s2 : list (Z * Limiter.step))
  (t t' : Z) (wk : nat) :
  0 <= tokens <= MAX_RPS ->
  0 <= Limiter.tokens_after MAX_RPS tokens s1 <= MAX_RPS
  /\ Limiter.run MAX_RPS tokens (s1 ++ s2)
     = Limiter.run MAX_RPS tokens s1
       ++ Limiter.run MAX_RPS (Limiter.tokens_after MAX_RPS tokens s1) s2
  /\ (0 < MAX_RPS ->
      Limiter.run MAX_RPS tokens (s1 ++ (t, Limiter.Refill) :: (t', Limiter.Poll wk) :: s2)
      = Limiter.run MAX_RPS tokens s1 ++ (t', wk) :: Limiter.run MAX_RPS (MAX_RPS - 1) s2)
  /\ (Limiter.tokens_after MAX_RPS tokens s1 = 0 ->
      Limiter.run MAX_RPS tokens (s1 ++ (t', Limiter.Poll wk) :: s2)
      = Limiter.run MAX_RPS tokens (s1 ++ s2)).
Proof.
  intros Ht. pose proof (tokens_after_range MAX_RPS s1 tokens Ht) as Hr.
  split; [exact Hr|]. split; [apply run_app|]. split.
  - intros Hpos. rewrite run_app. cbn [Limiter.run]. unfold Limiter.refill.
    rewrite Z.min_r by lia.
    destruct (Z.leb_spec MAX_RPS 0); [lia|reflexivity].
  - intros H0. rewrite !run_app. cbn [Limiter.run]. rewrite H0. reflexivity.
Qed.

Lemma bucket_stays_in_range_witness :
  0 <= Limiter.tokens_after 3 3 Scenario.burst <= 3
  /\ Limiter.run 3 3 (Scenario.burst ++ [(3100, Limiter.Poll 8)])
     = Limiter.run 3 3 Scenario.burst
       ++ Limiter.run 3 (Limiter.tokens_after 3 3 Scenario.burst) [(3100, Limiter.Poll 8)]
  /\ (0 < 3 ->
      Limiter.run 3 3 (Scenario.burst ++ (3000, Limiter.Refill) :: (3001, Limiter.Poll 7)
                         :: [(3100, Limiter.Poll 8)])
      = Limiter.run 3 3 Scenario.burst
          ++ (3001, 7%nat) :: Limiter.run 3 (3 - 1) [(3100, Limiter.Poll 8)])
  /\ (Limiter.tokens_after 3 3 Scenario.burst = 0 ->
      Limiter.run 3 3 (Scenario.burst ++ (3001, Limiter.Poll 7) :: [(3100, Limiter.Poll 8)])
      = Limiter.run 3 3 (Scenario.burst ++ [(3100, Limiter.Poll 8)])).
Proof.
  apply (bucket_stays_in_range 3 3 Scenario.burst [(3100, Limiter.Poll 8)] 3000 3001 7).
  lia.
Defined.

